(** * wolfHSM: SHE protocol engine and shared-memory transport

    A shallow embedding of [src/wh_server_she.c] (the SHE command
    dispatcher and its handlers) and [src/wh_transport_mem.c] (the
    two-buffer shared-memory transport), followed by the properties
    established about them.

    Conventions.
    - C integers are [Z]; every narrowing store or wrapping operation is
      written out ([u8], [u16], [u32], [to_int]).
    - Byte buffers are [list Z] (one [Z] in 0..255 per byte).
    - A pointer argument that the code tests against [NULL] is an
      [option]; [None] is the null pointer.
    - File-scope variables of [wh_server_she.c] and the fields of the
      server context that the handlers touch are gathered in one record
      which every handler receives and returns. *)

From stdpp Require Import base gmap list.
From Stdlib Require Import ZArith Lia Bool.

Local Open Scope Z_scope.

(** ** Machine integers and byte buffers *)

Definition u8 (x : Z) : Z := x mod 256.
Definition u16 (x : Z) : Z := x mod 65536.
Definition u32 (x : Z) : Z := x mod 4294967296.

(** Conversion of a 32-bit pattern to [int] (two's complement). *)
Definition to_int (x : Z) : Z :=
  let y := u32 x in if y <? 2147483648 then y else y - 4294967296.

Definition bytes := list Z.

(** [sub off n b]: the [n] bytes of [b] starting at offset [off]. *)
Definition sub (off n : Z) (b : bytes) : bytes :=
  firstn (Z.to_nat n) (skipn (Z.to_nat off) b).

(** [upd off src b]: [b] with [src] stored at offset [off]. *)
Definition upd (off : Z) (src b : bytes) : bytes :=
  firstn (Z.to_nat off) b ++ src ++ skipn (Z.to_nat off + length src) b.

(** [memcpy dst src n]: [dst] after [memcpy(dst, src, n)]. *)
Definition memcpy (dst src : bytes) (n : Z) : bytes :=
  upd 0 (sub 0 n src) dst.

(** [memset dst c n]: [dst] after [memset(dst, c, n)]. *)
Definition memset (dst : bytes) (c n : Z) : bytes :=
  upd 0 (repeat c (Z.to_nat n)) dst.

(** [b[i]] read as a [uint8_t]. *)
Definition byte_at (b : bytes) (i : Z) : Z := u8 (nth (Z.to_nat i) b 0).

Fixpoint bytes_eqb (a b : bytes) : bool :=
  match a, b with
  | [], [] => true
  | x :: a', y :: b' => (x =? y) && bytes_eqb a' b'
  | _, _ => false
  end.

(** [XMEMCMP(a, b, n) != 0] is [negb (memeq a b n)]. *)
Definition memeq (a b : bytes) (n : Z) : bool :=
  bytes_eqb (sub 0 n a) (sub 0 n b).

Fixpoint xor_bytes (a b : bytes) : bytes :=
  match a, b with
  | x :: a', y :: b' => Z.lxor x y :: xor_bytes a' b'
  | _, _ => []
  end.

(** ** Build configuration

    The headers of the repository ([wolfhsm/wh_error.h],
    [wolfhsm/wh_server_she.h], [wolfhsm/wh_packet.h],
    [wolfhsm/wh_server_keystore.h]) are not among the sources, so the
    numeric values they define are fields of a class.  The byte order of
    the target is a field as well: the handlers read [uint32_t] values
    through pointer casts and call [ntohl]/[htonl]. *)

Class whConfig := {
  big_endian_host : bool;
  (* wolfhsm/wh_error.h *)
  WH_ERROR_BADARGS : Z;
  WH_ERROR_NOTREADY : Z;
  WH_ERROR_NOTFOUND : Z;
  WH_SHE_ERC_SEQUENCE_ERROR : Z;
  WH_SHE_ERC_KEY_NOT_AVAILABLE : Z;
  WH_SHE_ERC_KEY_INVALID : Z;
  WH_SHE_ERC_KEY_EMPTY : Z;
  WH_SHE_ERC_NO_SECURE_BOOT : Z;
  WH_SHE_ERC_WRITE_PROTECTED : Z;
  WH_SHE_ERC_KEY_UPDATE_ERROR : Z;
  WH_SHE_ERC_RNG_SEED : Z;
  WH_SHE_ERC_NO_DEBUGGING : Z;
  WH_SHE_ERC_BUSY : Z;
  WH_SHE_ERC_MEMORY_FAILURE : Z;
  WH_SHE_ERC_GENERAL_ERROR : Z;
  WOLFHSM_SHE_ERC_NO_ERROR : Z;
  (* action codes, as spelled in the [switch] of the dispatcher *)
  WH_SHE_SET_UID : Z;
  WH_SHE_SECURE_BOOT_INIT : Z;
  WH_SHE_SECURE_BOOT_UPDATE : Z;
  WH_SHE_SECURE_BOOT_FINISH : Z;
  WH_SHE_GET_STATUS : Z;
  WH_SHE_LOAD_KEY : Z;
  WH_SHE_LOAD_PLAIN_KEY : Z;
  WH_SHE_EXPORT_RAM_KEY : Z;
  WH_SHE_INIT_RND : Z;
  WH_SHE_RND : Z;
  WH_SHE_EXTEND_SEED : Z;
  WH_SHE_ENC_ECB : Z;
  WH_SHE_ENC_CBC : Z;
  WH_SHE_DEC_ECB : Z;
  WH_SHE_DEC_CBC : Z;
  (* action codes, as spelled in the sequencing gate of the dispatcher *)
  WOLFHSM_SHE_SECURE_BOOT_INIT : Z;
  WOLFHSM_SHE_SECURE_BOOT_UPDATE : Z;
  WOLFHSM_SHE_SECURE_BOOT_FINISH : Z;
  WOLFHSM_SHE_GET_STATUS : Z;
  (* key identifiers *)
  MAKE_WOLFHSM_KEYID : Z -> Z -> Z -> Z;
  WOLFHSM_KEYID_MASK : Z;
  WOLFHSM_KEYTYPE_SHE : Z;
  WOLFHSM_SHE_SECRET_KEY_ID : Z;
  WOLFHSM_SHE_BOOT_MAC_KEY_ID : Z;
  WOLFHSM_SHE_BOOT_MAC : Z;
  WOLFHSM_SHE_RAM_KEY_ID : Z;
  WOLFHSM_SHE_PRNG_SEED_ID : Z;
  (* metadata flags and status-register bits *)
  WOLFHSM_SHE_FLAG_WRITE_PROTECT : Z;
  WOLFHSM_SHE_FLAG_WILDCARD : Z;
  WOLFHSM_SHE_SREG_SECURE_BOOT : Z;
  WOLFHSM_SHE_SREG_BOOT_FINISHED : Z;
  WOLFHSM_SHE_SREG_BOOT_OK : Z;
  WOLFHSM_SHE_SREG_RND_INIT : Z;
  (* packet framing *)
  WOLFHSM_PACKET_STUB_SIZE : Z
}.

Fixpoint distinctb (l : list Z) : bool :=
  match l with
  | [] => true
  | x :: l' => negb (existsb (Z.eqb x) l') && distinctb l'
  end.

Section Config.
Context `{CFG : whConfig}.

(** Return codes: [0] is success; the others are error identities. *)
Definition return_codes : list Z :=
  [ 0; WH_ERROR_BADARGS; WH_ERROR_NOTREADY; WH_ERROR_NOTFOUND;
    WH_SHE_ERC_SEQUENCE_ERROR; WH_SHE_ERC_KEY_NOT_AVAILABLE;
    WH_SHE_ERC_KEY_INVALID; WH_SHE_ERC_KEY_EMPTY;
    WH_SHE_ERC_NO_SECURE_BOOT; WH_SHE_ERC_WRITE_PROTECTED;
    WH_SHE_ERC_KEY_UPDATE_ERROR; WH_SHE_ERC_RNG_SEED;
    WH_SHE_ERC_NO_DEBUGGING; WH_SHE_ERC_BUSY; WH_SHE_ERC_MEMORY_FAILURE;
    WH_SHE_ERC_GENERAL_ERROR ].

(** The fifteen labels of the dispatcher's [switch]. *)
Definition she_actions : list Z :=
  [ WH_SHE_SET_UID; WH_SHE_SECURE_BOOT_INIT; WH_SHE_SECURE_BOOT_UPDATE;
    WH_SHE_SECURE_BOOT_FINISH; WH_SHE_GET_STATUS; WH_SHE_LOAD_KEY;
    WH_SHE_LOAD_PLAIN_KEY; WH_SHE_EXPORT_RAM_KEY; WH_SHE_INIT_RND;
    WH_SHE_RND; WH_SHE_EXTEND_SEED; WH_SHE_ENC_ECB; WH_SHE_ENC_CBC;
    WH_SHE_DEC_ECB; WH_SHE_DEC_CBC ].

(** What any set of headers the sources compile against provides:
    distinct return codes, [WOLFHSM_SHE_ERC_NO_ERROR] equal to the success
    code, distinct [case] labels (the C language demands it), and the two
    spellings of the secure-boot and status actions naming the same
    codes. *)
Definition config_ok : bool :=
  distinctb return_codes
  && (WOLFHSM_SHE_ERC_NO_ERROR =? 0)
  && distinctb she_actions
  && (WOLFHSM_SHE_SECURE_BOOT_INIT =? WH_SHE_SECURE_BOOT_INIT)
  && (WOLFHSM_SHE_SECURE_BOOT_UPDATE =? WH_SHE_SECURE_BOOT_UPDATE)
  && (WOLFHSM_SHE_SECURE_BOOT_FINISH =? WH_SHE_SECURE_BOOT_FINISH)
  && (WOLFHSM_SHE_GET_STATUS =? WH_SHE_GET_STATUS).

(** *** Byte order *)

Definition be32 (b : bytes) : Z :=
  byte_at b 0 * 16777216 + byte_at b 1 * 65536 + byte_at b 2 * 256 + byte_at b 3.

Definition le32 (b : bytes) : Z :=
  byte_at b 3 * 16777216 + byte_at b 2 * 65536 + byte_at b 1 * 256 + byte_at b 0.

Definition be32_bytes (x : Z) : bytes :=
  [ (x / 16777216) mod 256; (x / 65536) mod 256; (x / 256) mod 256; x mod 256 ].

Definition le32_bytes (x : Z) : bytes :=
  [ x mod 256; (x / 256) mod 256; (x / 65536) mod 256; (x / 16777216) mod 256 ].

(** [*(uint32_t* )p] for [p] pointing at the bytes [b]. *)
Definition load32 (b : bytes) : Z :=
  if big_endian_host then be32 b else le32 b.

(** The four bytes in memory of the [uint32_t] value [x]. *)
Definition store32 (x : Z) : bytes :=
  if big_endian_host then be32_bytes x else le32_bytes x.

Definition bswap32 (x : Z) : Z := le32 (be32_bytes x).

Definition ntohl (x : Z) : Z := if big_endian_host then u32 x else bswap32 x.
Definition htonl (x : Z) : Z := ntohl x.

End Config.

(** ** Shared-memory transport ([src/wh_transport_mem.c]) *)

(** [union whTransportMemCsr_t]: the 64-bit register seen through its
    four 16-bit fields.  Reading or writing [u64] moves all four. *)
Record whShmbufferCsr := mkCsr {
  notify : Z;
  len : Z;
  ack : Z;
  wait : Z
}.

(** The two externally owned buffers: each is a CSR followed by its
    payload region. *)
Record whShm := mkShm {
  req : whShmbufferCsr;
  req_data : bytes;
  resp : whShmbufferCsr;
  resp_data : bytes
}.

Record whTransportMemConfig := mkTConfig {
  cfg_req : option unit;
  cfg_req_size : Z;
  cfg_resp : option unit;
  cfg_resp_size : Z
}.

(** [whTransportMemContext]; the pointers [req], [req_data], [resp] and
    [resp_data] all designate the one [whShm] threaded through the
    operations. *)
Record whTransportMemContext := mkTCtx {
  ctx_req_size : Z;
  ctx_resp_size : Z;
  initialized : Z
}.

Definition csr_zero : whShmbufferCsr := mkCsr 0 0 0 0.
Definition sizeof_csr : Z := 8.

Section Transport.
Context `{CFG : whConfig}.

Definition wh_TransportMem_Init (c : option whTransportMemContext)
    (cf : option whTransportMemConfig) : Z * option whTransportMemContext :=
  match c, cf with
  | Some _, Some config =>
      if negb (bool_decide (is_Some (cfg_req config)))
         || (cfg_req_size config =? 0)
         || negb (bool_decide (is_Some (cfg_resp config)))
         || (cfg_resp_size config =? 0)
      then (WH_ERROR_BADARGS, c)
      else (0, Some (mkTCtx (cfg_req_size config) (cfg_resp_size config) 1))
  | _, _ => (WH_ERROR_BADARGS, c)
  end.

(** A [uint16_t] field in memory, in the byte order of the host. *)
Definition store16 (x : Z) : bytes :=
  if big_endian_host then [ (x / 256) mod 256; x mod 256 ]
  else [ x mod 256; (x / 256) mod 256 ].

Definition load16 (b : bytes) : Z :=
  if big_endian_host then byte_at b 0 * 256 + byte_at b 1
  else byte_at b 1 * 256 + byte_at b 0.

(** The eight bytes of a CSR: [notify], [len], [ack], [wait] in this
    order, as the [struct] of the union lays them out. *)
Definition csr_bytes (r : whShmbufferCsr) : bytes :=
  store16 (notify r) ++ store16 (len r) ++ store16 (ack r) ++ store16 (wait r).

Definition csr_of_bytes (b : bytes) : whShmbufferCsr :=
  mkCsr (load16 (sub 0 2 b)) (load16 (sub 2 2 b))
        (load16 (sub 4 2 b)) (load16 (sub 6 2 b)).

(** [memset(buf, 0, n)] for a buffer [buf] that is the CSR [r] followed
    by the payload [d]: the first [n] bytes are cleared, counted from
    the start of the CSR. *)
Definition shm_memset0 (r : whShmbufferCsr) (d : bytes) (n : Z)
    : whShmbufferCsr * bytes :=
  let b := memset (csr_bytes r ++ d) 0 n in
  (csr_of_bytes (sub 0 sizeof_csr b), skipn (Z.to_nat sizeof_csr) b).

Definition wh_TransportMem_InitClear (c : option whTransportMemContext)
    (cf : option whTransportMemConfig) (m : whShm)
    : Z * option whTransportMemContext * whShm :=
  let '(rc, c') := wh_TransportMem_Init c cf in
  if rc =? 0 then
    match c' with
    | Some context =>
        (* Zero the buffers *)
        let rq := shm_memset0 (req m) (req_data m) (ctx_req_size context) in
        let rs := shm_memset0 (resp m) (resp_data m) (ctx_resp_size context) in
        (rc, c', mkShm (fst rq) (snd rq) (fst rs) (snd rs))
    | None => (rc, c', m)
    end
  else (rc, c', m).

Definition wh_TransportMem_Cleanup (c : option whTransportMemContext)
    : Z * option whTransportMemContext :=
  match c with
  | None => (WH_ERROR_BADARGS, None)
  | Some context =>
      (0, Some (mkTCtx (ctx_req_size context) (ctx_resp_size context) 0))
  end.

(** [len] is a [uint16_t]; [data] may be [NULL]. Returns the code and the
    shared memory afterwards. *)
Definition wh_TransportMem_SendRequest (c : option whTransportMemContext)
    (m : whShm) (len_ : Z) (data : option bytes) : Z * whShm :=
  match c with
  | None => (WH_ERROR_BADARGS, m)
  | Some context =>
      if initialized context =? 0 then (WH_ERROR_BADARGS, m)
      else
        let resp_ := resp m in
        let req_ := req m in
        if negb (notify req_ =? notify resp_) then (WH_ERROR_NOTREADY, m)
        else
          let rd := match data with
                    | Some d => if negb (len_ =? 0)
                                then memcpy (req_data m) d len_
                                else req_data m
                    | None => req_data m
                    end in
          let req' := mkCsr (u16 (notify req_ + 1)) len_ (ack req_) (wait req_) in
          (0, mkShm req' rd (resp m) (resp_data m))
  end.

(** [out_len] and [data] are the caller's objects ([None] for [NULL]);
    the result carries them as the call leaves them. *)
Definition wh_TransportMem_RecvRequest (c : option whTransportMemContext)
    (m : whShm) (out_len : option Z) (data : option bytes)
    : Z * option Z * option bytes :=
  match c with
  | None => (WH_ERROR_BADARGS, out_len, data)
  | Some context =>
      if initialized context =? 0 then (WH_ERROR_BADARGS, out_len, data)
      else
        let req_ := req m in
        let resp_ := resp m in
        if notify req_ =? notify resp_ then (WH_ERROR_NOTREADY, out_len, data)
        else
          let data' := match data with
                       | Some d => if negb (len req_ =? 0)
                                   then Some (memcpy d (req_data m) (len req_))
                                   else Some d
                       | None => None
                       end in
          let out_len' := match out_len with
                          | Some _ => Some (len req_)
                          | None => None
                          end in
          (0, out_len', data')
  end.

Definition wh_TransportMem_SendResponse (c : option whTransportMemContext)
    (m : whShm) (len_ : Z) (data : option bytes) : Z * whShm :=
  match c with
  | None => (WH_ERROR_BADARGS, m)
  | Some context =>
      if initialized context =? 0 then (WH_ERROR_BADARGS, m)
      else
        let req_ := req m in
        let resp_ := resp m in
        let rd := match data with
                  | Some d => if negb (len_ =? 0)
                              then memcpy (resp_data m) d len_
                              else resp_data m
                  | None => resp_data m
                  end in
        let resp' := mkCsr (notify req_) len_ (ack resp_) (wait resp_) in
        (0, mkShm (req m) (req_data m) resp' rd)
  end.

Definition wh_TransportMem_RecvResponse (c : option whTransportMemContext)
    (m : whShm) (out_len : option Z) (data : option bytes)
    : Z * option Z * option bytes :=
  match c with
  | None => (WH_ERROR_BADARGS, out_len, data)
  | Some context =>
      if initialized context =? 0 then (WH_ERROR_BADARGS, out_len, data)
      else
        let req_ := req m in
        let resp_ := resp m in
        if negb (notify resp_ =? notify req_) then (WH_ERROR_NOTREADY, out_len, data)
        else
          let data' := match data with
                       | Some d => if negb (len resp_ =? 0)
                                   then Some (memcpy d (resp_data m) (len resp_))
                                   else Some d
                       | None => None
                       end in
          let out_len' := match out_len with
                          | Some _ => Some (len resp_)
                          | None => None
                          end in
          (0, out_len', data')
  end.

End Transport.

(** ** Collaborators of the SHE engine *)

(** Sizes fixed by the SHE data model: 16-byte keys and AES blocks, a
    15-byte UID, the 16/32/16/32/16-byte messages M1..M5, and the
    12-byte zero prefix of the boot MAC. *)
Definition WOLFHSM_SHE_KEY_SZ : Z := 16.
Definition AES_BLOCK_SIZE : Z := 16.
Definition WOLFHSM_SHE_UID_SZ : Z := 15.
Definition WOLFHSM_SHE_M1_SZ : Z := 16.
Definition WOLFHSM_SHE_M2_SZ : Z := 32.
Definition WOLFHSM_SHE_M3_SZ : Z := 16.
Definition WOLFHSM_SHE_M4_SZ : Z := 32.
Definition WOLFHSM_SHE_M5_SZ : Z := 16.
Definition WOLFHSM_SHE_BOOT_MAC_PREFIX_LEN : Z := 12.

Definition WOLFHSM_SHE_KEY_UPDATE_ENC_C : bytes :=
  [0x01; 0x01; 0x53; 0x48; 0x45; 0x00; 0x80; 0x00;
   0x00; 0x00; 0x00; 0x00; 0x00; 0x00; 0x00; 0xB0].
Definition WOLFHSM_SHE_KEY_UPDATE_MAC_C : bytes :=
  [0x01; 0x02; 0x53; 0x48; 0x45; 0x00; 0x80; 0x00;
   0x00; 0x00; 0x00; 0x00; 0x00; 0x00; 0x00; 0xB0].
Definition WOLFHSM_SHE_PRNG_KEY_C : bytes :=
  [0x01; 0x04; 0x53; 0x48; 0x45; 0x00; 0x80; 0x00;
   0x00; 0x00; 0x00; 0x00; 0x00; 0x00; 0x00; 0xB0].
Definition WOLFHSM_SHE_PRNG_SEED_KEY_C : bytes :=
  [0x01; 0x05; 0x53; 0x48; 0x45; 0x00; 0x80; 0x00;
   0x00; 0x00; 0x00; 0x00; 0x00; 0x00; 0x00; 0xB0].

Definition WOLFHSM_SHE_SB_INIT : Z := 0.
Definition WOLFHSM_SHE_SB_UPDATE : Z := 1.
Definition WOLFHSM_SHE_SB_FINISH : Z := 2.
Definition WOLFHSM_SHE_SB_SUCCESS : Z := 3.
Definition WOLFHSM_SHE_SB_FAILURE : Z := 4.

Definition zero_block : bytes := repeat 0 16%nat.

(** The [Cmac] object: the key it was initialised with and the bytes
    fed to it so far. *)
Record Cmac := mkCmac {
  cmac_key : bytes;
  cmac_msg : bytes
}.

(** The crypto provider (wolfCrypt, reached through [devId]).  Every
    call yields a return code; the calls that produce bytes yield them
    too.  The [Aes] object only carries the key and IV from
    [wc_AesSetKey] to the next operation, so the operations take them as
    arguments; a [NULL] IV is the zero block. *)
Class CryptoProvider := {
  wc_AesInit : Z;
  wc_AesSetKey : bytes -> Z -> Z;
  wc_AesSetKeyDirect : bytes -> Z -> Z;
  wc_AesEncryptDirect : bytes -> bytes -> Z * bytes;
  wc_AesCbcEncrypt : bytes -> bytes -> bytes -> Z * bytes;
  wc_AesCbcDecrypt : bytes -> bytes -> bytes -> Z * bytes;
  wc_AesEcbEncrypt : bytes -> bytes -> Z * bytes;
  wc_AesEcbDecrypt : bytes -> bytes -> Z * bytes;
  wc_InitCmac_ex : bytes -> Z -> Z;
  wc_CmacUpdate : Cmac -> bytes -> Z;
  wc_CmacFinal : Cmac -> Z * bytes * Z
}.

(** [whNvmMetadata], with its [label] seen as the [whSheMetadata] the
    handlers cast it to. *)
Record whNvmMetadata := mkMeta {
  meta_id : Z;
  meta_len : Z;
  she_flags : Z;
  she_count : Z
}.

(** Modelled from the spec: the keystore entry points [hsmReadKey],
    [hsmCacheKey] and [wh_Nvm_AddObject] (wolfhsm/wh_server_keystore.h,
    wolfhsm/wh_nvm.h) are missing from the sources.  Following the
    keystore contract, a read yields a code together with the metadata
    and key bytes it found and changes nothing; the two writers yield a
    code and the store afterwards. *)
Class Keystore := {
  whNvm : Type;
  hsmReadKey : whNvm -> Z -> Z -> Z * whNvmMetadata * bytes;
  hsmCacheKey : whNvm -> whNvmMetadata -> bytes -> Z * whNvm;
  wh_Nvm_AddObject : whNvm -> whNvmMetadata -> Z -> bytes -> Z * whNvm
}.

(** ** State of the SHE engine *)

(** The file-scope variables of [wh_server_she.c]. *)
Record sheGlobals := mkGlobals {
  hsmShePrngState : bytes;
  WOLFHSM_SHE_PRNG_KEY : bytes;
  hsmSheSbState : Z;
  hsmSheCmacKeyFound : Z;
  hsmSheRamKeyPlain : Z;
  hsmSheUidSet : Z;
  hsmSheBlSize : Z;
  hsmSheBlSizeReceived : Z;
  hsmSheRndInited : Z;
  sheCmac : Cmac
}.

Definition sheGlobals_init : sheGlobals :=
  mkGlobals zero_block zero_block WOLFHSM_SHE_SB_INIT 0 0 0 0 0 0 (mkCmac [] []).

(** Modelled from the spec: [whPacket] (wolfhsm/wh_packet.h) is missing
    from the sources.  Following the packet framing of the external
    interfaces, it is a stub header holding [rc], followed by the bytes
    shared by all request and response structs.  Every struct starts at
    offset 0 of [body] with its first member; the message arrays follow
    one another in the order M1, M2, M3 (requests) and M4, M5
    (responses), which is what hashing "M1 | M2 in one call" from the
    address of the struct relies on. *)
Record whPacket := mkPacket {
  rc : Z;
  body : bytes
}.

(** Struct sizes and member offsets of wolfhsm/wh_packet.h that the
    handlers use; they are missing from the sources as well. *)
Class whPacketLayout := {
  sizeof_rc : Z;
  sizeof_sheSecureBootInitRes : Z;
  sizeof_sheSecureBootUpdateReq : Z;
  sizeof_sheSecureBootUpdateRes : Z;
  sizeof_sheSecureBootFinishRes : Z;
  sizeof_sheGetStatusRes : Z;
  sizeof_sheInitRngRes : Z;
  sizeof_sheExtendSeedRes : Z;
  sizeof_sheEncEcbReq : Z;
  sizeof_sheEncEcbRes : Z;
  sizeof_sheEncCbcReq : Z;
  sizeof_sheEncCbcRes : Z;
  sizeof_sheDecEcbReq : Z;
  sizeof_sheDecEcbRes : Z;
  sizeof_sheDecCbcReq : Z;
  sizeof_sheDecCbcRes : Z;
  offsetof_keyId : Z;
  offsetof_iv : Z
}.

Definition sizeof_sheLoadKeyRes : Z := WOLFHSM_SHE_M4_SZ + WOLFHSM_SHE_M5_SZ.
Definition sizeof_sheExportRamKeyRes : Z :=
  WOLFHSM_SHE_M1_SZ + WOLFHSM_SHE_M2_SZ + WOLFHSM_SHE_M3_SZ
  + WOLFHSM_SHE_M4_SZ + WOLFHSM_SHE_M5_SZ.
Definition sizeof_sheRndRes : Z := WOLFHSM_SHE_KEY_SZ.

(** The fields of [whServerContext] the handlers use: [sheUid],
    [comm->client_id] and the keystore reached through the server. *)
Record whServerContext `{Keystore} := mkServer {
  sheUid : bytes;
  client_id : Z;
  nvm : whNvm
}.
Arguments mkServer {_} _ _ _.

(** Automatic arrays and structs are not initialised by the handlers;
    what they hold before the first store is an input of the model. *)
Record sheStack := mkStack {
  stk_meta : whNvmMetadata;
  stk_kdfInput : bytes;
  stk_key : bytes
}.

(** What a handler leaves behind: its return value, the globals, the
    server context, the packet and [*size]. *)
Record sheResult `{Keystore} := mkResult {
  res_ret : Z;
  res_glob : sheGlobals;
  res_server : whServerContext;
  res_packet : whPacket;
  res_size : Z
}.
Arguments mkResult {_} _ _ _ _ _.

Definition set_body (p : whPacket) (b : bytes) : whPacket := mkPacket (rc p) b.
Definition set_rc (p : whPacket) (r : Z) : whPacket := mkPacket r (body p).

(** ** The SHE engine ([src/wh_server_she.c]) *)

Section She.
Context `{CFG : whConfig} `{LAY : whPacketLayout} `{CP : CryptoProvider}
        `{KS : Keystore}.

(** [while (size > 1) { size--; if (buffer[size] != 0) return 0; } return 1;] *)
Fixpoint XMEMEQZERO_loop (fuel : nat) (buffer : bytes) (size : Z) : Z :=
  match fuel with
  | O => 1
  | S fuel' =>
      if size >? 1 then
        let size' := size - 1 in
        if negb (byte_at buffer size' =? 0) then 0
        else XMEMEQZERO_loop fuel' buffer size'
      else 1
  end.

Definition XMEMEQZERO (buffer : bytes) (size : Z) : Z :=
  XMEMEQZERO_loop (Z.to_nat size) buffer size.

(** The [while] loop of [wh_AesMp16].  [key] is the key held by
    [sheAes]; [i] is the [int] index; [(int)inSz] is [to_int inSz]. *)
Fixpoint wh_AesMp16_loop (fuel : nat) (in_ : bytes) (inSz : Z)
    (i : Z) (key out messageZero : bytes) : Z * bytes :=
  match fuel with
  | O => (0, out)
  | S fuel' =>
      if i <? to_int inSz then
        let paddedInput :=
          if to_int inSz - i <? to_int AES_BLOCK_SIZE
          then sub i (u32 (inSz - i)) in_
               ++ repeat 0 (Z.to_nat (u32 (AES_BLOCK_SIZE - (inSz - i))))
          else sub i AES_BLOCK_SIZE in_ in
        let enc := wc_AesEncryptDirect key paddedInput in
        let out' := xor_bytes (xor_bytes (snd enc) paddedInput) messageZero in
        let ret := if fst enc =? 0
                   then wc_AesSetKeyDirect out' AES_BLOCK_SIZE
                   else fst enc in
        if ret =? 0
        then wh_AesMp16_loop fuel' in_ inSz (to_int (i + AES_BLOCK_SIZE))
                             out' out' out'
        else (ret, out')
      else (0, out)
  end.

(** The loop runs while [ret == 0]; it advances [i] by a block per
    round, so [(int)inSz] rounds are more than it can take. *)
Definition wh_AesMp16 (server : option whServerContext) (in_ : option bytes)
    (inSz : Z) (out : option bytes) : Z * option bytes :=
  match server, in_, out with
  | Some _, Some inb, Some outb =>
      if inSz =? 0 then (WH_ERROR_BADARGS, out)
      else
        let messageZero := zero_block in
        let ret := wc_AesInit in
        let ret := if ret =? 0
                   then wc_AesSetKeyDirect messageZero AES_BLOCK_SIZE
                   else ret in
        if ret =? 0
        then let r := wh_AesMp16_loop (Z.to_nat (to_int inSz)) inb inSz 0
                                      messageZero outb messageZero in
             (fst r, Some (snd r))
        else (ret, out)
  | _, _, _ => (WH_ERROR_BADARGS, out)
  end.

(** The calls the handlers make: all three pointers are valid, [out] is
    a 16-byte array whose current content is [out]. *)
Definition AesMp16 (server : whServerContext) (in_ : bytes) (inSz : Z)
    (out : bytes) : Z * bytes :=
  let r := wh_AesMp16 (Some server) (Some in_) inSz (Some out) in
  (fst r, match snd r with Some o => o | None => out end).

Definition hsmShePopAuthId (messageOne : bytes) : Z :=
  Z.land (byte_at messageOne (WOLFHSM_SHE_M1_SZ - 1)) 0x0f.

Definition hsmShePopId (messageOne : bytes) : Z :=
  Z.shiftr (Z.land (byte_at messageOne (WOLFHSM_SHE_M1_SZ - 1)) 0xf0) 4.

Definition hsmShePopFlags (messageTwo : bytes) : Z :=
  Z.lor (Z.shiftl (Z.land (byte_at messageTwo 3) 0x0f) 4)
        (Z.shiftr (Z.land (byte_at messageTwo 4) 0x80) 7).

(** [hsmReadKey(server, MAKE_WOLFHSM_KEYID(WOLFHSM_KEYTYPE_SHE,
    server->comm->client_id, slot), ...)]. *)
Definition she_keyid (server : whServerContext) (slot : Z) : Z :=
  MAKE_WOLFHSM_KEYID WOLFHSM_KEYTYPE_SHE (client_id server) slot.

Definition read_key (server : whServerContext) (slot cap : Z)
    : Z * whNvmMetadata * bytes :=
  hsmReadKey (nvm server) (she_keyid server slot) cap.

Definition rk_ret (r : Z * whNvmMetadata * bytes) : Z := fst (fst r).
Definition rk_meta (r : Z * whNvmMetadata * bytes) : whNvmMetadata := snd (fst r).
Definition rk_key (r : Z * whNvmMetadata * bytes) : bytes := snd r.

(** The [Cmac] object after [wc_InitCmac_ex] and [wc_CmacUpdate]. *)
Definition cmac_init (c : Cmac) (key : bytes) (keySz : Z) : Cmac :=
  if wc_InitCmac_ex key keySz =? 0 then mkCmac (sub 0 keySz key) [] else c.

Definition cmac_update (c : Cmac) (data : bytes) : Cmac :=
  if wc_CmacUpdate c data =? 0 then mkCmac (cmac_key c) (cmac_msg c ++ data) else c.

Definition cf_ret (r : Z * bytes * Z) : Z := fst (fst r).
Definition cf_out (r : Z * bytes * Z) : bytes := snd (fst r).
Definition cf_field (r : Z * bytes * Z) : Z := snd r.

(** [if (ret == 0) ret = wc_AesInit(...); if (ret == 0) ret =
    wc_AesSetKey(sheAes, key, keySz, ...);] *)
Definition aes_setup (ret : Z) (key : bytes) (keySz : Z) : Z :=
  let ret := if ret =? 0 then wc_AesInit else ret in
  if ret =? 0 then wc_AesSetKey key keySz else ret.

Definition set_server_uid (s : whServerContext) (u : bytes) : whServerContext :=
  mkServer u (client_id s) (nvm s).
Definition set_server_nvm (s : whServerContext) (n : whNvm) : whServerContext :=
  mkServer (sheUid s) (client_id s) n.

Definition hsmSheSetUid (g : sheGlobals) (server : whServerContext)
    (packet : whPacket) (size : Z) : sheResult :=
  let ret := if hsmSheUidSet g =? 1 then WH_SHE_ERC_SEQUENCE_ERROR else 0 in
  mkResult ret
    (mkGlobals (hsmShePrngState g) (WOLFHSM_SHE_PRNG_KEY g) (hsmSheSbState g)
       (hsmSheCmacKeyFound g) (hsmSheRamKeyPlain g)
       (if ret =? 0 then 1 else hsmSheUidSet g)
       (hsmSheBlSize g) (hsmSheBlSizeReceived g) (hsmSheRndInited g) (sheCmac g))
    (set_server_uid server
       (if ret =? 0
        then memcpy (sheUid server) (body packet) WOLFHSM_SHE_UID_SZ
        else sheUid server))
    packet size.

Definition hsmSheSecureBootInit (g : sheGlobals) (server : whServerContext)
    (packet : whPacket) (size : Z) (stk : sheStack) : sheResult :=
  let ret0 := if negb (hsmSheSbState g =? WOLFHSM_SHE_SB_INIT)
              then WH_SHE_ERC_SEQUENCE_ERROR else 0 in
  (* set the expected size, check if the boot mac key is empty *)
  let blSize := if ret0 =? 0 then load32 (sub 0 4 (body packet))
                else hsmSheBlSize g in
  let rd := read_key server WOLFHSM_SHE_BOOT_MAC_KEY_ID WOLFHSM_SHE_KEY_SZ in
  let found := rk_ret rd =? 0 in
  let macKey := if (ret0 =? 0) && found
                then memcpy (stk_key stk) (rk_key rd) (Z.of_nat (length (rk_key rd)))
                else stk_key stk in
  let ret1 := if ret0 =? 0
              then (if found then 0 else WH_SHE_ERC_NO_SECURE_BOOT)
              else ret0 in
  let sb1 := if (ret0 =? 0) && negb found
             then WOLFHSM_SHE_SB_SUCCESS else hsmSheSbState g in
  let ckf := if ret0 =? 0 then (if found then 1 else 0)
             else hsmSheCmacKeyFound g in
  (* init the cmac *)
  let ret2 := if ret1 =? 0 then wc_InitCmac_ex macKey WOLFHSM_SHE_KEY_SZ else ret1 in
  let cmac1 := if ret1 =? 0 then cmac_init (sheCmac g) macKey WOLFHSM_SHE_KEY_SZ
               else sheCmac g in
  (* hash 12 zeros *)
  let macKey2 := memset macKey 0 WOLFHSM_SHE_BOOT_MAC_PREFIX_LEN in
  let prefix := sub 0 WOLFHSM_SHE_BOOT_MAC_PREFIX_LEN macKey2 in
  let ret3 := if ret2 =? 0 then wc_CmacUpdate cmac1 prefix else ret2 in
  let cmac2 := if ret2 =? 0 then cmac_update cmac1 prefix else cmac1 in
  (* hash size *)
  let ret4 := if ret3 =? 0 then wc_CmacUpdate cmac2 (store32 blSize) else ret3 in
  let cmac3 := if ret3 =? 0 then cmac_update cmac2 (store32 blSize) else cmac2 in
  mkResult ret4
    (mkGlobals (hsmShePrngState g) (WOLFHSM_SHE_PRNG_KEY g)
       (if ret4 =? 0 then WOLFHSM_SHE_SB_UPDATE else sb1)
       ckf (hsmSheRamKeyPlain g) (hsmSheUidSet g)
       blSize (hsmSheBlSizeReceived g) (hsmSheRndInited g) cmac3)
    server
    (if ret4 =? 0
     then set_body packet (upd 0 (store32 WOLFHSM_SHE_ERC_NO_ERROR) (body packet))
     else packet)
    (if ret4 =? 0
     then u16 (WOLFHSM_PACKET_STUB_SIZE + sizeof_sheSecureBootInitRes)
     else size).

Definition hsmSheSecureBootUpdate (g : sheGlobals) (server : whServerContext)
    (packet : whPacket) (size : Z) : sheResult :=
  let ret0 := if negb (hsmSheSbState g =? WOLFHSM_SHE_SB_UPDATE)
              then WH_SHE_ERC_SEQUENCE_ERROR else 0 in
  let sz := load32 (sub 0 4 (body packet)) in
  (* the bootloader chunk is after the fixed fields *)
  let in_ := sub sizeof_sheSecureBootUpdateReq sz (body packet) in
  let received := if ret0 =? 0 then u32 (hsmSheBlSizeReceived g + sz)
                  else hsmSheBlSizeReceived g in
  let ret1 := if (ret0 =? 0) && (received >? hsmSheBlSize g)
              then WH_SHE_ERC_SEQUENCE_ERROR else ret0 in
  (* update with the new input *)
  let ret2 := if ret1 =? 0 then wc_CmacUpdate (sheCmac g) in_ else ret1 in
  let cmac1 := if ret1 =? 0 then cmac_update (sheCmac g) in_ else sheCmac g in
  mkResult ret2
    (mkGlobals (hsmShePrngState g) (WOLFHSM_SHE_PRNG_KEY g)
       (if (ret2 =? 0) && (received =? hsmSheBlSize g)
        then WOLFHSM_SHE_SB_FINISH else hsmSheSbState g)
       (hsmSheCmacKeyFound g) (hsmSheRamKeyPlain g) (hsmSheUidSet g)
       (hsmSheBlSize g) received (hsmSheRndInited g) cmac1)
    server
    (if ret2 =? 0
     then set_body packet (upd 0 (store32 WOLFHSM_SHE_ERC_NO_ERROR) (body packet))
     else packet)
    (if ret2 =? 0
     then u16 (WOLFHSM_PACKET_STUB_SIZE + sizeof_sheSecureBootUpdateRes)
     else size).

Definition hsmSheSecureBootFinish (g : sheGlobals) (server : whServerContext)
    (packet : whPacket) (size : Z) (stk : sheStack) : sheResult :=
  let ret0 := if negb (hsmSheSbState g =? WOLFHSM_SHE_SB_FINISH)
              then WH_SHE_ERC_SEQUENCE_ERROR else 0 in
  (* call final *)
  let fin := wc_CmacFinal (sheCmac g) in
  let ret1 := if ret0 =? 0 then cf_ret fin else ret0 in
  let cmacOutput := cf_out fin in
  let field := cf_field fin in
  (* load the cmac to check *)
  let rd := read_key server WOLFHSM_SHE_BOOT_MAC WOLFHSM_SHE_KEY_SZ in
  let macDigest := if rk_ret rd =? 0
                   then memcpy (stk_key stk) (rk_key rd)
                               (Z.of_nat (length (rk_key rd)))
                   else stk_key stk in
  let ret2 := if ret1 =? 0
              then (if negb (rk_ret rd =? 0)
                    then WH_SHE_ERC_KEY_NOT_AVAILABLE else 0)
              else ret1 in
  (* compare and set either success or failure *)
  let same := memeq cmacOutput macDigest field in
  let ret3 := if ret2 =? 0
              then (if same then 0 else WH_SHE_ERC_GENERAL_ERROR)
              else ret2 in
  mkResult ret3
    (mkGlobals (hsmShePrngState g) (WOLFHSM_SHE_PRNG_KEY g)
       (if ret2 =? 0
        then (if same then WOLFHSM_SHE_SB_SUCCESS else WOLFHSM_SHE_SB_FAILURE)
        else hsmSheSbState g)
       (hsmSheCmacKeyFound g) (hsmSheRamKeyPlain g) (hsmSheUidSet g)
       (hsmSheBlSize g) (hsmSheBlSizeReceived g) (hsmSheRndInited g) (sheCmac g))
    server
    (if (ret2 =? 0) && same
     then set_body packet (upd 0 (store32 WOLFHSM_SHE_ERC_NO_ERROR) (body packet))
     else packet)
    (if (ret2 =? 0) && same
     then u16 (WOLFHSM_PACKET_STUB_SIZE + sizeof_sheSecureBootFinishRes)
     else size).

Definition hsmSheGetStatus (g : sheGlobals) (server : whServerContext)
    (packet : whPacket) (size : Z) : sheResult :=
  let sreg := 0 in
  let sreg := if negb (hsmSheCmacKeyFound g =? 0)
              then Z.lor sreg WOLFHSM_SHE_SREG_SECURE_BOOT else sreg in
  let sreg := if (hsmSheSbState g =? WOLFHSM_SHE_SB_SUCCESS)
                 || (hsmSheSbState g =? WOLFHSM_SHE_SB_FAILURE)
              then Z.lor sreg WOLFHSM_SHE_SREG_BOOT_FINISHED else sreg in
  let sreg := if hsmSheSbState g =? WOLFHSM_SHE_SB_SUCCESS
              then Z.lor sreg WOLFHSM_SHE_SREG_BOOT_OK else sreg in
  let sreg := if hsmSheRndInited g =? 1
              then Z.lor sreg WOLFHSM_SHE_SREG_RND_INIT else sreg in
  mkResult 0 g server
    (set_body packet (upd 0 [u8 sreg] (body packet)))
    (u16 (WOLFHSM_PACKET_STUB_SIZE + sizeof_sheGetStatusRes)).

(** [hsmSheLoadKey].  [messageOne], [messageTwo], [messageThree] are the
    bytes 0..15, 16..47, 48..63 of the body; [messageFour] and
    [messageFive] of the response are the bytes 0..31 and 32..47.

    The body of the function is cut at four program points, so that the
    values of its locals there can be named: [hsmSheLoadKey_auth] runs
    from the entry to the decryption of [messageTwo],
    [hsmSheLoadKey_target] loads the target key and checks write
    protection, [hsmSheLoadKey_uid] is the UID check,
    [hsmSheLoadKey_counter] the counter check, and
    [hsmSheLoadKey_write] runs from the write of the key to the end.
    [hsmSheLoadKey] is the five in sequence. *)
Record loadKeyLocals := mkLocals {
  lk_ret : Z;
  lk_keyRet : Z;
  lk_meta : whNvmMetadata;
  lk_kdfInput : bytes;
  lk_tmpKey : bytes;
  lk_body : bytes;
  lk_cmac : Cmac;
  lk_keySz : Z
}.

Definition hsmSheLoadKey_auth (g : sheGlobals) (server : whServerContext)
    (packet : whPacket) (stk : sheStack) : loadKeyLocals :=
  let b0 := body packet in
  let messageOne := sub 0 WOLFHSM_SHE_M1_SZ b0 in
  (* read the auth key by AuthID *)
  let rd := read_key server (hsmShePopAuthId messageOne) (WOLFHSM_SHE_KEY_SZ * 2) in
  let auth_ok := rk_ret rd =? 0 in
  let keySz := if auth_ok then Z.of_nat (length (rk_key rd))
               else WOLFHSM_SHE_KEY_SZ * 2 in
  let kdfInput0 := if auth_ok then memcpy (stk_kdfInput stk) (rk_key rd) keySz
                   else stk_kdfInput stk in
  (* make K2 using AES-MP(authKey | WOLFHSM_SHE_KEY_UPDATE_MAC_C) *)
  let kdfInput1 := if auth_ok then upd keySz WOLFHSM_SHE_KEY_UPDATE_MAC_C kdfInput0
                   else kdfInput0 in
  let k2 := AesMp16 server kdfInput1 (u32 (keySz + 16)) (stk_key stk) in
  let ret1 := if auth_ok then fst k2 else WH_SHE_ERC_KEY_NOT_AVAILABLE in
  let tmpKey1 := if auth_ok then snd k2 else stk_key stk in
  (* cmac messageOne and messageTwo using K2 as the cmac key *)
  let ret2 := if ret1 =? 0 then wc_InitCmac_ex tmpKey1 WOLFHSM_SHE_KEY_SZ else ret1 in
  let cmac1 := if ret1 =? 0 then cmac_init (sheCmac g) tmpKey1 WOLFHSM_SHE_KEY_SZ
               else sheCmac g in
  let m1m2 := sub 0 (WOLFHSM_SHE_M1_SZ + WOLFHSM_SHE_M2_SZ) b0 in
  let ret3 := if ret2 =? 0 then wc_CmacUpdate cmac1 m1m2 else ret2 in
  let cmac2 := if ret2 =? 0 then cmac_update cmac1 m1m2 else cmac1 in
  let fin := wc_CmacFinal cmac2 in
  let ret4 := if ret3 =? 0 then cf_ret fin else ret3 in
  (* compare digest to M3 *)
  let ret5 := if (ret4 =? 0)
                 && negb (memeq (sub 48 WOLFHSM_SHE_M3_SZ b0) (cf_out fin) (cf_field fin))
              then WH_SHE_ERC_KEY_UPDATE_ERROR else ret4 in
  (* make K1 using AES-MP(authKey | WOLFHSM_SHE_KEY_UPDATE_ENC_C) *)
  let kdfInput2 := if ret5 =? 0 then upd keySz WOLFHSM_SHE_KEY_UPDATE_ENC_C kdfInput1
                   else kdfInput1 in
  let k1 := AesMp16 server kdfInput2 (u32 (keySz + 16)) tmpKey1 in
  let ret6 := if ret5 =? 0 then fst k1 else ret5 in
  let tmpKey2 := if ret5 =? 0 then snd k1 else tmpKey1 in
  (* decrypt messageTwo *)
  let ret7 := aes_setup ret6 tmpKey2 WOLFHSM_SHE_KEY_SZ in
  let dec := wc_AesCbcDecrypt tmpKey2 zero_block (sub 16 WOLFHSM_SHE_M2_SZ b0) in
  let ret8 := if ret7 =? 0 then fst dec else ret7 in
  let b1 := if ret7 =? 0 then upd 16 (snd dec) b0 else b0 in
  mkLocals ret8 0 (stk_meta stk) kdfInput2 tmpKey2 b1 cmac2 keySz.

(** Load the target key and check write protection; [A] holds the
    locals after the decryption of [messageTwo]. *)
Definition hsmSheLoadKey_target (server : whServerContext) (A : loadKeyLocals)
    : loadKeyLocals :=
  let messageOne := sub 0 WOLFHSM_SHE_M1_SZ (lk_body A) in
  let ret8 := lk_ret A in
  (* load the target key *)
  let rt := read_key server (hsmShePopId messageOne) (lk_keySz A) in
  let target_ok := (ret8 =? 0) && (rk_ret rt =? 0) in
  let meta1 := if target_ok then rk_meta rt else lk_meta A in
  let kdfInput3 := if target_ok
                   then memcpy (lk_kdfInput A) (rk_key rt)
                               (Z.of_nat (length (rk_key rt)))
                   else lk_kdfInput A in
  let keySz := if target_ok then Z.of_nat (length (rk_key rt)) else lk_keySz A in
  (* if the keyslot is empty or write protection is not on continue *)
  let unprotected := (rk_ret rt =? WH_ERROR_NOTFOUND)
                     || (Z.land (she_flags meta1) WOLFHSM_SHE_FLAG_WRITE_PROTECT =? 0) in
  let keyRet := if (ret8 =? 0) && unprotected then rk_ret rt else lk_keyRet A in
  let ret9 := if ret8 =? 0
              then (if unprotected then 0 else WH_SHE_ERC_WRITE_PROTECTED)
              else ret8 in
  mkLocals ret9 keyRet meta1 kdfInput3 (lk_tmpKey A) (lk_body A) (lk_cmac A) keySz.

(** [if (ret == 0 && XMEMEQZERO(messageOne, UID_SZ) == 1) { wildcard }
    else if (ret == 0 && XMEMCMP(messageOne, server->sheUid, ...) != 0)]. *)
Definition hsmSheLoadKey_uid (server : whServerContext) (L : loadKeyLocals) : Z :=
  let messageOne := sub 0 WOLFHSM_SHE_M1_SZ (lk_body L) in
  if (lk_ret L =? 0) && (XMEMEQZERO messageOne WOLFHSM_SHE_UID_SZ =? 1)
  then (if Z.land (she_flags (lk_meta L)) WOLFHSM_SHE_FLAG_WILDCARD =? 0
        then WH_SHE_ERC_KEY_UPDATE_ERROR else lk_ret L)
  else if (lk_ret L =? 0)
          && negb (memeq messageOne (sheUid server) WOLFHSM_SHE_UID_SZ)
       then WH_SHE_ERC_KEY_UPDATE_ERROR
       else lk_ret L.

(** The counter check: [ret == 0 && keyRet != WH_ERROR_NOTFOUND] and
    [ntohl(word >> 4) <= ntohl(count)], where [word] is the [uint32_t]
    read at the start of the decrypted [messageTwo] and [count] the
    counter in the metadata of the slot. *)
Definition hsmSheLoadKey_counter (server : whServerContext) (L : loadKeyLocals) : Z :=
  let ret10 := hsmSheLoadKey_uid server L in
  let messageTwo := sub 16 WOLFHSM_SHE_M2_SZ (lk_body L) in
  let word := load32 (sub 0 4 messageTwo) in
  if (ret10 =? 0) && negb (lk_keyRet L =? WH_ERROR_NOTFOUND)
     && (ntohl (Z.shiftr word 4) <=? ntohl (she_count (lk_meta L)))
  then WH_SHE_ERC_KEY_UPDATE_ERROR else ret10.

(** From the write of the key to the end; [ret11] is [ret] as the
    counter check leaves it. *)
Definition hsmSheLoadKey_write (g : sheGlobals) (server : whServerContext)
    (packet : whPacket) (size : Z) (L : loadKeyLocals) (ret11 : Z) : sheResult :=
  let b1 := lk_body L in
  let messageOne := sub 0 WOLFHSM_SHE_M1_SZ b1 in
  let messageTwo := sub 16 WOLFHSM_SHE_M2_SZ b1 in
  let meta1 := lk_meta L in
  let word := load32 (sub 0 4 messageTwo) in
  (* write key with counter *)
  let meta2 := mkMeta (she_keyid server (hsmShePopId messageOne))
                      WOLFHSM_SHE_KEY_SZ
                      (hsmShePopFlags messageTwo)
                      (Z.shiftr word 4) in
  let newKey := sub (16 + WOLFHSM_SHE_KEY_SZ) WOLFHSM_SHE_KEY_SZ b1 in
  let isRam := Z.land (meta_id meta2) WOLFHSM_KEYID_MASK =? WOLFHSM_SHE_RAM_KEY_ID in
  let wc := hsmCacheKey (nvm server) meta2 newKey in
  let wa := wh_Nvm_AddObject (nvm server) meta2 (meta_len meta2) newKey in
  let nvm1 := if ret11 =? 0 then (if isRam then snd wc else snd wa)
              else nvm server in
  (* read the evicted back from nvm *)
  let rb := hsmReadKey nvm1 (meta_id meta2) WOLFHSM_SHE_KEY_SZ in
  let reread := (ret11 =? 0) && negb isRam && (fst wa =? 0) in
  let retw := if isRam then fst wc
              else if fst wa =? 0 then rk_ret rb else fst wa in
  let meta3 := if ret11 =? 0
               then (if reread && (rk_ret rb =? 0) then rk_meta rb else meta2)
               else meta1 in
  let b2 := if reread && (rk_ret rb =? 0)
            then upd (16 + WOLFHSM_SHE_KEY_SZ) (rk_key rb) b1 else b1 in
  let ret12 := if ret11 =? 0
               then (if negb (retw =? 0) then WH_SHE_ERC_KEY_UPDATE_ERROR else 0)
               else ret11 in
  (* generate K3 using the updated key *)
  let kdfInput4 :=
    if ret12 =? 0
    then upd (meta_len meta3) WOLFHSM_SHE_KEY_UPDATE_ENC_C
             (memcpy (lk_kdfInput L)
                     (sub (16 + WOLFHSM_SHE_KEY_SZ) WOLFHSM_SHE_KEY_SZ b2)
                     WOLFHSM_SHE_KEY_SZ)
    else lk_kdfInput L in
  let k3 := AesMp16 server kdfInput4 (u32 (meta_len meta3 + 16)) (lk_tmpKey L) in
  let ret13 := if ret12 =? 0 then fst k3 else ret12 in
  let tmpKey3 := if ret12 =? 0 then snd k3 else lk_tmpKey L in
  let ret14 := aes_setup ret13 tmpKey3 WOLFHSM_SHE_KEY_SZ in
  (* reset messageTwo with the nvm read counter, pad with a 1 bit *)
  let b3 := if ret14 =? 0
            then upd 16 (store32 (u32 (Z.shiftl (she_count meta3) 4))) b2 else b2 in
  let b4 := if ret14 =? 0
            then upd 19 [Z.lor (byte_at b3 19) 0x08] b3 else b3 in
  (* encrypt the new counter *)
  let enc := wc_AesEncryptDirect tmpKey3 (sub 16 AES_BLOCK_SIZE b4) in
  let ret15 := if ret14 =? 0 then fst enc else ret14 in
  let b5 := if ret14 =? 0 then upd WOLFHSM_SHE_KEY_SZ (snd enc) b4 else b4 in
  (* generate K4 using the updated key *)
  let b6 := if ret15 =? 0 then memcpy b5 (sheUid server) WOLFHSM_SHE_UID_SZ else b5 in
  let kdfInput5 := if ret15 =? 0
                   then upd (meta_len meta3) WOLFHSM_SHE_KEY_UPDATE_MAC_C kdfInput4
                   else kdfInput4 in
  let k4 := AesMp16 server kdfInput5 (u32 (meta_len meta3 + 16)) tmpKey3 in
  let ret16 := if ret15 =? 0 then fst k4 else ret15 in
  let tmpKey4 := if ret15 =? 0 then snd k4 else tmpKey3 in
  (* cmac messageFour using K4 as the cmac key *)
  let ret17 := if ret16 =? 0 then wc_InitCmac_ex tmpKey4 WOLFHSM_SHE_KEY_SZ else ret16 in
  let cmac3 := if ret16 =? 0 then cmac_init (lk_cmac L) tmpKey4 WOLFHSM_SHE_KEY_SZ
               else lk_cmac L in
  let messageFour := sub 0 WOLFHSM_SHE_M4_SZ b6 in
  let ret18 := if ret17 =? 0 then wc_CmacUpdate cmac3 messageFour else ret17 in
  let cmac4 := if ret17 =? 0 then cmac_update cmac3 messageFour else cmac3 in
  (* write M5 *)
  let fin2 := wc_CmacFinal cmac4 in
  let ret19 := if ret18 =? 0 then cf_ret fin2 else ret18 in
  let b7 := if ret18 =? 0 then upd WOLFHSM_SHE_M4_SZ (cf_out fin2) b6 else b6 in
  mkResult ret19
    (mkGlobals (hsmShePrngState g) (WOLFHSM_SHE_PRNG_KEY g) (hsmSheSbState g)
       (hsmSheCmacKeyFound g)
       (if (ret19 =? 0)
           && (Z.land (meta_id meta3) WOLFHSM_KEYID_MASK =? WOLFHSM_SHE_RAM_KEY_ID)
        then 1 else hsmSheRamKeyPlain g)
       (hsmSheUidSet g) (hsmSheBlSize g) (hsmSheBlSizeReceived g)
       (hsmSheRndInited g) cmac4)
    (set_server_nvm server nvm1)
    (set_body packet b7)
    (if ret19 =? 0 then u16 (WOLFHSM_PACKET_STUB_SIZE + sizeof_sheLoadKeyRes)
     else size).

Definition hsmSheLoadKey (g : sheGlobals) (server : whServerContext)
    (packet : whPacket) (size : Z) (stk : sheStack) : sheResult :=
  let A := hsmSheLoadKey_auth g server packet stk in
  let L := hsmSheLoadKey_target server A in
  hsmSheLoadKey_write g server packet size L (hsmSheLoadKey_counter server L).

Definition hsmSheLoadPlainKey (g : sheGlobals) (server : whServerContext)
    (packet : whPacket) (size : Z) : sheResult :=
  let meta := mkMeta (she_keyid server WOLFHSM_SHE_RAM_KEY_ID) WOLFHSM_SHE_KEY_SZ 0 0 in
  let wc := hsmCacheKey (nvm server) meta (sub 0 WOLFHSM_SHE_KEY_SZ (body packet)) in
  let ret := fst wc in
  mkResult ret
    (mkGlobals (hsmShePrngState g) (WOLFHSM_SHE_PRNG_KEY g) (hsmSheSbState g)
       (hsmSheCmacKeyFound g)
       (if ret =? 0 then 1 else hsmSheRamKeyPlain g)
       (hsmSheUidSet g) (hsmSheBlSize g) (hsmSheBlSizeReceived g)
       (hsmSheRndInited g) (sheCmac g))
    (set_server_nvm server (snd wc))
    packet
    (if ret =? 0 then u16 WOLFHSM_PACKET_STUB_SIZE else size).

(** [hsmSheExportRamKey].  The response lays out M1..M5 at the offsets
    0, 16, 48, 64 and 96 of the body. *)
Definition hsmSheExportRamKey (g : sheGlobals) (server : whServerContext)
    (packet : whPacket) (size : Z) (stk : sheStack) : sheResult :=
  let b0 := body packet in
  let slots := u8 (Z.lor (Z.shiftl WOLFHSM_SHE_RAM_KEY_ID 4) WOLFHSM_SHE_SECRET_KEY_ID) in
  let ctr := store32 (u32 (Z.shiftl (htonl 1) 4)) in
  (* check if ram key was loaded by CMD_LOAD_PLAIN_KEY *)
  let ret0 := if hsmSheRamKeyPlain g =? 0 then WH_SHE_ERC_KEY_INVALID else 0 in
  (* read the auth key *)
  let rs := read_key server WOLFHSM_SHE_SECRET_KEY_ID WOLFHSM_SHE_KEY_SZ in
  let s_ok := (ret0 =? 0) && (rk_ret rs =? 0) in
  let ret1 := if ret0 =? 0
              then (if negb (rk_ret rs =? 0) then WH_SHE_ERC_KEY_NOT_AVAILABLE else 0)
              else ret0 in
  let meta1 := if s_ok then rk_meta rs else stk_meta stk in
  let kdfInput0 := if s_ok
                   then memcpy (stk_kdfInput stk) (rk_key rs) (Z.of_nat (length (rk_key rs)))
                   else stk_kdfInput stk in
  (* set UID, key id and authId; generate K1 *)
  let b1 := if ret1 =? 0
            then upd 15 [slots] (memcpy b0 (sheUid server) WOLFHSM_SHE_UID_SZ)
            else b0 in
  let kdfInput1 := if ret1 =? 0
                   then upd (meta_len meta1) WOLFHSM_SHE_KEY_UPDATE_ENC_C kdfInput0
                   else kdfInput0 in
  let k1 := AesMp16 server kdfInput1 (u32 (meta_len meta1 + 16)) (stk_key stk) in
  let ret2 := if ret1 =? 0 then fst k1 else ret1 in
  let tmpKey1 := if ret1 =? 0 then snd k1 else stk_key stk in
  (* build cleartext M2: counter 1, flags, ram key *)
  let b2 := if ret2 =? 0
            then upd 16 ctr (upd 16 (repeat 0 (Z.to_nat WOLFHSM_SHE_M2_SZ)) b1)
            else b1 in
  let rr := read_key server WOLFHSM_SHE_RAM_KEY_ID WOLFHSM_SHE_KEY_SZ in
  let r_ok := (ret2 =? 0) && (rk_ret rr =? 0) in
  let ret3 := if ret2 =? 0
              then (if negb (rk_ret rr =? 0) then WH_SHE_ERC_KEY_NOT_AVAILABLE else 0)
              else ret2 in
  let meta2 := if r_ok then rk_meta rr else meta1 in
  let b3 := if r_ok then upd (16 + WOLFHSM_SHE_KEY_SZ) (rk_key rr) b2 else b2 in
  (* encrypt M2 with K1 *)
  let ret4 := aes_setup ret3 tmpKey1 WOLFHSM_SHE_KEY_SZ in
  let cmacOutput := sub (16 + WOLFHSM_SHE_KEY_SZ) WOLFHSM_SHE_KEY_SZ b3 in
  let encm2 := wc_AesCbcEncrypt tmpKey1 zero_block (sub 16 WOLFHSM_SHE_M2_SZ b3) in
  let ret5 := if ret4 =? 0 then fst encm2 else ret4 in
  let b4 := if ret4 =? 0 then upd 16 (snd encm2) b3 else b3 in
  (* generate K2 *)
  let kdfInput2 := if ret5 =? 0
                   then upd (meta_len meta2) WOLFHSM_SHE_KEY_UPDATE_MAC_C kdfInput1
                   else kdfInput1 in
  let k2 := AesMp16 server kdfInput2 (u32 (meta_len meta2 + 16)) tmpKey1 in
  let ret6 := if ret5 =? 0 then fst k2 else ret5 in
  let tmpKey2 := if ret5 =? 0 then snd k2 else tmpKey1 in
  (* cmac messageOne and messageTwo using K2 as the cmac key *)
  let ret7 := if ret6 =? 0 then wc_InitCmac_ex tmpKey2 WOLFHSM_SHE_KEY_SZ else ret6 in
  let cmac1 := if ret6 =? 0 then cmac_init (sheCmac g) tmpKey2 WOLFHSM_SHE_KEY_SZ
               else sheCmac g in
  let m1m2 := sub 0 (WOLFHSM_SHE_M1_SZ + WOLFHSM_SHE_M2_SZ) b4 in
  let ret8 := if ret7 =? 0 then wc_CmacUpdate cmac1 m1m2 else ret7 in
  let cmac2 := if ret7 =? 0 then cmac_update cmac1 m1m2 else cmac1 in
  let fin := wc_CmacFinal cmac2 in
  let ret9 := if ret8 =? 0 then cf_ret fin else ret8 in
  let b5 := if ret8 =? 0 then upd 48 (cf_out fin) b4 else b4 in
  (* generate K3 from the ram key *)
  let kdfInput3 := if ret9 =? 0
                   then upd WOLFHSM_SHE_KEY_SZ WOLFHSM_SHE_KEY_UPDATE_ENC_C
                            (memcpy kdfInput2 cmacOutput WOLFHSM_SHE_KEY_SZ)
                   else kdfInput2 in
  let k3 := AesMp16 server kdfInput3 (WOLFHSM_SHE_KEY_SZ + 16) tmpKey2 in
  let ret10 := if ret9 =? 0 then fst k3 else ret9 in
  let tmpKey3 := if ret9 =? 0 then snd k3 else tmpKey2 in
  let ret11 := aes_setup ret10 tmpKey3 WOLFHSM_SHE_KEY_SZ in
  (* M4: counter 1 padded with a 1 bit, encrypted *)
  let b6 := if ret11 =? 0
            then upd (64 + WOLFHSM_SHE_KEY_SZ) ctr
                     (upd 64 (repeat 0 (Z.to_nat WOLFHSM_SHE_M4_SZ)) b5)
            else b5 in
  let b7 := if ret11 =? 0
            then upd (64 + WOLFHSM_SHE_KEY_SZ + 3)
                     [Z.lor (byte_at b6 (64 + WOLFHSM_SHE_KEY_SZ + 3)) 0x08] b6
            else b6 in
  let enc := wc_AesEncryptDirect tmpKey3 (sub (64 + WOLFHSM_SHE_KEY_SZ) AES_BLOCK_SIZE b7) in
  let ret12 := if ret11 =? 0 then fst enc else ret11 in
  let b8 := if ret11 =? 0 then upd (64 + WOLFHSM_SHE_KEY_SZ) (snd enc) b7 else b7 in
  (* set UID, key id and authId; generate K4 *)
  let b9 := if ret12 =? 0
            then upd (64 + 15) [slots]
                     (upd 64 (sub 0 WOLFHSM_SHE_UID_SZ (sheUid server)) b8)
            else b8 in
  let kdfInput4 := if ret12 =? 0
                   then upd WOLFHSM_SHE_KEY_SZ WOLFHSM_SHE_KEY_UPDATE_MAC_C kdfInput3
                   else kdfInput3 in
  let k4 := AesMp16 server kdfInput4 (WOLFHSM_SHE_KEY_SZ + 16) tmpKey3 in
  let ret13 := if ret12 =? 0 then fst k4 else ret12 in
  let tmpKey4 := if ret12 =? 0 then snd k4 else tmpKey3 in
  (* cmac messageFour using K4 as the cmac key, write M5 *)
  let ret14 := if ret13 =? 0 then wc_InitCmac_ex tmpKey4 WOLFHSM_SHE_KEY_SZ else ret13 in
  let cmac3 := if ret13 =? 0 then cmac_init cmac2 tmpKey4 WOLFHSM_SHE_KEY_SZ else cmac2 in
  let messageFour := sub 64 WOLFHSM_SHE_M4_SZ b9 in
  let ret15 := if ret14 =? 0 then wc_CmacUpdate cmac3 messageFour else ret14 in
  let cmac4 := if ret14 =? 0 then cmac_update cmac3 messageFour else cmac3 in
  let fin2 := wc_CmacFinal cmac4 in
  let ret16 := if ret15 =? 0 then cf_ret fin2 else ret15 in
  let b10 := if ret15 =? 0 then upd 96 (cf_out fin2) b9 else b9 in
  mkResult ret16
    (mkGlobals (hsmShePrngState g) (WOLFHSM_SHE_PRNG_KEY g) (hsmSheSbState g)
       (hsmSheCmacKeyFound g) (hsmSheRamKeyPlain g) (hsmSheUidSet g)
       (hsmSheBlSize g) (hsmSheBlSizeReceived g) (hsmSheRndInited g) cmac4)
    server
    (set_body packet b10)
    (if ret16 =? 0 then u16 (WOLFHSM_PACKET_STUB_SIZE + sizeof_sheExportRamKeyRes)
     else size).

Definition hsmSheInitRnd (g : sheGlobals) (server : whServerContext)
    (packet : whPacket) (size : Z) (stk : sheStack) : sheResult :=
  (* check that init hasn't already been called since startup *)
  let ret0 := if hsmSheRndInited g =? 1 then WH_SHE_ERC_SEQUENCE_ERROR else 0 in
  (* read secret key *)
  let rs := read_key server WOLFHSM_SHE_SECRET_KEY_ID WOLFHSM_SHE_KEY_SZ in
  let s_ok := (ret0 =? 0) && (rk_ret rs =? 0) in
  let ret1 := if ret0 =? 0
              then (if negb (rk_ret rs =? 0) then WH_SHE_ERC_KEY_NOT_AVAILABLE else 0)
              else ret0 in
  let meta1 := if s_ok then rk_meta rs else stk_meta stk in
  let kdfInput0 := if s_ok
                   then memcpy (stk_kdfInput stk) (rk_key rs) (Z.of_nat (length (rk_key rs)))
                   else stk_kdfInput stk in
  (* generate PRNG_SEED_KEY *)
  let kdfInput1 := if ret1 =? 0
                   then upd WOLFHSM_SHE_KEY_SZ WOLFHSM_SHE_PRNG_SEED_KEY_C kdfInput0
                   else kdfInput0 in
  let k := AesMp16 server kdfInput1 (WOLFHSM_SHE_KEY_SZ + 16) (stk_key stk) in
  let ret2 := if ret1 =? 0 then fst k else ret1 in
  let tmpKey := if ret1 =? 0 then snd k else stk_key stk in
  (* read the current PRNG_SEED, i - 1, to cmacOutput *)
  let rp := read_key server WOLFHSM_SHE_PRNG_SEED_ID WOLFHSM_SHE_KEY_SZ in
  let p_ok := (ret2 =? 0) && (rk_ret rp =? 0) in
  let ret3 := if ret2 =? 0
              then (if negb (rk_ret rp =? 0) then WH_SHE_ERC_KEY_NOT_AVAILABLE else 0)
              else ret2 in
  let meta2 := if p_ok then rk_meta rp else meta1 in
  let cmacOutput0 := if p_ok
                     then memcpy (stk_key stk) (rk_key rp) (Z.of_nat (length (rk_key rp)))
                     else stk_key stk in
  (* encrypt to the PRNG_SEED, i *)
  let ret4 := aes_setup ret3 tmpKey WOLFHSM_SHE_KEY_SZ in
  let enc := wc_AesCbcEncrypt tmpKey zero_block (sub 0 WOLFHSM_SHE_KEY_SZ cmacOutput0) in
  let ret5 := if ret4 =? 0 then fst enc else ret4 in
  let cmacOutput := if ret4 =? 0 then upd 0 (snd enc) cmacOutput0 else cmacOutput0 in
  (* save PRNG_SEED, i *)
  let meta3 := mkMeta (she_keyid server WOLFHSM_SHE_PRNG_SEED_ID) WOLFHSM_SHE_KEY_SZ
                      (she_flags meta2) (she_count meta2) in
  let wa := wh_Nvm_AddObject (nvm server) meta3 (meta_len meta3)
                             (sub 0 WOLFHSM_SHE_KEY_SZ cmacOutput) in
  let ret6 := if ret5 =? 0
              then (if negb (fst wa =? 0) then WH_SHE_ERC_KEY_UPDATE_ERROR else 0)
              else ret5 in
  let nvm1 := if ret5 =? 0 then snd wa else nvm server in
  (* set PRNG_STATE, generate PRNG_KEY *)
  let kdfInput2 := if ret6 =? 0
                   then upd WOLFHSM_SHE_KEY_SZ WOLFHSM_SHE_PRNG_KEY_C kdfInput1
                   else kdfInput1 in
  let kk := AesMp16 server kdfInput2 (WOLFHSM_SHE_KEY_SZ + 16) (WOLFHSM_SHE_PRNG_KEY g) in
  let ret7 := if ret6 =? 0 then fst kk else ret6 in
  mkResult ret7
    (mkGlobals
       (if ret6 =? 0 then memcpy (hsmShePrngState g) cmacOutput WOLFHSM_SHE_KEY_SZ
        else hsmShePrngState g)
       (if ret6 =? 0 then snd kk else WOLFHSM_SHE_PRNG_KEY g)
       (hsmSheSbState g) (hsmSheCmacKeyFound g) (hsmSheRamKeyPlain g)
       (hsmSheUidSet g) (hsmSheBlSize g) (hsmSheBlSizeReceived g)
       (if ret7 =? 0 then 1 else hsmSheRndInited g)
       (sheCmac g))
    (set_server_nvm server nvm1)
    (if ret7 =? 0
     then set_body packet (upd 0 (store32 WOLFHSM_SHE_ERC_NO_ERROR) (body packet))
     else packet)
    (if ret7 =? 0 then u16 (WOLFHSM_PACKET_STUB_SIZE + sizeof_sheInitRngRes)
     else size).

Definition hsmSheRnd (g : sheGlobals) (server : whServerContext)
    (packet : whPacket) (size : Z) : sheResult :=
  (* check that rng has been inited *)
  let ret0 := if hsmSheRndInited g =? 0 then WH_SHE_ERC_RNG_SEED else 0 in
  (* use PRNG_KEY as the encryption key *)
  let ret1 := aes_setup ret0 (WOLFHSM_SHE_PRNG_KEY g) WOLFHSM_SHE_KEY_SZ in
  (* encrypt the PRNG_STATE, i - 1 to i *)
  let enc := wc_AesCbcEncrypt (WOLFHSM_SHE_PRNG_KEY g) zero_block
                              (sub 0 WOLFHSM_SHE_KEY_SZ (hsmShePrngState g)) in
  let ret2 := if ret1 =? 0 then fst enc else ret1 in
  let prng := if ret1 =? 0 then upd 0 (snd enc) (hsmShePrngState g)
              else hsmShePrngState g in
  mkResult ret2
    (mkGlobals prng (WOLFHSM_SHE_PRNG_KEY g) (hsmSheSbState g)
       (hsmSheCmacKeyFound g) (hsmSheRamKeyPlain g) (hsmSheUidSet g)
       (hsmSheBlSize g) (hsmSheBlSizeReceived g) (hsmSheRndInited g) (sheCmac g))
    server
    (if ret2 =? 0
     then set_body packet (memcpy (body packet) prng WOLFHSM_SHE_KEY_SZ)
     else packet)
    (if ret2 =? 0 then u16 (WOLFHSM_PACKET_STUB_SIZE + sizeof_sheRndRes) else size).

(** In the second [wh_AesMp16] call [out] is [kdfInput] itself: the
    first block is copied to [paddedInput] before [out] is written and
    the second block lies behind the 16 bytes of [out], so the call
    behaves as with separate buffers. *)
Definition hsmSheExtendSeed (g : sheGlobals) (server : whServerContext)
    (packet : whPacket) (size : Z) (stk : sheStack) : sheResult :=
  (* check that rng has been inited *)
  let ret0 := if hsmSheRndInited g =? 0 then WH_SHE_ERC_RNG_SEED else 0 in
  (* kdfInput = PRNG_STATE | entropy; extend PRNG_STATE *)
  let entropy := sub 0 WOLFHSM_SHE_KEY_SZ (body packet) in
  let kdfInput1 := if ret0 =? 0
                   then upd WOLFHSM_SHE_KEY_SZ entropy
                            (memcpy (stk_kdfInput stk) (hsmShePrngState g) WOLFHSM_SHE_KEY_SZ)
                   else stk_kdfInput stk in
  let k := AesMp16 server kdfInput1 (WOLFHSM_SHE_KEY_SZ + 16)
                   (sub 0 WOLFHSM_SHE_KEY_SZ (hsmShePrngState g)) in
  let ret1 := if ret0 =? 0 then fst k else ret0 in
  let prng := if ret0 =? 0 then upd 0 (snd k) (hsmShePrngState g)
              else hsmShePrngState g in
  (* read the PRNG_SEED into kdfInput *)
  let rp := read_key server WOLFHSM_SHE_PRNG_SEED_ID WOLFHSM_SHE_KEY_SZ in
  let p_ok := (ret1 =? 0) && (rk_ret rp =? 0) in
  let ret2 := if ret1 =? 0
              then (if negb (rk_ret rp =? 0) then WH_SHE_ERC_KEY_NOT_AVAILABLE else 0)
              else ret1 in
  let meta1 := if p_ok then rk_meta rp else stk_meta stk in
  let kdfInput2 := if p_ok
                   then memcpy kdfInput1 (rk_key rp) (Z.of_nat (length (rk_key rp)))
                   else kdfInput1 in
  (* extend PRNG_SEED *)
  let k2 := AesMp16 server kdfInput2 (WOLFHSM_SHE_KEY_SZ + 16)
                    (sub 0 WOLFHSM_SHE_KEY_SZ kdfInput2) in
  let ret3 := if ret2 =? 0 then fst k2 else ret2 in
  let kdfInput3 := if ret2 =? 0 then upd 0 (snd k2) kdfInput2 else kdfInput2 in
  (* save PRNG_SEED *)
  let meta2 := mkMeta (she_keyid server WOLFHSM_SHE_PRNG_SEED_ID) WOLFHSM_SHE_KEY_SZ
                      (she_flags meta1) (she_count meta1) in
  let wa := wh_Nvm_AddObject (nvm server) meta2 (meta_len meta2)
                             (sub 0 WOLFHSM_SHE_KEY_SZ kdfInput3) in
  let ret4 := if ret3 =? 0
              then (if negb (fst wa =? 0) then WH_SHE_ERC_KEY_UPDATE_ERROR else 0)
              else ret3 in
  let nvm1 := if ret3 =? 0 then snd wa else nvm server in
  mkResult ret4
    (mkGlobals prng (WOLFHSM_SHE_PRNG_KEY g) (hsmSheSbState g)
       (hsmSheCmacKeyFound g) (hsmSheRamKeyPlain g) (hsmSheUidSet g)
       (hsmSheBlSize g) (hsmSheBlSizeReceived g) (hsmSheRndInited g) (sheCmac g))
    (set_server_nvm server nvm1)
    (if ret4 =? 0
     then set_body packet (upd 0 (store32 WOLFHSM_SHE_ERC_NO_ERROR) (body packet))
     else packet)
    (if ret4 =? 0 then u16 (WOLFHSM_PACKET_STUB_SIZE + sizeof_sheExtendSeedRes)
     else size).

(** The four bulk-cipher handlers differ in the struct sizes that place
    [in] and [out] behind the fixed fields and in the provider call.
    [run key b] is that call on the key and the body. *)
Definition she_bulk (g : sheGlobals) (server : whServerContext)
    (packet : whPacket) (size : Z) (stk : sheStack)
    (sizeof_req sizeof_res : Z)
    (run : bytes -> bytes -> Z -> Z * bytes) : sheResult :=
  let b0 := body packet in
  (* only process a multiple of block size *)
  let sz := load32 (sub 0 4 b0) in
  let field := u32 (sz - sz mod AES_BLOCK_SIZE) in
  (* load the key *)
  let rd := read_key server (byte_at b0 offsetof_keyId) WOLFHSM_SHE_KEY_SZ in
  let found := rk_ret rd =? 0 in
  let keySz := if found then Z.of_nat (length (rk_key rd)) else WOLFHSM_SHE_KEY_SZ in
  let tmpKey := if found then memcpy (stk_key stk) (rk_key rd) keySz else stk_key stk in
  let ret1 := if found then wc_AesInit else WH_SHE_ERC_KEY_NOT_AVAILABLE in
  let ret2 := if ret1 =? 0 then wc_AesSetKey tmpKey keySz else ret1 in
  let r := run (sub 0 keySz tmpKey) b0 field in
  let ret3 := if ret2 =? 0 then fst r else ret2 in
  let b1 := if ret2 =? 0 then upd sizeof_res (snd r) b0 else b0 in
  mkResult ret3 g server
    (if ret3 =? 0 then set_body packet (upd 0 (store32 field) b1)
     else set_body packet b1)
    (if ret3 =? 0 then u16 (WOLFHSM_PACKET_STUB_SIZE + sizeof_res + field)
     else size).

Definition hsmSheEncEcb (g : sheGlobals) (server : whServerContext)
    (packet : whPacket) (size : Z) (stk : sheStack) : sheResult :=
  she_bulk g server packet size stk sizeof_sheEncEcbReq sizeof_sheEncEcbRes
    (fun key b field => wc_AesEcbEncrypt key (sub sizeof_sheEncEcbReq field b)).

Definition hsmSheEncCbc (g : sheGlobals) (server : whServerContext)
    (packet : whPacket) (size : Z) (stk : sheStack) : sheResult :=
  she_bulk g server packet size stk sizeof_sheEncCbcReq sizeof_sheEncCbcRes
    (fun key b field =>
       wc_AesCbcEncrypt key (sub offsetof_iv WOLFHSM_SHE_KEY_SZ b)
                        (sub sizeof_sheEncCbcReq field b)).

Definition hsmSheDecEcb (g : sheGlobals) (server : whServerContext)
    (packet : whPacket) (size : Z) (stk : sheStack) : sheResult :=
  she_bulk g server packet size stk sizeof_sheDecEcbReq sizeof_sheDecEcbRes
    (fun key b field => wc_AesEcbDecrypt key (sub sizeof_sheDecEcbReq field b)).

Definition hsmSheDecCbc (g : sheGlobals) (server : whServerContext)
    (packet : whPacket) (size : Z) (stk : sheStack) : sheResult :=
  she_bulk g server packet size stk sizeof_sheDecCbcReq sizeof_sheDecCbcRes
    (fun key b field =>
       wc_AesCbcDecrypt key (sub offsetof_iv WOLFHSM_SHE_KEY_SZ b)
                        (sub sizeof_sheDecCbcReq field b)).

(** *** The dispatcher *)

(** The sequencing gate at the head of [wh_Server_HandleSheRequest]. *)
Definition she_gate_blocks (g : sheGlobals) (action : Z) : bool :=
  (negb (hsmSheSbState g =? WOLFHSM_SHE_SB_SUCCESS)
   && (negb (action =? WOLFHSM_SHE_SECURE_BOOT_INIT)
       && negb (action =? WOLFHSM_SHE_SECURE_BOOT_UPDATE)
       && negb (action =? WOLFHSM_SHE_SECURE_BOOT_FINISH)
       && negb (action =? WOLFHSM_SHE_GET_STATUS)
       && negb (action =? WH_SHE_SET_UID)))
  || (negb (action =? WH_SHE_SET_UID) && (hsmSheUidSet g =? 0)).

(** The [switch]; the [default] label leaves everything as it is and
    yields [WH_ERROR_BADARGS]. *)
Definition she_switch (g : sheGlobals) (server : whServerContext)
    (action : Z) (packet : whPacket) (size : Z) (stk : sheStack) : sheResult :=
  if action =? WH_SHE_SET_UID then hsmSheSetUid g server packet size
  else if action =? WH_SHE_SECURE_BOOT_INIT then hsmSheSecureBootInit g server packet size stk
  else if action =? WH_SHE_SECURE_BOOT_UPDATE then hsmSheSecureBootUpdate g server packet size
  else if action =? WH_SHE_SECURE_BOOT_FINISH then hsmSheSecureBootFinish g server packet size stk
  else if action =? WH_SHE_GET_STATUS then hsmSheGetStatus g server packet size
  else if action =? WH_SHE_LOAD_KEY then hsmSheLoadKey g server packet size stk
  else if action =? WH_SHE_LOAD_PLAIN_KEY then hsmSheLoadPlainKey g server packet size
  else if action =? WH_SHE_EXPORT_RAM_KEY then hsmSheExportRamKey g server packet size stk
  else if action =? WH_SHE_INIT_RND then hsmSheInitRnd g server packet size stk
  else if action =? WH_SHE_RND then hsmSheRnd g server packet size
  else if action =? WH_SHE_EXTEND_SEED then hsmSheExtendSeed g server packet size stk
  else if action =? WH_SHE_ENC_ECB then hsmSheEncEcb g server packet size stk
  else if action =? WH_SHE_ENC_CBC then hsmSheEncCbc g server packet size stk
  else if action =? WH_SHE_DEC_ECB then hsmSheDecEcb g server packet size stk
  else if action =? WH_SHE_DEC_CBC then hsmSheDecCbc g server packet size stk
  else mkResult WH_ERROR_BADARGS g server packet size.

(** The codes a handler may set itself; any other nonzero result
    becomes [WH_SHE_ERC_GENERAL_ERROR]. *)
Definition she_specific_error (ret : Z) : bool :=
  (ret =? WH_SHE_ERC_SEQUENCE_ERROR) || (ret =? WH_SHE_ERC_KEY_NOT_AVAILABLE)
  || (ret =? WH_SHE_ERC_KEY_INVALID) || (ret =? WH_SHE_ERC_KEY_EMPTY)
  || (ret =? WH_SHE_ERC_NO_SECURE_BOOT) || (ret =? WH_SHE_ERC_WRITE_PROTECTED)
  || (ret =? WH_SHE_ERC_KEY_UPDATE_ERROR) || (ret =? WH_SHE_ERC_RNG_SEED)
  || (ret =? WH_SHE_ERC_NO_DEBUGGING) || (ret =? WH_SHE_ERC_BUSY)
  || (ret =? WH_SHE_ERC_MEMORY_FAILURE).

Definition she_is_secure_boot (action : Z) : bool :=
  (action =? WH_SHE_SECURE_BOOT_INIT) || (action =? WH_SHE_SECURE_BOOT_UPDATE)
  || (action =? WH_SHE_SECURE_BOOT_FINISH).

(** [hsmSheSbState = INIT; hsmSheBlSize = 0; hsmSheBlSizeReceived = 0;
    hsmSheCmacKeyFound = 0;] *)
Definition she_reset (g : sheGlobals) : sheGlobals :=
  mkGlobals (hsmShePrngState g) (WOLFHSM_SHE_PRNG_KEY g) WOLFHSM_SHE_SB_INIT
    0 (hsmSheRamKeyPlain g) (hsmSheUidSet g) 0 0 (hsmSheRndInited g) (sheCmac g).

(** What [wh_Server_HandleSheRequest] returns and leaves behind. *)
Record sheOutcome := mkOutcome {
  out_ret : Z;
  out_glob : sheGlobals;
  out_server : option whServerContext;
  out_data : option whPacket;
  out_size : option Z
}.

(** [action] is a [uint16_t]; [server], [data] and [size] are pointers.
    [packet->rc] receives the [int] value [ret]. *)
Definition wh_Server_HandleSheRequest (g : sheGlobals)
    (server : option whServerContext) (action : Z)
    (data : option whPacket) (size : option Z) (stk : sheStack) : sheOutcome :=
  match server, data, size with
  | Some srv, Some packet, Some sz =>
      if she_gate_blocks g action
      then mkOutcome 0 g server
             (Some (set_rc packet WH_SHE_ERC_SEQUENCE_ERROR))
             (Some (u16 (WOLFHSM_PACKET_STUB_SIZE + sizeof_rc)))
      else
        let r := she_switch g srv action packet sz stk in
        (* if a handler didn't set a specific error, set general error *)
        let ret := if negb (res_ret r =? 0) && negb (she_specific_error (res_ret r))
                   then WH_SHE_ERC_GENERAL_ERROR else res_ret r in
        let size' := if negb (res_ret r =? 0)
                     then u16 (WOLFHSM_PACKET_STUB_SIZE + sizeof_rc)
                     else res_size r in
        (* reset our SHE state *)
        let g' := if she_is_secure_boot action && negb (ret =? 0)
                     && negb (ret =? WH_SHE_ERC_NO_SECURE_BOOT)
                  then she_reset (res_glob r) else res_glob r in
        mkOutcome 0 g' (Some (res_server r))
          (Some (set_rc (res_packet r) ret)) (Some size')
  | _, _, _ => mkOutcome WH_ERROR_BADARGS g server data size
  end.

End She.

(** ** Specification-level definitions *)

Section Specs.
Context `{CFG : whConfig} `{LAY : whPacketLayout} `{CP : CryptoProvider}
        `{KS : Keystore}.

(** [AES_Encrypt(key, plaintext)]: the block the provider's single-block
    encryption writes. *)
Definition AES_Encrypt (key block : bytes) : bytes :=
  snd (wc_AesEncryptDirect key block).

(** AES-MP16 as the specification words it: zero-pad the input to a
    multiple of 16 bytes, start from [H_0 = 0^128], and for each block
    [B_i] let [H_i = AES_Encrypt(H_{i-1}, B_i) XOR B_i XOR H_{i-1}]. *)
Definition mp16_pad (m : bytes) : bytes :=
  m ++ repeat 0 ((16 - length m mod 16) mod 16)%nat.

Fixpoint mp16_blocks (n : nat) (m : bytes) : list bytes :=
  match n with
  | O => []
  | S n' => firstn 16 m :: mp16_blocks n' (skipn 16 m)
  end.

Definition mp16_compress (H B : bytes) : bytes :=
  xor_bytes (xor_bytes (AES_Encrypt H B) B) H.

Definition AES_MP16 (m : bytes) : bytes :=
  fold_left mp16_compress
            (mp16_blocks (length (mp16_pad m) / 16)%nat (mp16_pad m))
            zero_block.

(** The provider calls [wh_AesMp16] makes all succeed, and single-block
    encryption writes a block. *)
Definition aes_direct_ok : Prop :=
  wc_AesInit = 0
  /\ (forall key, wc_AesSetKeyDirect key AES_BLOCK_SIZE = 0)
  /\ (forall key block, fst (wc_AesEncryptDirect key block) = 0)
  /\ (forall key block, length (snd (wc_AesEncryptDirect key block)) = 16%nat).

(** The states of the engine: the one the process starts in, and those
    the dispatcher leaves behind, whatever it was called with. *)
Inductive she_reachable : sheGlobals -> Prop :=
  | she_reachable_init : she_reachable sheGlobals_init
  | she_reachable_step g server action data size stk :
      she_reachable g ->
      she_reachable
        (out_glob (wh_Server_HandleSheRequest g server action data size stk)).

(** The code the dispatcher stores in [rc] for a handler result. *)
Definition she_final_ret (ret : Z) : Z :=
  if negb (ret =? 0) && negb (she_specific_error ret)
  then WH_SHE_ERC_GENERAL_ERROR else ret.

(** What holds of the secure-boot variables between two calls of the
    dispatcher. *)
Definition she_boot_inv (g : sheGlobals) : Prop :=
  hsmSheBlSizeReceived g <= hsmSheBlSize g
  /\ (hsmSheSbState g = WOLFHSM_SHE_SB_INIT -> hsmSheBlSizeReceived g = 0)
  /\ (hsmSheUidSet g = 0 ->
      hsmSheSbState g = WOLFHSM_SHE_SB_INIT
      /\ hsmSheBlSize g = 0 /\ hsmSheCmacKeyFound g = 0).

(** The response code of a request: [packet->rc] after the call. *)
Definition response_rc (o : sheOutcome) : option Z :=
  match out_data o with
  | Some p => Some (rc p)
  | None => None
  end.

End Specs.

(** ** A configuration to run the model on

    Concrete values for the header constants, a stand-in cipher and a
    keystore held in a finite map, for evaluating the handlers on
    concrete requests. *)

Definition sample_config (be : bool) : whConfig := {|
  big_endian_host := be;
  WH_ERROR_BADARGS := -400;
  WH_ERROR_NOTREADY := -401;
  WH_ERROR_NOTFOUND := -414;
  WH_SHE_ERC_SEQUENCE_ERROR := -500;
  WH_SHE_ERC_KEY_NOT_AVAILABLE := -501;
  WH_SHE_ERC_KEY_INVALID := -502;
  WH_SHE_ERC_KEY_EMPTY := -503;
  WH_SHE_ERC_NO_SECURE_BOOT := -504;
  WH_SHE_ERC_WRITE_PROTECTED := -505;
  WH_SHE_ERC_KEY_UPDATE_ERROR := -506;
  WH_SHE_ERC_RNG_SEED := -507;
  WH_SHE_ERC_NO_DEBUGGING := -508;
  WH_SHE_ERC_BUSY := -509;
  WH_SHE_ERC_MEMORY_FAILURE := -510;
  WH_SHE_ERC_GENERAL_ERROR := -511;
  WOLFHSM_SHE_ERC_NO_ERROR := 0;
  WH_SHE_SET_UID := 0;
  WH_SHE_SECURE_BOOT_INIT := 1;
  WH_SHE_SECURE_BOOT_UPDATE := 2;
  WH_SHE_SECURE_BOOT_FINISH := 3;
  WH_SHE_GET_STATUS := 4;
  WH_SHE_LOAD_KEY := 5;
  WH_SHE_LOAD_PLAIN_KEY := 6;
  WH_SHE_EXPORT_RAM_KEY := 7;
  WH_SHE_INIT_RND := 8;
  WH_SHE_RND := 9;
  WH_SHE_EXTEND_SEED := 10;
  WH_SHE_ENC_ECB := 11;
  WH_SHE_ENC_CBC := 12;
  WH_SHE_DEC_ECB := 13;
  WH_SHE_DEC_CBC := 14;
  WOLFHSM_SHE_SECURE_BOOT_INIT := 1;
  WOLFHSM_SHE_SECURE_BOOT_UPDATE := 2;
  WOLFHSM_SHE_SECURE_BOOT_FINISH := 3;
  WOLFHSM_SHE_GET_STATUS := 4;
  MAKE_WOLFHSM_KEYID := fun type user id =>
    Z.lor (Z.lor (Z.shiftl type 12) (Z.shiftl user 8)) id;
  WOLFHSM_KEYID_MASK := 0xff;
  WOLFHSM_KEYTYPE_SHE := 3;
  WOLFHSM_SHE_SECRET_KEY_ID := 0;
  WOLFHSM_SHE_BOOT_MAC_KEY_ID := 2;
  WOLFHSM_SHE_BOOT_MAC := 3;
  WOLFHSM_SHE_RAM_KEY_ID := 14;
  WOLFHSM_SHE_PRNG_SEED_ID := 15;
  WOLFHSM_SHE_FLAG_WRITE_PROTECT := 0x01;
  WOLFHSM_SHE_FLAG_WILDCARD := 0x10;
  WOLFHSM_SHE_SREG_SECURE_BOOT := 0x02;
  WOLFHSM_SHE_SREG_BOOT_FINISHED := 0x08;
  WOLFHSM_SHE_SREG_BOOT_OK := 0x10;
  WOLFHSM_SHE_SREG_RND_INIT := 0x20;
  WOLFHSM_PACKET_STUB_SIZE := 8
|}.

(** The sample configuration on a big-endian host. *)
Definition sample_be : whConfig := sample_config true.
Definition sample_le : whConfig := sample_config false.

Definition sample_layout : whPacketLayout := {|
  sizeof_rc := 4;
  sizeof_sheSecureBootInitRes := 8;
  sizeof_sheSecureBootUpdateReq := 8;
  sizeof_sheSecureBootUpdateRes := 8;
  sizeof_sheSecureBootFinishRes := 8;
  sizeof_sheGetStatusRes := 8;
  sizeof_sheInitRngRes := 8;
  sizeof_sheExtendSeedRes := 8;
  sizeof_sheEncEcbReq := 8;
  sizeof_sheEncEcbRes := 8;
  sizeof_sheEncCbcReq := 24;
  sizeof_sheEncCbcRes := 8;
  sizeof_sheDecEcbReq := 8;
  sizeof_sheDecEcbRes := 8;
  sizeof_sheDecCbcReq := 24;
  sizeof_sheDecCbcRes := 8;
  offsetof_keyId := 4;
  offsetof_iv := 5
|}.

(** The stand-in cipher: a keyed byte-wise permutation of the block.
    It has the shape of a block cipher (16 bytes in, 16 bytes out,
    invertible under the key) and none of its strength. *)
Definition block16 (b : bytes) : bytes := firstn 16 (b ++ zero_block).

Definition toy_encrypt (key block : bytes) : bytes :=
  map (fun x => (x + 1) mod 256) (xor_bytes (block16 key) (block16 block)).

Definition toy_decrypt (key block : bytes) : bytes :=
  xor_bytes (map (fun x => (x - 1) mod 256) (block16 block)) (block16 key).

Fixpoint toy_ecb (f : bytes -> bytes -> bytes) (n : nat) (key data : bytes) : bytes :=
  match n with
  | O => []
  | S n' => f key (firstn 16 data) ++ toy_ecb f n' key (skipn 16 data)
  end.

Fixpoint toy_cbc_encrypt (n : nat) (key iv data : bytes) : bytes :=
  match n with
  | O => []
  | S n' =>
      let c := toy_encrypt key (xor_bytes (block16 iv) (block16 (firstn 16 data))) in
      c ++ toy_cbc_encrypt n' key c (skipn 16 data)
  end.

Fixpoint toy_cbc_decrypt (n : nat) (key iv data : bytes) : bytes :=
  match n with
  | O => []
  | S n' =>
      let c := block16 (firstn 16 data) in
      xor_bytes (toy_decrypt key c) (block16 iv)
      ++ toy_cbc_decrypt n' key c (skipn 16 data)
  end.

Fixpoint toy_mac_fold (n : nat) (key acc data : bytes) : bytes :=
  match n with
  | O => acc
  | S n' =>
      toy_mac_fold n' key
        (toy_encrypt key (xor_bytes acc (block16 (firstn 16 data))))
        (skipn 16 data)
  end.

Definition toy_mac (key data : bytes) : bytes :=
  toy_mac_fold (S (length data / 16)) key zero_block data.

Definition toy_crypto : CryptoProvider := {|
  wc_AesInit := 0;
  wc_AesSetKey := fun _ _ => 0;
  wc_AesSetKeyDirect := fun _ _ => 0;
  wc_AesEncryptDirect := fun key block => (0, toy_encrypt key block);
  wc_AesCbcEncrypt := fun key iv data =>
    (0, toy_cbc_encrypt (length data / 16) key iv data);
  wc_AesCbcDecrypt := fun key iv data =>
    (0, toy_cbc_decrypt (length data / 16) key iv data);
  wc_AesEcbEncrypt := fun key data =>
    (0, toy_ecb toy_encrypt (length data / 16) key data);
  wc_AesEcbDecrypt := fun key data =>
    (0, toy_ecb toy_decrypt (length data / 16) key data);
  wc_InitCmac_ex := fun _ _ => 0;
  wc_CmacUpdate := fun _ _ => 0;
  wc_CmacFinal := fun c => (0, toy_mac (cmac_key c) (cmac_msg c), 16)
|}.

(** A keystore in one finite map from key identifiers to metadata and
    key bytes; both writers insert, a read looks the identifier up. *)
Definition map_store `{CFG : whConfig} : Keystore := {|
  whNvm := gmap Z (whNvmMetadata * bytes);
  hsmReadKey := fun st id cap =>
    match st !! id with
    | Some (m, k) => (0, m, k)
    | None => (WH_ERROR_NOTFOUND, mkMeta 0 0 0 0, [])
    end;
  hsmCacheKey := fun st m k => (0, <[meta_id m := (m, k)]> st);
  wh_Nvm_AddObject := fun st m _ k => (0, <[meta_id m := (m, k)]> st)
|}.

Definition sample_stack : sheStack :=
  mkStack (mkMeta 0 0 0 0) (repeat 0 32%nat) (repeat 0 16%nat).

(** A keystore with the authorising key in slot 1 and, when [target] is
    given, a 16-byte key with those flags and that counter in slot 4;
    a server with client id 0 over a keystore. *)
Definition sample_keyid (slot : Z) : Z :=
  @MAKE_WOLFHSM_KEYID (sample_config true) 3 0 slot.

Definition sample_auth_key : bytes :=
  [0xA0; 0xA1; 0xA2; 0xA3; 0xA4; 0xA5; 0xA6; 0xA7;
   0xA8; 0xA9; 0xAA; 0xAB; 0xAC; 0xAD; 0xAE; 0xAF].

Definition sample_store (target : option (Z * Z)) : gmap Z (whNvmMetadata * bytes) :=
  let auth := <[sample_keyid 1 := (mkMeta (sample_keyid 1) 16 0 0, sample_auth_key)]> ∅ in
  match target with
  | Some (flags, count) =>
      <[sample_keyid 4 := (mkMeta (sample_keyid 4) 16 flags count,
                           repeat 0x22 16%nat)]> auth
  | None => auth
  end.

Definition sample_server (be : bool) (st : gmap Z (whNvmMetadata * bytes))
    (uid : bytes) : @whServerContext (@map_store (sample_config be)) :=
  @mkServer (@map_store (sample_config be)) uid 0 st.

Definition sample_uid : bytes :=
  [0x00; 0x11; 0x22; 0x33; 0x44; 0x55; 0x66; 0x77;
   0x88; 0x99; 0xAA; 0xBB; 0xCC; 0xDD; 0xEE].

(** LOAD_KEY requests M1 | M2 | M3 for slot 4 authorised by slot 1,
    encrypted and authenticated with the stand-in cipher under
    [sample_auth_key].  The first three carry [sample_uid] in M1; their
    M2 decrypts to the words [00 00 00 10], [00 00 00 20] and
    [00 00 00 1F] (counters 1, 2 and 1), each followed by a new key. *)
Definition request_counter_1 : bytes :=
  [0; 17; 34; 51; 68; 85; 102; 119; 136; 153; 170; 187; 204; 221; 238; 65;
   2; 2; 2; 16; 2; 8; 4; 32; 4; 8; 4; 16; 4; 8; 4; 32;
   49; 49; 49; 61; 49; 61; 53; 13; 53; 61; 53; 45; 53; 61; 53; 13;
   51; 34; 25; 30; 119; 112; 87; 90; 185; 172; 155; 134; 237; 248; 223; 108].

Definition request_counter_2 : bytes :=
  [0; 17; 34; 51; 68; 85; 102; 119; 136; 153; 170; 187; 204; 221; 238; 65;
   2; 2; 2; 64; 2; 8; 4; 32; 4; 8; 4; 16; 4; 8; 4; 32;
   49; 49; 49; 109; 49; 61; 53; 13; 53; 61; 53; 45; 53; 61; 53; 13;
   51; 34; 25; 30; 119; 112; 87; 90; 185; 172; 155; 134; 237; 248; 223; 108].

Definition request_counter_1_flags : bytes :=
  [0; 17; 34; 51; 68; 85; 102; 119; 136; 153; 170; 187; 204; 221; 238; 65;
   2; 2; 2; 1; 2; 8; 4; 32; 4; 8; 4; 16; 4; 8; 4; 32;
   72; 72; 72; 91; 72; 76; 68; 124; 68; 76; 68; 92; 68; 76; 68; 124;
   78; 91; 100; 111; 18; 17; 38; 43; 208; 221; 234; 247; 164; 153; 174; 29].

(** The same as [request_counter_1], with the UID bytes
    [01 00 00 00 00 00 00 00 00 00 00 00 00 00 00] in M1. *)
Definition request_uid_first_byte : bytes :=
  [1; 0; 0; 0; 0; 0; 0; 0; 0; 0; 0; 0; 0; 0; 0; 65;
   2; 2; 2; 16; 2; 8; 4; 32; 4; 8; 4; 16; 4; 8; 4; 32;
   49; 49; 49; 61; 49; 61; 53; 13; 53; 61; 53; 45; 53; 61; 53; 13;
   54; 55; 51; 13; 51; 53; 49; 45; 49; 53; 49; 61; 49; 53; 49; 108].

(** The engine once the UID is set and secure boot has succeeded; the
    same with the PRNG initialised; and in the middle of a secure boot,
    the whole 4-byte image [de ad be ef] hashed. *)
Definition sheGlobals_booted : sheGlobals :=
  mkGlobals zero_block zero_block WOLFHSM_SHE_SB_SUCCESS 0 0 1 0 0 0 (mkCmac [] []).

Definition sheGlobals_rnd : sheGlobals :=
  mkGlobals (repeat 0x5A 16%nat) sample_auth_key WOLFHSM_SHE_SB_SUCCESS
            0 0 1 0 0 1 (mkCmac [] []).

Definition sample_boot_key : bytes := repeat 0x4B 16%nat.

Definition sheGlobals_finish : sheGlobals :=
  mkGlobals zero_block zero_block WOLFHSM_SHE_SB_FINISH 1 0 1 4 4 0
            (mkCmac sample_boot_key
                    (repeat 0 12%nat ++ [0; 0; 0; 4] ++ [0xde; 0xad; 0xbe; 0xef])).

(** A keystore with [BOOT_MAC_KEY] in slot 2 and, when given, the
    [BOOT_MAC] digest in slot 3. *)
Definition sample_boot_store (digest : option bytes) : gmap Z (whNvmMetadata * bytes) :=
  let key := <[sample_keyid 2 := (mkMeta (sample_keyid 2) 16 0 0, sample_boot_key)]> ∅ in
  match digest with
  | Some d => <[sample_keyid 3 := (mkMeta (sample_keyid 3) 16 0 0, d)]> key
  | None => key
  end.

(** A keystore with the secret key in slot 0 and a PRNG seed in slot
    15. *)
Definition sample_rng_store : gmap Z (whNvmMetadata * bytes) :=
  <[sample_keyid 0 := (mkMeta (sample_keyid 0) 16 0 0, sample_auth_key)]>
    (<[sample_keyid 15 := (mkMeta (sample_keyid 15) 16 0 0,
                           repeat 0x5E 16%nat)]> ∅).

(** The CMAC of the stand-in cipher over the boot prefix, the size and
    the image. *)
Definition sample_boot_mac : bytes :=
  toy_mac sample_boot_key
          (repeat 0 12%nat ++ [0; 0; 0; 4] ++ [0xde; 0xad; 0xbe; 0xef]).

(** The packets of a secure boot of that image: SET_UID,
    SECURE_BOOT_INIT with [sz = 4], SECURE_BOOT_UPDATE with the four
    bytes, SECURE_BOOT_FINISH. *)
Definition packet_set_uid : whPacket := mkPacket 0 (sample_uid ++ [0]).
Definition packet_boot_init : whPacket := mkPacket 0 [0; 0; 0; 4; 0; 0; 0; 0].
Definition packet_boot_update : whPacket :=
  mkPacket 0 ([0; 0; 0; 4; 0; 0; 0; 0] ++ [0xde; 0xad; 0xbe; 0xef]).
Definition packet_boot_finish : whPacket := mkPacket 0 (repeat 0 8%nat).

(** Two more SECURE_BOOT_UPDATE packets: the first byte of the image
    alone, and a request whose [sz] field is [ff ff ff ff]. *)
Definition packet_boot_update_1 : whPacket :=
  mkPacket 0 ([0; 0; 0; 1; 0; 0; 0; 0] ++ [0xde]).
Definition packet_boot_update_wrap : whPacket :=
  mkPacket 0 ([0xff; 0xff; 0xff; 0xff; 0; 0; 0; 0] ++ [0xad; 0xbe; 0xef]).

(** An initialised transport over two cleared 24-byte buffers. *)
Definition sample_context : whTransportMemContext := mkTCtx 24 24 1.
Definition sample_shm : whShm :=
  mkShm csr_zero (repeat 0 16%nat) csr_zero (repeat 0 16%nat).

(** The same buffers with a request outstanding: the client has sent
    [de ad be ef] and the server has not answered yet. *)
Definition sample_shm_pending : whShm :=
  mkShm (mkCsr 1 4 0 0) ([0xde; 0xad; 0xbe; 0xef] ++ repeat 0 12%nat)
        csr_zero (repeat 0 16%nat).


(** ** States of the engine between two requests *)

(** A flag variable holds 0 or 1. *)
Definition she_flag (x : Z) : Prop := x = 0 \/ x = 1.

(** [x] is the flag [d] as it was, or has been set. *)
Definition kept_or_set (d x : Z) : Prop := x = d \/ x = 1.

(** What the file-scope variables can hold when the dispatcher is not
    running: flags are 0 or 1, the two sizes are 32-bit values, and the
    secure-boot state is INIT with nothing received, UPDATE with the
    key found and no more received than announced, FINISH with the key
    found and the whole image received, or SUCCESS, reached either
    without a key or with the whole image received.  FAILURE is not
    among them. *)
Definition she_wf (g : sheGlobals) : Prop :=
  she_flag (hsmSheUidSet g) /\ she_flag (hsmSheCmacKeyFound g)
  /\ she_flag (hsmSheRamKeyPlain g) /\ she_flag (hsmSheRndInited g)
  /\ 0 <= hsmSheBlSize g < 4294967296
  /\ 0 <= hsmSheBlSizeReceived g < 4294967296
  /\ ((hsmSheSbState g = WOLFHSM_SHE_SB_INIT /\ hsmSheBlSizeReceived g = 0)
      \/ (hsmSheSbState g = WOLFHSM_SHE_SB_UPDATE
          /\ hsmSheCmacKeyFound g = 1
          /\ hsmSheBlSizeReceived g <= hsmSheBlSize g)
      \/ (hsmSheSbState g = WOLFHSM_SHE_SB_FINISH
          /\ hsmSheCmacKeyFound g = 1
          /\ hsmSheBlSizeReceived g = hsmSheBlSize g)
      \/ (hsmSheSbState g = WOLFHSM_SHE_SB_SUCCESS
          /\ (hsmSheCmacKeyFound g = 0
              \/ hsmSheBlSizeReceived g = hsmSheBlSize g))).

(** ** Response codes *)

(** The codes the dispatcher may store in [packet->rc]: success, the
    eleven codes it passes on from a handler, and the general error. *)
Definition she_response_codes `{CFG : whConfig} : list Z :=
  [ 0; WH_SHE_ERC_SEQUENCE_ERROR; WH_SHE_ERC_KEY_NOT_AVAILABLE;
    WH_SHE_ERC_KEY_INVALID; WH_SHE_ERC_KEY_EMPTY; WH_SHE_ERC_NO_SECURE_BOOT;
    WH_SHE_ERC_WRITE_PROTECTED; WH_SHE_ERC_KEY_UPDATE_ERROR;
    WH_SHE_ERC_RNG_SEED; WH_SHE_ERC_NO_DEBUGGING; WH_SHE_ERC_BUSY;
    WH_SHE_ERC_MEMORY_FAILURE; WH_SHE_ERC_GENERAL_ERROR ].

(** ** The status register *)

(** [c] is one bit of a byte. *)
Definition single_bit (c : Z) : bool :=
  (0 <? c) && (c <? 256) && (c =? 2 ^ Z.log2 c).

(** The four bits [hsmSheGetStatus] sets are distinct bits of the status
    byte, as the bits of the SHE status register are. *)
Definition sreg_bits_ok `{CFG : whConfig} : bool :=
  single_bit WOLFHSM_SHE_SREG_SECURE_BOOT
  && single_bit WOLFHSM_SHE_SREG_BOOT_FINISHED
  && single_bit WOLFHSM_SHE_SREG_BOOT_OK
  && single_bit WOLFHSM_SHE_SREG_RND_INIT
  && distinctb [ WOLFHSM_SHE_SREG_SECURE_BOOT; WOLFHSM_SHE_SREG_BOOT_FINISHED;
                 WOLFHSM_SHE_SREG_BOOT_OK; WOLFHSM_SHE_SREG_RND_INIT ].

(** ** Sequences of requests *)

Section Runs.
Context `{CFG : whConfig} `{LAY : whPacketLayout} `{CP : CryptoProvider}
        `{KS : Keystore}.

(** A SECURE_BOOT_UPDATE request as a client frames it: the [sz] field,
    the rest of the fixed part of [sheSecureBootUpdateReq], then the
    chunk. *)
Definition boot_update_packet (chunk : bytes) : whPacket :=
  mkPacket 0
    (store32 (Z.of_nat (length chunk))
     ++ repeat 0 (Z.to_nat (sizeof_sheSecureBootUpdateReq - 4))
     ++ chunk).

(** The engine after one SECURE_BOOT_UPDATE request per chunk, in
    order, each sent through the dispatcher. *)
Fixpoint boot_updates (g : sheGlobals) (server : whServerContext)
    (stk : sheStack) (chunks : list bytes) : sheGlobals :=
  match chunks with
  | [] => g
  | c :: rest =>
      boot_updates
        (out_glob
           (wh_Server_HandleSheRequest g (Some server) WH_SHE_SECURE_BOOT_UPDATE
              (Some (boot_update_packet c))
              (Some (u16 (WOLFHSM_PACKET_STUB_SIZE + sizeof_sheSecureBootUpdateReq
                          + Z.of_nat (length c))))
              stk))
        server stk rest
  end.

End Runs.

(** * Properties *)

(** ** Byte buffers *)

Lemma sub_0_firstn (n : Z) (l : bytes) : sub 0 n l = firstn (Z.to_nat n) l.
Proof. reflexivity. Qed.

Lemma sub_0_all (n : Z) (l : bytes) :
  Z.of_nat (length l) = n -> sub 0 n l = l.
Proof.
  intros <-. rewrite sub_0_firstn, Nat2Z.id. apply firstn_all.
Qed.

Lemma length_sub_0 (n : Z) (l : bytes) :
  0 <= n <= Z.of_nat (length l) -> length (sub 0 n l) = Z.to_nat n.
Proof.
  intros Hn. rewrite sub_0_firstn, length_firstn. lia.
Qed.

Lemma sub_0_idem (n : Z) (l : bytes) : sub 0 n (sub 0 n l) = sub 0 n l.
Proof.
  rewrite !sub_0_firstn, firstn_firstn. f_equal. lia.
Qed.

Lemma upd_0 (src dst : bytes) :
  upd 0 src dst = src ++ skipn (length src) dst.
Proof. reflexivity. Qed.

(** The first [n] bytes of a buffer after [memcpy(dst, src, n)] are the
    first [n] bytes of [src]. *)
Lemma sub_0_memcpy (dst src : bytes) (n : Z) :
  0 <= n <= Z.of_nat (length src) ->
  sub 0 n (memcpy dst src n) = sub 0 n src.
Proof.
  intros Hn. unfold memcpy. rewrite upd_0.
  rewrite (sub_0_firstn n (_ ++ _)).
  rewrite firstn_app, length_sub_0 by exact Hn.
  rewrite Nat.sub_diag, firstn_O, app_nil_r.
  apply sub_0_idem.
Qed.

(** [memcpy] within the bounds of [dst] keeps its size. *)
Lemma length_memcpy (dst src : bytes) (n : Z) :
  0 <= n <= Z.of_nat (length src) ->
  n <= Z.of_nat (length dst) ->
  length (memcpy dst src n) = length dst.
Proof.
  intros Hn Hd. unfold memcpy. rewrite upd_0, length_app, length_skipn.
  rewrite length_sub_0 by exact Hn. lia.
Qed.

Lemma u16_succ_neq (n : Z) : u16 (n + 1) <> n.
Proof.
  unfold u16. intros H.
  pose proof (Z.mod_pos_bound (n + 1) 65536 ltac:(lia)) as Hb.
  assert (Hn : 0 <= n < 65536) by lia.
  destruct (Z.eq_dec n 65535) as [->|Hne].
  - vm_compute in H. discriminate.
  - rewrite Z.mod_small in H by lia. lia.
Qed.

(** ** Header constants *)

Lemma distinctb_cons (x : Z) (l : list Z) :
  distinctb (x :: l) = true -> Forall (fun y => x <> y) l /\ distinctb l = true.
Proof.
  simpl. rewrite andb_true_iff, negb_true_iff. intros [Hx Hl]. split; [|exact Hl].
  apply List.Forall_forall. intros y Hy ->.
  assert (existsb (Z.eqb y) l = true) as He.
  { apply existsb_exists. exists y. split; [exact Hy | apply Z.eqb_refl]. }
  congruence.
Qed.

Section ConfigFacts.
Context `{CFG : whConfig}.
Hypothesis OK : config_ok = true.

Lemma config_ok_split :
  distinctb return_codes = true
  /\ WOLFHSM_SHE_ERC_NO_ERROR = 0
  /\ distinctb she_actions = true
  /\ WOLFHSM_SHE_SECURE_BOOT_INIT = WH_SHE_SECURE_BOOT_INIT
  /\ WOLFHSM_SHE_SECURE_BOOT_UPDATE = WH_SHE_SECURE_BOOT_UPDATE
  /\ WOLFHSM_SHE_SECURE_BOOT_FINISH = WH_SHE_SECURE_BOOT_FINISH
  /\ WOLFHSM_SHE_GET_STATUS = WH_SHE_GET_STATUS.
Proof using OK.
  pose proof OK as H. unfold config_ok in H.
  rewrite !andb_true_iff, !Z.eqb_eq in H.
  tauto.
Qed.

(** Success is none of the error codes. *)
Lemma codes_nonzero :
  Forall (fun c => 0 <> c) (tl return_codes).
Proof using OK.
  destruct config_ok_split as [Hd _].
  apply distinctb_cons in Hd. exact (proj1 Hd).
Qed.

Lemma codes_nonzero_all :
  WH_ERROR_BADARGS <> 0 /\ WH_ERROR_NOTREADY <> 0 /\ WH_ERROR_NOTFOUND <> 0
  /\ WH_SHE_ERC_SEQUENCE_ERROR <> 0 /\ WH_SHE_ERC_KEY_NOT_AVAILABLE <> 0
  /\ WH_SHE_ERC_NO_SECURE_BOOT <> 0 /\ WH_SHE_ERC_WRITE_PROTECTED <> 0
  /\ WH_SHE_ERC_KEY_UPDATE_ERROR <> 0 /\ WH_SHE_ERC_RNG_SEED <> 0
  /\ WH_SHE_ERC_GENERAL_ERROR <> 0.
Proof using OK.
  pose proof codes_nonzero as H. unfold return_codes in H. simpl in H.
  repeat match goal with
         | H : Forall _ (_ :: _) |- _ => apply Forall_cons_1 in H; destruct H
         end.
  repeat split; congruence.
Qed.

(** [WH_ERROR_BADARGS] is not one of the codes a handler sets itself. *)
Lemma badargs_not_specific : she_specific_error WH_ERROR_BADARGS = false.
Proof using OK.
  destruct config_ok_split as [Hd _].
  apply distinctb_cons in Hd. destruct Hd as [_ Hd].
  apply distinctb_cons in Hd. destruct Hd as [Hb _].
  simpl in Hb.
  repeat match goal with
         | H : Forall _ (_ :: _) |- _ => apply Forall_cons_1 in H; destruct H
         end.
  unfold she_specific_error.
  repeat match goal with
         | H : WH_ERROR_BADARGS <> ?c |- context [WH_ERROR_BADARGS =? ?c] =>
             rewrite (proj2 (Z.eqb_neq _ _) H)
         end.
  reflexivity.
Qed.

(** The codes the handlers set themselves pass the dispatcher unchanged. *)
Lemma specific_codes :
  she_specific_error WH_SHE_ERC_SEQUENCE_ERROR = true
  /\ she_specific_error WH_SHE_ERC_KEY_NOT_AVAILABLE = true
  /\ she_specific_error WH_SHE_ERC_NO_SECURE_BOOT = true
  /\ she_specific_error WH_SHE_ERC_RNG_SEED = true
  /\ she_specific_error WH_SHE_ERC_KEY_UPDATE_ERROR = true.
Proof.
  unfold she_specific_error. rewrite !Z.eqb_refl, !orb_true_r. simpl. auto.
Qed.

End ConfigFacts.

(** ** Shared-memory transport *)

Section TransportProps.
Context `{CFG : whConfig}.

(** C9.  For an initialised context, [SendRequest] answers [NotReady]
    exactly when [req.notify <> resp.notify], [RecvRequest] exactly when
    [req.notify = resp.notify], [RecvResponse] exactly when
    [resp.notify <> req.notify], and [SendResponse] never does.  A call
    that answers [NotReady] leaves the shared memory (both CSRs, both
    payload regions) and the caller's output objects as they were, so
    the same call made again answers [NotReady] again. *)
Theorem notready_exact_and_idempotent
    (c : whTransportMemContext) (m : whShm) (l : Z)
    (data : option bytes) (out_len : option Z) :
  config_ok = true ->
  initialized c <> 0 ->
  (fst (wh_TransportMem_SendRequest (Some c) m l data) = WH_ERROR_NOTREADY
     <-> notify (req m) <> notify (resp m))
  /\ (fst (fst (wh_TransportMem_RecvRequest (Some c) m out_len data)) = WH_ERROR_NOTREADY
     <-> notify (req m) = notify (resp m))
  /\ (fst (fst (wh_TransportMem_RecvResponse (Some c) m out_len data)) = WH_ERROR_NOTREADY
     <-> notify (resp m) <> notify (req m))
  /\ fst (wh_TransportMem_SendResponse (Some c) m l data) <> WH_ERROR_NOTREADY
  /\ (fst (wh_TransportMem_SendRequest (Some c) m l data) = WH_ERROR_NOTREADY ->
      wh_TransportMem_SendRequest (Some c) m l data = (WH_ERROR_NOTREADY, m)
      /\ wh_TransportMem_SendRequest (Some c)
           (snd (wh_TransportMem_SendRequest (Some c) m l data)) l data
         = (WH_ERROR_NOTREADY, m))
  /\ (fst (fst (wh_TransportMem_RecvRequest (Some c) m out_len data)) = WH_ERROR_NOTREADY ->
      wh_TransportMem_RecvRequest (Some c) m out_len data
      = (WH_ERROR_NOTREADY, out_len, data))
  /\ (fst (fst (wh_TransportMem_RecvResponse (Some c) m out_len data)) = WH_ERROR_NOTREADY ->
      wh_TransportMem_RecvResponse (Some c) m out_len data
      = (WH_ERROR_NOTREADY, out_len, data)).
Proof.
  intros OK Hinit.
  destruct (codes_nonzero_all OK) as [_ [Hnr _]].
  apply Z.eqb_neq in Hinit.
  unfold wh_TransportMem_SendRequest, wh_TransportMem_RecvRequest,
    wh_TransportMem_RecvResponse, wh_TransportMem_SendResponse.
  cbv beta iota. rewrite Hinit.
  destruct (Z.eqb_spec (notify (req m)) (notify (resp m))) as [He|Hne].
  - rewrite <- He, Z.eqb_refl. simpl.
    repeat split; intros; try congruence; try (exfalso; congruence).
  - assert ((notify (resp m) =? notify (req m)) = false) as ->
        by (apply Z.eqb_neq; congruence).
    simpl.
    repeat split; intros; try congruence; try (exfalso; congruence).
    apply Z.eqb_neq in Hne. now rewrite Hne.
Qed.

(** C8.  [SendRequest(len, data)] made in the quiescent state with a
    payload that fits the request region succeeds and leaves a request
    outstanding; the [RecvRequest] that follows succeeds with
    [out_len = len] and the [len] bytes sent.  [SendResponse(len, data)]
    with a payload that fits the response region succeeds whatever the
    two counters hold, with a request outstanding in particular, and
    makes the state quiescent; the [RecvResponse] that follows succeeds
    with [out_len = len] and the [len] bytes sent.  The payload regions
    keep their size. *)
Theorem send_recv_roundtrip
    (client srv : whTransportMemContext) (m : whShm) (l : Z)
    (data buf : bytes) (out_len : Z) :
  initialized client <> 0 ->
  initialized srv <> 0 ->
  0 <= l < 65536 ->
  Z.of_nat (length data) = l ->
  l <= Z.of_nat (length buf) ->
  (notify (req m) = notify (resp m) ->
   l <= Z.of_nat (length (req_data m)) ->
   exists m',
      wh_TransportMem_SendRequest (Some client) m l (Some data) = (0, m')
      /\ notify (req m') <> notify (resp m')
      /\ length (req_data m') = length (req_data m)
      /\ exists buf',
          wh_TransportMem_RecvRequest (Some srv) m' (Some out_len) (Some buf)
          = (0, Some l, Some buf')
          /\ sub 0 l buf' = data)
  /\ (l <= Z.of_nat (length (resp_data m)) ->
      exists m',
      wh_TransportMem_SendResponse (Some srv) m l (Some data) = (0, m')
      /\ notify (resp m') = notify (req m')
      /\ length (resp_data m') = length (resp_data m)
      /\ exists buf',
          wh_TransportMem_RecvResponse (Some client) m' (Some out_len) (Some buf)
          = (0, Some l, Some buf')
          /\ sub 0 l buf' = data).
Proof.
  intros Hc Hs Hl Hd Hbuf.
  apply Z.eqb_neq in Hc, Hs.
  assert (Hcopy : forall region,
             sub 0 l (if negb (l =? 0) then memcpy region data l else region)
             = data \/ l = 0).
  { intros region. destruct (Z.eqb_spec l 0) as [->|Hnz]; [now right|left].
    simpl. rewrite sub_0_memcpy by lia. now apply sub_0_all. }
  assert (Hdata0 : l = 0 -> data = []).
  { intros ->. destruct data; [reflexivity|simpl in Hd; lia]. }
  assert (Hrecv : forall region,
             (sub 0 l region = data \/ l = 0) ->
             sub 0 l (if negb (l =? 0) then memcpy buf region l else buf) = data).
  { intros region [Hr|Hz].
    - destruct (Z.eqb_spec l 0) as [->|Hnz].
      + now rewrite Hdata0.
      + simpl. assert (Z.to_nat l <= length region)%nat.
        { rewrite <- Hr in Hd. rewrite sub_0_firstn, length_firstn in Hd. lia. }
        rewrite sub_0_memcpy by lia. exact Hr.
    - subst l. now rewrite Hdata0. }
  assert (Hlen : forall region,
             l <= Z.of_nat (length region) ->
             length (if negb (l =? 0) then memcpy region data l else region)
             = length region).
  { intros region Hr. destruct (l =? 0); simpl; [reflexivity|].
    apply length_memcpy; lia. }
  split.
  - intros Hq Hreq.
    unfold wh_TransportMem_SendRequest. rewrite Hc, Hq, Z.eqb_refl. simpl.
    eexists. split; [reflexivity|]. simpl.
    split; [apply u16_succ_neq|]. split; [now apply Hlen|].
    unfold wh_TransportMem_RecvRequest. rewrite Hs. simpl.
    assert ((u16 (notify (resp m) + 1) =? notify (resp m)) = false) as ->
        by (apply Z.eqb_neq, u16_succ_neq).
    simpl.
    exists (if negb (l =? 0)
            then memcpy buf (if negb (l =? 0)
                             then memcpy (req_data m) data l else req_data m) l
            else buf).
    split; [now destruct (negb (l =? 0))|]. apply Hrecv, Hcopy.
  - intros Hresp.
    unfold wh_TransportMem_SendResponse. rewrite Hs. simpl.
    eexists. split; [reflexivity|]. simpl.
    split; [reflexivity|]. split; [now apply Hlen|].
    unfold wh_TransportMem_RecvResponse. rewrite Hc. simpl.
    rewrite Z.eqb_refl. simpl.
    exists (if negb (l =? 0)
            then memcpy buf (if negb (l =? 0)
                             then memcpy (resp_data m) data l else resp_data m) l
            else buf).
    split; [now destruct (negb (l =? 0))|]. apply Hrecv, Hcopy.
Qed.

End TransportProps.

(** ** The dispatcher *)

(** The [case] labels are pairwise distinct, so each label selects its
    own handler. *)
Ltac unpack_distinct H :=
  repeat (apply distinctb_cons in H; destruct H as [?Hd H]);
  repeat match goal with
         | Hf : Forall _ (_ :: _) |- _ =>
             apply Forall_cons_1 in Hf; destruct Hf
         end.

Ltac decide_labels :=
  repeat match goal with
         | |- context [?a =? ?c] =>
             first [ rewrite (Z.eqb_refl a)
                   | destruct (Z.eqb_spec a c) as [?E|_]; [congruence|] ]
         end.

Ltac proj_simpl :=
  cbn [res_ret res_glob res_server res_packet res_size
       out_ret out_glob out_server out_data out_size
       hsmShePrngState WOLFHSM_SHE_PRNG_KEY hsmSheSbState hsmSheCmacKeyFound
       hsmSheRamKeyPlain hsmSheUidSet hsmSheBlSize hsmSheBlSizeReceived
       hsmSheRndInited sheCmac rc body set_rc set_body response_rc
       sheUid client_id nvm set_server_nvm set_server_uid].

Section DispatcherProps.
Context `{CFG : whConfig} `{LAY : whPacketLayout} `{CP : CryptoProvider}
        `{KS : Keystore}.

(** An action outside the fifteen labels reaches [default]. *)
Lemma she_switch_default (g : sheGlobals) (server : whServerContext)
    (action : Z) (packet : whPacket) (size : Z) (stk : sheStack) :
  ~ In action she_actions ->
  she_switch g server action packet size stk
  = mkResult WH_ERROR_BADARGS g server packet size.
Proof.
  intros Hnot. unfold she_switch.
  repeat match goal with
         | |- context [action =? ?c] =>
             destruct (Z.eqb_spec action c) as [->|_];
             [exfalso; apply Hnot; unfold she_actions; simpl; tauto|]
         end.
  reflexivity.
Qed.

Lemma she_is_secure_boot_default (action : Z) :
  ~ In action she_actions -> she_is_secure_boot action = false.
Proof.
  intros Hnot. unfold she_is_secure_boot.
  repeat match goal with
         | |- context [action =? ?c] =>
             destruct (Z.eqb_spec action c) as [->|_];
             [exfalso; apply Hnot; unfold she_actions; simpl; tauto|]
         end.
  reflexivity.
Qed.

(** The gate is open exactly for [SET_UID] at any time, for the
    secure-boot and status actions once the UID is set, and for every
    action once the UID is set and secure boot has succeeded. *)
Lemma she_gate_open (g : sheGlobals) (action : Z) :
  hsmSheUidSet g <> 0 ->
  hsmSheSbState g = WOLFHSM_SHE_SB_SUCCESS ->
  she_gate_blocks g action = false.
Proof.
  intros Hu Hs. unfold she_gate_blocks.
  rewrite Hs, Z.eqb_refl. apply Z.eqb_neq in Hu. rewrite Hu.
  simpl. now rewrite andb_false_r.
Qed.

(** A request the gate blocks: 0 is returned, [rc] is [SEQUENCE_ERROR],
    and nothing but [rc] and [*size] has changed. *)
Lemma she_gate_blocked (g : sheGlobals) (server : whServerContext)
    (action : Z) (packet : whPacket) (size : Z) (stk : sheStack) :
  she_gate_blocks g action = true ->
  wh_Server_HandleSheRequest g (Some server) action (Some packet) (Some size) stk
  = mkOutcome 0 g (Some server)
      (Some (mkPacket WH_SHE_ERC_SEQUENCE_ERROR (body packet)))
      (Some (u16 (WOLFHSM_PACKET_STUB_SIZE + sizeof_rc))).
Proof.
  intros G. unfold wh_Server_HandleSheRequest. now rewrite G.
Qed.

(** While the UID is not set the gate blocks every action but
    [SET_UID]. *)
Lemma she_gate_blocks_no_uid (g : sheGlobals) (action : Z) :
  action <> WH_SHE_SET_UID -> hsmSheUidSet g = 0 ->
  she_gate_blocks g action = true.
Proof.
  intros Ha Hu. unfold she_gate_blocks.
  apply Z.eqb_neq in Ha. rewrite Ha, Hu. simpl. apply orb_true_r.
Qed.

(** C2.  For an action other than [SET_UID], [GET_STATUS] and the
    three [SECURE_BOOT_*] actions, while the UID is not set or secure
    boot has not succeeded, the dispatcher returns 0 with
    [SEQUENCE_ERROR] in [rc]; the globals, the server context and the
    packet body are those it was called with, so no handler has run.
    The same holds for every action other than [SET_UID] while the UID
    is not set. *)
Theorem gate_sequence_error (g : sheGlobals) (server : whServerContext)
    (action : Z) (packet : whPacket) (size : Z) (stk : sheStack) :
  config_ok = true ->
  let blocked :=
    mkOutcome 0 g (Some server)
      (Some (mkPacket WH_SHE_ERC_SEQUENCE_ERROR (body packet)))
      (Some (u16 (WOLFHSM_PACKET_STUB_SIZE + sizeof_rc))) in
  (action <> WH_SHE_SET_UID -> action <> WH_SHE_GET_STATUS ->
   action <> WH_SHE_SECURE_BOOT_INIT -> action <> WH_SHE_SECURE_BOOT_UPDATE ->
   action <> WH_SHE_SECURE_BOOT_FINISH ->
   hsmSheUidSet g = 0 \/ hsmSheSbState g <> WOLFHSM_SHE_SB_SUCCESS ->
   wh_Server_HandleSheRequest g (Some server) action (Some packet) (Some size) stk
   = blocked)
  /\ (action <> WH_SHE_SET_UID -> hsmSheUidSet g = 0 ->
      wh_Server_HandleSheRequest g (Some server) action (Some packet) (Some size) stk
      = blocked).
Proof.
  intros OK blocked.
  destruct (config_ok_split OK) as [_ [_ [_ [Ei [Eu [Ef Es]]]]]].
  split.
  - intros Ha Hst Hi Hup Hf [Hu|Hsb]; apply she_gate_blocked.
    + now apply she_gate_blocks_no_uid.
    + unfold she_gate_blocks. rewrite Ei, Eu, Ef, Es.
      apply Z.eqb_neq in Ha, Hst, Hi, Hup, Hf, Hsb.
      now rewrite Ha, Hst, Hi, Hup, Hf, Hsb.
  - intros Ha Hu. apply she_gate_blocked. now apply she_gate_blocks_no_uid.
Qed.

(** C10.  With the gate open, an action outside the fifteen labels makes
    the dispatcher return 0 with [GENERAL_ERROR] in [rc]; the globals
    (UID flag, boot state, PRNG state, flags), the server context and
    the packet body are those it was called with. *)
Theorem unknown_action_general_error (g : sheGlobals)
    (server : whServerContext) (action : Z) (packet : whPacket) (size : Z)
    (stk : sheStack) :
  config_ok = true ->
  ~ In action she_actions ->
  hsmSheUidSet g <> 0 ->
  hsmSheSbState g = WOLFHSM_SHE_SB_SUCCESS ->
  wh_Server_HandleSheRequest g (Some server) action (Some packet) (Some size) stk
  = mkOutcome 0 g (Some server)
      (Some (mkPacket WH_SHE_ERC_GENERAL_ERROR (body packet)))
      (Some (u16 (WOLFHSM_PACKET_STUB_SIZE + sizeof_rc))).
Proof.
  intros OK Hnot Hu Hs.
  destruct (codes_nonzero_all OK) as [Hb _].
  unfold wh_Server_HandleSheRequest.
  rewrite she_gate_open by assumption.
  rewrite she_switch_default, she_is_secure_boot_default by assumption.
  cbn [res_ret res_glob res_server res_packet res_size].
  rewrite (badargs_not_specific OK).
  apply Z.eqb_neq in Hb. rewrite Hb. reflexivity.
Qed.

Lemma she_switch_labels (g : sheGlobals) (server : whServerContext)
    (packet : whPacket) (size : Z) (stk : sheStack) :
  config_ok = true ->
  she_switch g server WH_SHE_SECURE_BOOT_UPDATE packet size stk
    = hsmSheSecureBootUpdate g server packet size
  /\ she_switch g server WH_SHE_SECURE_BOOT_FINISH packet size stk
    = hsmSheSecureBootFinish g server packet size stk
  /\ she_switch g server WH_SHE_RND packet size stk
    = hsmSheRnd g server packet size
  /\ she_switch g server WH_SHE_LOAD_KEY packet size stk
    = hsmSheLoadKey g server packet size stk.
Proof.
  intros OK. destruct (config_ok_split OK) as [_ [_ [Hd _]]].
  unfold she_actions in Hd. unpack_distinct Hd.
  unfold she_switch. repeat split; decide_labels; reflexivity.
Qed.

Lemma she_is_secure_boot_labels :
  config_ok = true ->
  she_is_secure_boot WH_SHE_SECURE_BOOT_UPDATE = true
  /\ she_is_secure_boot WH_SHE_SECURE_BOOT_FINISH = true
  /\ she_is_secure_boot WH_SHE_RND = false
  /\ she_is_secure_boot WH_SHE_LOAD_KEY = false.
Proof.
  intros OK. destruct (config_ok_split OK) as [_ [_ [Hd _]]].
  unfold she_actions in Hd. unpack_distinct Hd.
  unfold she_is_secure_boot. repeat split; decide_labels; reflexivity.
Qed.

(** Once the UID is set the gate lets the secure-boot actions through. *)
Lemma she_gate_open_boot (g : sheGlobals) (action : Z) :
  config_ok = true ->
  hsmSheUidSet g <> 0 ->
  she_is_secure_boot action = true ->
  she_gate_blocks g action = false.
Proof.
  intros OK Hu Hb. destruct (config_ok_split OK) as [_ [_ [_ [Ei [Eu [Ef _]]]]]].
  unfold she_gate_blocks. rewrite Ei, Eu, Ef.
  apply Z.eqb_neq in Hu. rewrite Hu, andb_false_r, orb_false_r.
  unfold she_is_secure_boot in Hb.
  destruct (hsmSheSbState g =? WOLFHSM_SHE_SB_SUCCESS); [reflexivity|].
  destruct (action =? WH_SHE_SECURE_BOOT_INIT); [reflexivity|].
  destruct (action =? WH_SHE_SECURE_BOOT_UPDATE); [reflexivity|].
  destruct (action =? WH_SHE_SECURE_BOOT_FINISH); [reflexivity|].
  discriminate.
Qed.

End DispatcherProps.

(** ** Pseudo-random numbers *)

Section RndProps.
Context `{CFG : whConfig} `{LAY : whPacketLayout} `{CP : CryptoProvider}
        `{KS : Keystore}.


End RndProps.

(** ** Secure boot *)

Lemma byte_at_range (b : bytes) (i : Z) : 0 <= byte_at b i < 256.
Proof. unfold byte_at, u8. apply Z.mod_pos_bound. lia. Qed.

Lemma be32_range (b : bytes) : 0 <= be32 b < 4294967296.
Proof.
  unfold be32.
  pose proof (byte_at_range b 0). pose proof (byte_at_range b 1).
  pose proof (byte_at_range b 2). pose proof (byte_at_range b 3). lia.
Qed.

Lemma le32_range (b : bytes) : 0 <= le32 b < 4294967296.
Proof.
  unfold le32.
  pose proof (byte_at_range b 0). pose proof (byte_at_range b 1).
  pose proof (byte_at_range b 2). pose proof (byte_at_range b 3). lia.
Qed.

Lemma load32_range `{CFG : whConfig} (b : bytes) : 0 <= load32 b < 4294967296.
Proof.
  unfold load32. destruct big_endian_host; [apply be32_range|apply le32_range].
Qed.

Section BootProps.
Context `{CFG : whConfig} `{LAY : whPacketLayout} `{CP : CryptoProvider}
        `{KS : Keystore}.

Lemma boot_codes :
  config_ok = true ->
  WH_SHE_ERC_SEQUENCE_ERROR <> WH_SHE_ERC_NO_SECURE_BOOT
  /\ WH_SHE_ERC_KEY_NOT_AVAILABLE <> WH_SHE_ERC_NO_SECURE_BOOT
  /\ WH_SHE_ERC_GENERAL_ERROR <> WH_SHE_ERC_NO_SECURE_BOOT.
Proof.
  intros OK. destruct (config_ok_split OK) as [Hd _].
  unfold return_codes in Hd. unpack_distinct Hd.
  repeat split; congruence.
Qed.

Lemma she_final_ret_zero (ret : Z) :
  config_ok = true -> she_final_ret ret = 0 -> ret = 0.
Proof.
  intros OK. destruct (codes_nonzero_all OK) as (_&_&_&_&_&_&_&_&_&Hg).
  unfold she_final_ret. destruct (Z.eqb_spec ret 0); [easy|].
  simpl. destruct (she_specific_error ret); simpl; congruence.
Qed.

(** With the gate open the dispatcher runs the handler the [switch]
    selects, stores the final code and resets the boot state after a
    failed secure-boot action. *)
Lemma dispatch_open (g : sheGlobals) (server : whServerContext) (action : Z)
    (packet : whPacket) (size : Z) (stk : sheStack) :
  she_gate_blocks g action = false ->
  let r := she_switch g server action packet size stk in
  let ret := she_final_ret (res_ret r) in
  wh_Server_HandleSheRequest g (Some server) action (Some packet) (Some size) stk
  = mkOutcome 0
      (if she_is_secure_boot action && negb (ret =? 0)
          && negb (ret =? WH_SHE_ERC_NO_SECURE_BOOT)
       then she_reset (res_glob r) else res_glob r)
      (Some (res_server r))
      (Some (set_rc (res_packet r) ret))
      (Some (if negb (res_ret r =? 0)
             then u16 (WOLFHSM_PACKET_STUB_SIZE + sizeof_rc)
             else res_size r)).
Proof.
  intros G. unfold wh_Server_HandleSheRequest. rewrite G. reflexivity.
Qed.

(** A handler result that is a SHE error other than [NO_SECURE_BOOT]
    reaches [rc] unchanged and, for a secure-boot action, resets the
    boot state. *)
Lemma dispatch_boot_error (g : sheGlobals) (server : whServerContext)
    (action : Z) (packet : whPacket) (size : Z) (stk : sheStack) (e : Z) :
  she_gate_blocks g action = false ->
  she_is_secure_boot action = true ->
  res_ret (she_switch g server action packet size stk) = e ->
  e <> 0 -> e <> WH_SHE_ERC_NO_SECURE_BOOT ->
  she_final_ret e = e ->
  let o := wh_Server_HandleSheRequest g (Some server) action (Some packet)
             (Some size) stk in
  out_ret o = 0
  /\ response_rc o = Some e
  /\ out_glob o = she_reset (res_glob (she_switch g server action packet size stk)).
Proof.
  intros G Hb Hr He Hns Hfin o. subst o.
  rewrite dispatch_open by exact G. proj_simpl.
  rewrite Hr, Hfin, Hb. apply Z.eqb_neq in He, Hns. rewrite He, Hns.
  simpl. auto.
Qed.

Lemma she_final_ret_specific (e : Z) :
  she_specific_error e = true -> she_final_ret e = e.
Proof.
  intros H. unfold she_final_ret. rewrite H. now rewrite andb_false_r.
Qed.

Lemma she_final_ret_general : she_final_ret WH_SHE_ERC_GENERAL_ERROR = WH_SHE_ERC_GENERAL_ERROR.
Proof.
  unfold she_final_ret. now destruct (_ && _).
Qed.

(** C5.  [SECURE_BOOT_FINISH] issued in state FINISH (the UID set, the
    CMAC finalised without error).  If the stored [BOOT_MAC] equals the
    computed CMAC, [rc] is [NO_ERROR] and the state on return is
    SUCCESS.  If they differ, the handler sets FAILURE and yields
    [GENERAL_ERROR]; [rc] is [GENERAL_ERROR], and the dispatcher's reset
    makes the state on return INIT with [hsmSheBlSize],
    [hsmSheBlSizeReceived] and [hsmSheCmacKeyFound] cleared.  If the
    digest cannot be read, [rc] is [KEY_NOT_AVAILABLE] and the state on
    return is INIT in the same way. *)
Theorem secure_boot_finish_outcome (g : sheGlobals) (server : whServerContext)
    (packet : whPacket) (size : Z) (stk : sheStack) :
  config_ok = true ->
  hsmSheUidSet g <> 0 ->
  hsmSheSbState g = WOLFHSM_SHE_SB_FINISH ->
  cf_ret (wc_CmacFinal (sheCmac g)) = 0 ->
  let o := wh_Server_HandleSheRequest g (Some server) WH_SHE_SECURE_BOOT_FINISH
             (Some packet) (Some size) stk in
  let h := hsmSheSecureBootFinish g server packet size stk in
  let rd := read_key server WOLFHSM_SHE_BOOT_MAC WOLFHSM_SHE_KEY_SZ in
  let macDigest := memcpy (stk_key stk) (rk_key rd) (Z.of_nat (length (rk_key rd))) in
  let same := memeq (cf_out (wc_CmacFinal (sheCmac g))) macDigest
                    (cf_field (wc_CmacFinal (sheCmac g))) in
  out_ret o = 0
  /\ (rk_ret rd = 0 -> same = true ->
      response_rc o = Some WOLFHSM_SHE_ERC_NO_ERROR
      /\ hsmSheSbState (out_glob o) = WOLFHSM_SHE_SB_SUCCESS)
  /\ (rk_ret rd = 0 -> same = false ->
      response_rc o = Some WH_SHE_ERC_GENERAL_ERROR
      /\ hsmSheSbState (res_glob h) = WOLFHSM_SHE_SB_FAILURE
      /\ out_glob o = she_reset (res_glob h)
      /\ hsmSheSbState (out_glob o) = WOLFHSM_SHE_SB_INIT)
  /\ (rk_ret rd <> 0 ->
      response_rc o = Some WH_SHE_ERC_KEY_NOT_AVAILABLE
      /\ out_glob o = she_reset (res_glob h)
      /\ hsmSheSbState (out_glob o) = WOLFHSM_SHE_SB_INIT).
Proof.
  intros OK Hu Hs Hfin o h rd macDigest same.
  destruct (codes_nonzero_all OK) as (_&_&_&_& Hkna &_&_&_&_& Hgen).
  destruct (boot_codes OK) as (_ & Hkna' & Hgen').
  destruct (config_ok_split OK) as (_ & Hno & _).
  destruct (she_switch_labels g server packet size stk OK) as (_ & Hsw & _).
  destruct (she_is_secure_boot_labels OK) as (_ & Hb & _).
  destruct specific_codes as (_ & Hsk & _).
  assert (G : she_gate_blocks g WH_SHE_SECURE_BOOT_FINISH = false)
    by (apply she_gate_open_boot; assumption).
  assert (Hret : res_ret h
                 = if rk_ret rd =? 0
                   then (if same then 0 else WH_SHE_ERC_GENERAL_ERROR)
                   else WH_SHE_ERC_KEY_NOT_AVAILABLE).
  { subst h. unfold hsmSheSecureBootFinish. proj_simpl.
    rewrite Hs, Z.eqb_refl. simpl. rewrite Hfin. simpl. fold rd.
    destruct (rk_ret rd =? 0) eqn:E; simpl.
    - fold macDigest. fold same. reflexivity.
    - apply Z.eqb_neq in Hkna. now rewrite Hkna. }
  assert (Hsb : hsmSheSbState (res_glob h)
                = if rk_ret rd =? 0
                  then (if same then WOLFHSM_SHE_SB_SUCCESS
                        else WOLFHSM_SHE_SB_FAILURE)
                  else WOLFHSM_SHE_SB_FINISH).
  { subst h. unfold hsmSheSecureBootFinish. proj_simpl.
    rewrite Hs, Z.eqb_refl. simpl. rewrite Hfin. simpl. fold rd.
    destruct (rk_ret rd =? 0) eqn:E; simpl.
    - fold macDigest. fold same. reflexivity.
    - apply Z.eqb_neq in Hkna. now rewrite Hkna. }
  change (hsmSheSecureBootFinish g server packet size stk) with h in Hsw.
  clearbody h same. clearbody rd.
  split.
  { subst o. now rewrite dispatch_open by exact G. }
  split; [|split].
  - intros Hr Hsame. subst o. rewrite dispatch_open by exact G.
    rewrite Hsw. proj_simpl.
    rewrite Hret, Hb, Hr, Hsame, Hno. unfold she_final_ret. simpl.
    rewrite Hsb, Hr, Hsame. simpl. auto.
  - intros Hr Hsame.
    assert (Hh : res_ret (she_switch g server WH_SHE_SECURE_BOOT_FINISH packet size stk)
                 = WH_SHE_ERC_GENERAL_ERROR).
    { rewrite Hsw. now rewrite Hret, Hr, Hsame. }
    destruct (dispatch_boot_error g server _ packet size stk _ G Hb Hh Hgen Hgen'
                she_final_ret_general) as (_ & Hrc & Hg).
    rewrite Hsw in Hg. fold o in Hrc, Hg.
    rewrite Hsb, Hr, Hsame. simpl. rewrite Hg. auto.
  - intros Hr.
    assert (Hh : res_ret (she_switch g server WH_SHE_SECURE_BOOT_FINISH packet size stk)
                 = WH_SHE_ERC_KEY_NOT_AVAILABLE).
    { rewrite Hsw. apply Z.eqb_neq in Hr. now rewrite Hret, Hr. }
    destruct (dispatch_boot_error g server _ packet size stk _ G Hb Hh Hkna Hkna'
                (she_final_ret_specific _ Hsk)) as (_ & Hrc & Hg).
    rewrite Hsw in Hg. fold o in Hrc, Hg.
    rewrite Hg. auto.
Qed.

Lemma she_reset_inv (g : sheGlobals) : she_boot_inv (she_reset g).
Proof.
  unfold she_boot_inv, she_reset. proj_simpl. repeat split; reflexivity || lia.
Qed.

(** The [switch] either runs one of the three secure-boot handlers or
    leaves the secure-boot variables alone. *)
Lemma she_switch_cases (g : sheGlobals) (server : whServerContext)
    (action : Z) (packet : whPacket) (size : Z) (stk : sheStack) :
  let r := she_switch g server action packet size stk in
  (she_is_secure_boot action = true
   /\ (r = hsmSheSecureBootInit g server packet size stk
       \/ r = hsmSheSecureBootUpdate g server packet size
       \/ r = hsmSheSecureBootFinish g server packet size stk))
  \/ (hsmSheSbState (res_glob r) = hsmSheSbState g
      /\ hsmSheBlSize (res_glob r) = hsmSheBlSize g
      /\ hsmSheBlSizeReceived (res_glob r) = hsmSheBlSizeReceived g
      /\ hsmSheCmacKeyFound (res_glob r) = hsmSheCmacKeyFound g).
Proof.
  unfold she_switch, she_is_secure_boot.
  destruct (action =? WH_SHE_SET_UID); [right; repeat split|].
  destruct (action =? WH_SHE_SECURE_BOOT_INIT); [left; auto|].
  destruct (action =? WH_SHE_SECURE_BOOT_UPDATE); [left; auto|].
  destruct (action =? WH_SHE_SECURE_BOOT_FINISH); [left; auto|].
  right.
  repeat match goal with
         | |- context [action =? ?c] =>
             destruct (action =? c); [repeat split|]
         end.
  repeat split.
Qed.

(** Past the gate the UID flag is set when the handler returns. *)
Lemma she_switch_uid (g : sheGlobals) (server : whServerContext)
    (action : Z) (packet : whPacket) (size : Z) (stk : sheStack) :
  she_gate_blocks g action = false ->
  hsmSheUidSet (res_glob (she_switch g server action packet size stk)) <> 0.
Proof.
  intros G. unfold she_gate_blocks in G.
  apply orb_false_iff in G. destruct G as [_ G].
  unfold she_switch.
  destruct (action =? WH_SHE_SET_UID).
  - unfold hsmSheSetUid. proj_simpl.
    destruct (Z.eqb_spec (hsmSheUidSet g) 1) as [E|_].
    + rewrite E. destruct (WH_SHE_ERC_SEQUENCE_ERROR =? 0); lia.
    + simpl. lia.
  - simpl in G. apply Z.eqb_neq in G.
    repeat match goal with
           | |- context [action =? ?c] => destruct (action =? c); [exact G|]
           end.
    exact G.
Qed.

Section BootHandlers.
Hypothesis OK : config_ok = true.

Lemma seq0 : (WH_SHE_ERC_SEQUENCE_ERROR =? 0) = false.
Proof using OK.
  destruct (codes_nonzero_all OK) as (_&_&_&H&_). now apply Z.eqb_neq.
Qed.

Lemma secure_boot_init_inv (g : sheGlobals) (server : whServerContext)
    (packet : whPacket) (size : Z) (stk : sheStack) :
  let r := hsmSheSecureBootInit g server packet size stk in
  she_boot_inv g ->
  res_ret r <> WH_SHE_ERC_SEQUENCE_ERROR ->
  hsmSheBlSizeReceived (res_glob r) <= hsmSheBlSize (res_glob r)
  /\ hsmSheBlSizeReceived (res_glob r) = 0.
Proof using OK.
  intros r [_ [Hinit _]]. subst r. unfold hsmSheSecureBootInit. proj_simpl.
  destruct (Z.eqb_spec (hsmSheSbState g) WOLFHSM_SHE_SB_INIT) as [E|_]; simpl.
  - intros _. rewrite (Hinit E).
    pose proof (load32_range (sub 0 4 (body packet))). lia.
  - repeat (rewrite seq0; simpl). congruence.
Qed.

Lemma secure_boot_update_inv (g : sheGlobals) (server : whServerContext)
    (packet : whPacket) (size : Z) :
  let r := hsmSheSecureBootUpdate g server packet size in
  res_ret r <> WH_SHE_ERC_SEQUENCE_ERROR ->
  hsmSheBlSizeReceived (res_glob r) <= hsmSheBlSize (res_glob r)
  /\ hsmSheSbState (res_glob r) <> WOLFHSM_SHE_SB_INIT.
Proof using OK.
  intros r. subst r. unfold hsmSheSecureBootUpdate. proj_simpl.
  destruct (Z.eqb_spec (hsmSheSbState g) WOLFHSM_SHE_SB_UPDATE) as [E|_]; simpl.
  - destruct (Z.gtb_spec (u32 (hsmSheBlSizeReceived g + load32 (sub 0 4 (body packet))))
                         (hsmSheBlSize g)) as [Hgt|Hle].
    + repeat (rewrite seq0; simpl). congruence.
    + intros _. split; [lia|]. rewrite E.
      destruct (_ && _); discriminate.
  - repeat (rewrite seq0; simpl). congruence.
Qed.

Lemma secure_boot_finish_inv (g : sheGlobals) (server : whServerContext)
    (packet : whPacket) (size : Z) (stk : sheStack) :
  let r := hsmSheSecureBootFinish g server packet size stk in
  res_ret r <> WH_SHE_ERC_SEQUENCE_ERROR ->
  hsmSheBlSizeReceived (res_glob r) = hsmSheBlSizeReceived g
  /\ hsmSheBlSize (res_glob r) = hsmSheBlSize g
  /\ hsmSheSbState (res_glob r) <> WOLFHSM_SHE_SB_INIT.
Proof using OK.
  intros r. subst r. unfold hsmSheSecureBootFinish. proj_simpl.
  destruct (Z.eqb_spec (hsmSheSbState g) WOLFHSM_SHE_SB_FINISH) as [E|_]; simpl.
  - intros _. repeat split. rewrite E.
    destruct (_ =? 0); [destruct (memeq _ _ _)|]; discriminate.
  - repeat (rewrite seq0; simpl). congruence.
Qed.

(** A secure-boot handler that answered [SEQUENCE_ERROR] is followed by
    the reset. *)
Lemma boot_not_reset_not_seq (action ret : Z) :
  she_is_secure_boot action = true ->
  (she_is_secure_boot action && negb (she_final_ret ret =? 0)
   && negb (she_final_ret ret =? WH_SHE_ERC_NO_SECURE_BOOT)) = false ->
  ret <> WH_SHE_ERC_SEQUENCE_ERROR.
Proof using OK.
  intros Hb Hc ->. rewrite Hb in Hc.
  destruct specific_codes as (Hs & _).
  destruct (boot_codes OK) as (Hn & _).
  rewrite (she_final_ret_specific _ Hs), seq0 in Hc.
  apply Z.eqb_neq in Hn. now rewrite Hn in Hc.
Qed.

(** The dispatcher keeps the invariant of the secure-boot variables. *)
Lemma she_step_inv (g : sheGlobals) (server : option whServerContext)
    (action : Z) (data : option whPacket) (size : option Z) (stk : sheStack) :
  she_boot_inv g ->
  she_boot_inv (out_glob (wh_Server_HandleSheRequest g server action data size stk)).
Proof using OK.
  intros Hinv.
  destruct server as [srv|], data as [packet|], size as [sz|]; try exact Hinv.
  destruct (she_gate_blocks g action) eqn:G.
  { unfold wh_Server_HandleSheRequest. rewrite G. exact Hinv. }
  rewrite dispatch_open by exact G. proj_simpl.
  pose proof (she_switch_uid g srv action packet sz stk G) as Hu.
  destruct (_ && _ && _) eqn:Hc; [apply she_reset_inv|].
  destruct (she_switch_cases g srv action packet sz stk) as [[Hb Hr]|Hf].
  - pose proof (boot_not_reset_not_seq _ _ Hb Hc) as Hns.
    destruct Hinv as (H1 & H2 & H3).
    destruct Hr as [Hr|[Hr|Hr]]; rewrite Hr in Hns, Hu |- *.
    + destruct (secure_boot_init_inv g srv packet sz stk
                  (conj H1 (conj H2 H3)) Hns) as [Ha Hz].
      repeat split; [exact Ha|now intros _|contradiction..].
    + destruct (secure_boot_update_inv g srv packet sz Hns) as [Ha Hz].
      repeat split; [exact Ha|contradiction..].
    + destruct (secure_boot_finish_inv g srv packet sz stk Hns) as (Ha & Hb' & Hz).
      repeat split; [rewrite Ha, Hb'; exact H1|contradiction..].
  - destruct Hf as (E1 & E2 & E3 & E4). destruct Hinv as (H1 & H2 & H3).
    unfold she_boot_inv. rewrite E1, E2, E3, E4.
    repeat split; [exact H1|exact H2|contradiction..].
Qed.

Lemma she_reachable_inv (g : sheGlobals) :
  she_reachable g -> she_boot_inv g.
Proof using OK.
  induction 1 as [|g server action data size stk _ IH].
  - unfold she_boot_inv, sheGlobals_init. proj_simpl. repeat split; reflexivity || lia.
  - now apply she_step_inv.
Qed.

End BootHandlers.

(** What [SECURE_BOOT_UPDATE] does with the counter.  The handler adds
    the [sz] field of the request to [hsmSheBlSizeReceived] as a
    [uint32_t] and compares the sum with [hsmSheBlSize].  In every
    reachable state: a sum above [hsmSheBlSize] is answered with
    [SEQUENCE_ERROR] in [rc], and on return the state is INIT with
    [hsmSheBlSize], [hsmSheBlSizeReceived] and [hsmSheCmacKeyFound]
    cleared; a sum that is not above, in state UPDATE and with the CMAC
    update succeeding, is answered with [rc = 0], the counter is the
    sum, the chunk has gone into the CMAC and the state is FINISH when
    the sum equals [hsmSheBlSize] and UPDATE otherwise.  The sum is the
    cumulative size as long as that is below [2^32].  Between any two
    calls of the dispatcher [hsmSheBlSizeReceived <= hsmSheBlSize]. *)
Lemma secure_boot_update_counter (g : sheGlobals) (server : whServerContext)
    (packet : whPacket) (size : Z) (stk : sheStack) :
  config_ok = true ->
  she_reachable g ->
  let sz := load32 (sub 0 4 (body packet)) in
  let chunk := sub sizeof_sheSecureBootUpdateReq sz (body packet) in
  let total := u32 (hsmSheBlSizeReceived g + sz) in
  let o := wh_Server_HandleSheRequest g (Some server) WH_SHE_SECURE_BOOT_UPDATE
             (Some packet) (Some size) stk in
  (total > hsmSheBlSize g ->
   out_ret o = 0
   /\ response_rc o = Some WH_SHE_ERC_SEQUENCE_ERROR
   /\ hsmSheSbState (out_glob o) = WOLFHSM_SHE_SB_INIT
   /\ hsmSheBlSize (out_glob o) = 0
   /\ hsmSheBlSizeReceived (out_glob o) = 0
   /\ hsmSheCmacKeyFound (out_glob o) = 0)
  /\ (hsmSheUidSet g <> 0 ->
      hsmSheSbState g = WOLFHSM_SHE_SB_UPDATE ->
      total <= hsmSheBlSize g ->
      wc_CmacUpdate (sheCmac g) chunk = 0 ->
      out_ret o = 0
      /\ response_rc o = Some 0
      /\ hsmSheBlSizeReceived (out_glob o) = total
      /\ hsmSheBlSize (out_glob o) = hsmSheBlSize g
      /\ hsmSheSbState (out_glob o)
         = (if total =? hsmSheBlSize g
            then WOLFHSM_SHE_SB_FINISH else WOLFHSM_SHE_SB_UPDATE)
      /\ sheCmac (out_glob o) = cmac_update (sheCmac g) chunk)
  /\ (0 <= hsmSheBlSizeReceived g ->
      hsmSheBlSizeReceived g + sz < 4294967296 ->
      total = hsmSheBlSizeReceived g + sz)
  /\ (forall g', she_reachable g' ->
      hsmSheBlSizeReceived g' <= hsmSheBlSize g').
Proof.
  intros OK Hreach sz chunk total o.
  destruct (she_switch_labels g server packet size stk OK) as (Hsw & _).
  destruct (she_is_secure_boot_labels OK) as (Hb & _).
  split; [|split; [|split]].
  - intros Hover.
    destruct (she_reachable_inv OK g Hreach) as (H1 & H2 & H3).
    destruct (codes_nonzero_all OK) as (_&_&_& Hseq &_).
    destruct (boot_codes OK) as (Hseq' & _).
    destruct specific_codes as (Hspec & _).
    destruct (Z.eq_dec (hsmSheUidSet g) 0) as [Hu|Hu].
    + destruct (H3 Hu) as (Es & Eb & Ec).
      assert (Ha : WH_SHE_SECURE_BOOT_UPDATE <> WH_SHE_SET_UID).
      { destruct (config_ok_split OK) as [_ [_ [Hd _]]].
        unfold she_actions in Hd. unpack_distinct Hd. congruence. }
      subst o.
      rewrite (she_gate_blocked g server _ packet size stk
                 (she_gate_blocks_no_uid g _ Ha Hu)).
      proj_simpl. repeat split; auto.
    + assert (G : she_gate_blocks g WH_SHE_SECURE_BOOT_UPDATE = false)
        by (apply she_gate_open_boot; assumption).
      assert (Hret : res_ret (she_switch g server WH_SHE_SECURE_BOOT_UPDATE
                                packet size stk) = WH_SHE_ERC_SEQUENCE_ERROR).
      { rewrite Hsw. unfold hsmSheSecureBootUpdate. proj_simpl. fold sz. fold total.
        destruct (hsmSheSbState g =? WOLFHSM_SHE_SB_UPDATE); simpl.
        - assert ((total >? hsmSheBlSize g) = true) as ->
            by (apply Z.gtb_lt; lia).
          repeat (rewrite (seq0 OK); simpl). reflexivity.
        - repeat (rewrite (seq0 OK); simpl). reflexivity. }
      destruct (dispatch_boot_error g server _ packet size stk _ G Hb Hret
                  Hseq Hseq' (she_final_ret_specific _ Hspec)) as (Hr & Hrc & Hg).
      fold o in Hr, Hrc, Hg. rewrite Hg. unfold she_reset. proj_simpl.
      repeat split; auto.
  - intros Hu Hs Hle Hcm.
    assert (G : she_gate_blocks g WH_SHE_SECURE_BOOT_UPDATE = false)
      by (apply she_gate_open_boot; assumption).
    assert (Hgt : (total >? hsmSheBlSize g) = false)
      by (rewrite Z.gtb_ltb; apply Z.ltb_ge; lia).
    subst o. rewrite dispatch_open by exact G. rewrite Hsw, Hb.
    unfold hsmSheSecureBootUpdate. fold sz. fold chunk. fold total.
    rewrite Hs, Z.eqb_refl. cbn [negb]. change (0 =? 0) with true.
    cbn [andb]. rewrite Hgt, Hcm. change (0 =? 0) with true. cbn [andb].
    proj_simpl. unfold she_final_ret. change (0 =? 0) with true.
    cbn [negb andb]. proj_simpl. repeat split; reflexivity.
  - intros H0 Hlt. pose proof (load32_range (sub 0 4 (body packet))) as Hr.
    fold sz in Hr. subst total. unfold u32. apply Z.mod_small. lia.
  - intros g' Hr. exact (proj1 (she_reachable_inv OK g' Hr)).
Qed.

End BootProps.

(** ** AES-MP16 *)

Lemma length_xor_bytes (a b : bytes) :
  length (xor_bytes a b) = Nat.min (length a) (length b).
Proof.
  revert b. induction a as [|x a IH]; intros [|y b]; simpl; auto.
Qed.

Lemma to_int_small (x : Z) : 0 <= x < 2147483648 -> to_int x = x.
Proof.
  intros Hx. unfold to_int, u32. rewrite Z.mod_small by lia.
  destruct (Z.ltb_spec x 2147483648); lia.
Qed.

Lemma u32_small (x : Z) : 0 <= x < 4294967296 -> u32 x = x.
Proof. intros Hx. unfold u32. apply Z.mod_small. lia. Qed.

Section Mp16Props.
Context `{CFG : whConfig} `{CP : CryptoProvider} `{KS : Keystore}.

Lemma mp16_pad_short (m : bytes) :
  (0 < length m < 16)%nat ->
  mp16_pad m = m ++ repeat 0 (16 - length m)%nat.
Proof.
  intros Hm. unfold mp16_pad. f_equal. f_equal.
  rewrite (Nat.mod_small (length m)) by lia. apply Nat.mod_small. lia.
Qed.

Lemma mp16_pad_nil : mp16_pad [] = [].
Proof. reflexivity. Qed.

Lemma mp16_pad_long (m : bytes) :
  (16 <= length m)%nat ->
  mp16_pad m = firstn 16 m ++ mp16_pad (skipn 16 m).
Proof.
  intros Hm. unfold mp16_pad. rewrite length_skipn.
  rewrite app_assoc, firstn_skipn. f_equal. f_equal.
  replace (length m) with ((length m - 16) + 1 * 16)%nat at 1 by lia.
  now rewrite Nat.Div0.mod_add.
Qed.

(** The blocks of a buffer that starts with a whole block. *)
Lemma mp16_blocks_long (m : bytes) :
  (16 <= length m)%nat ->
  mp16_blocks (length (mp16_pad m) / 16) (mp16_pad m)
  = firstn 16 m
    :: mp16_blocks (length (mp16_pad (skipn 16 m)) / 16) (mp16_pad (skipn 16 m)).
Proof.
  intros Hm. rewrite (mp16_pad_long m Hm).
  assert (Hf : length (firstn 16 m) = 16%nat) by (rewrite length_firstn; lia).
  rewrite length_app, Hf.
  replace (16 + length (mp16_pad (skipn 16 m)))%nat
    with (length (mp16_pad (skipn 16 m)) + 1 * 16)%nat by lia.
  rewrite Nat.div_add by lia. rewrite Nat.add_1_r. cbn [mp16_blocks].
  rewrite firstn_app, Hf, Nat.sub_diag, firstn_O, app_nil_r.
  rewrite firstn_all2 by lia.
  rewrite skipn_app, Hf, Nat.sub_diag.
  rewrite (skipn_all2 (firstn 16 m)) by (rewrite Hf; lia).
  reflexivity.
Qed.

Lemma mp16_blocks_short (m : bytes) :
  (0 < length m < 16)%nat ->
  mp16_blocks (length (mp16_pad m) / 16) (mp16_pad m)
  = [m ++ repeat 0 (16 - length m)%nat].
Proof.
  intros Hm. rewrite (mp16_pad_short m Hm).
  assert (Hl : length (m ++ repeat 0 (16 - length m)%nat) = 16%nat)
    by (rewrite length_app, repeat_length; lia).
  rewrite Hl. change (16 / 16)%nat with 1%nat. cbn [mp16_blocks].
  rewrite firstn_all2 by lia. reflexivity.
Qed.

Hypothesis AES : aes_direct_ok.

Lemma length_mp16_compress (H B : bytes) :
  length H = 16%nat -> length B = 16%nat ->
  length (mp16_compress H B) = 16%nat.
Proof using AES.
  intros HH HB. destruct AES as (_ & _ & _ & Hlen).
  unfold mp16_compress, AES_Encrypt.
  rewrite !length_xor_bytes, Hlen, HH, HB. reflexivity.
Qed.

(** The loop never fails while the provider does not. *)
Lemma wh_AesMp16_loop_ret (fuel : nat) (in_ : bytes) (inSz i : Z)
    (key out mz : bytes) :
  fst (wh_AesMp16_loop fuel in_ inSz i key out mz) = 0.
Proof using AES.
  destruct AES as (_ & Hset & Henc & _).
  revert i key out mz. induction fuel as [|fuel IH]; intros; simpl; [reflexivity|].
  destruct (i <? to_int inSz); [|reflexivity].
  rewrite Henc. simpl. rewrite Hset. simpl. apply IH.
Qed.

(** The loop, entered at a block boundary [i] with the chaining value
    [H] as key, as output and as previous block, leaves the chaining
    value of the remaining blocks. *)
Lemma wh_AesMp16_loop_spec (msg : bytes) (k : nat) :
  Z.of_nat (length msg) <= 2147483632 ->
  forall (fuel i : nat) (H : bytes),
    (k <= fuel)%nat ->
    (i <= length msg)%nat ->
    (length msg - i <= 16 * k)%nat ->
    length H = 16%nat ->
    let rem := skipn i msg in
    let res := fold_left mp16_compress
                 (mp16_blocks (length (mp16_pad rem) / 16) (mp16_pad rem)) H in
    wh_AesMp16_loop fuel msg (Z.of_nat (length msg)) (Z.of_nat i) H H H
    = (0, res)
    /\ length res = 16%nat.
Proof using AES.
  intros Hmax. destruct AES as (_ & Hset & Henc & Hlen).
  induction k as [|k IH]; intros fuel i H Hfuel Hi Hrem HH rem res.
  - assert (i = length msg) by lia. subst i. subst res rem.
    rewrite skipn_all. rewrite mp16_pad_nil. simpl.
    split; [|exact HH].
    destruct fuel; simpl; [reflexivity|].
    rewrite to_int_small by lia.
    now rewrite Z.ltb_irrefl.
  - destruct (Nat.eq_dec i (length msg)) as [->|Hne].
    { subst res rem. rewrite skipn_all. rewrite mp16_pad_nil. simpl.
      split; [|exact HH].
      destruct fuel; simpl; [reflexivity|].
      rewrite to_int_small by lia. now rewrite Z.ltb_irrefl. }
    destruct fuel as [|fuel]; [lia|].
    assert (Hr : length rem = (length msg - i)%nat)
      by (subst rem; apply length_skipn).
    cbn [wh_AesMp16_loop].
    rewrite (to_int_small (Z.of_nat (length msg))) by lia.
    assert ((Z.of_nat i <? Z.of_nat (length msg)) = true) as ->
        by (apply Z.ltb_lt; lia).
    change (to_int AES_BLOCK_SIZE) with 16.
    rewrite Henc. cbn [fst snd]. rewrite Hset.
    rewrite Z.eqb_refl.
    destruct (Z.ltb_spec (Z.of_nat (length msg) - Z.of_nat i) 16) as [Hs|Hl].
    + (* the last, short block *)
      assert (Hshort : (0 < length rem < 16)%nat) by lia.
      assert (Hpad : sub (Z.of_nat i) (u32 (Z.of_nat (length msg) - Z.of_nat i)) msg
                     ++ repeat 0 (Z.to_nat (u32 (AES_BLOCK_SIZE
                                   - (Z.of_nat (length msg) - Z.of_nat i))))
                     = rem ++ repeat 0 (16 - length rem)%nat).
      { unfold AES_BLOCK_SIZE. rewrite !u32_small by lia.
        unfold sub. rewrite Nat2Z.id. fold rem. f_equal.
        - apply firstn_all2. lia.
        - f_equal. lia. }
      rewrite Hpad.
      subst res. rewrite (mp16_blocks_short rem Hshort). cbn [fold_left].
      fold (AES_Encrypt H (rem ++ repeat 0 (16 - length rem)%nat)).
      fold (mp16_compress H (rem ++ repeat 0 (16 - length rem)%nat)).
      assert (HB : length (rem ++ repeat 0 (16 - length rem)%nat) = 16%nat)
        by (rewrite length_app, repeat_length; lia).
      split; [|now apply length_mp16_compress].
      unfold AES_BLOCK_SIZE.
      rewrite to_int_small by lia.
      destruct fuel; cbn [wh_AesMp16_loop]; [reflexivity|].
      rewrite to_int_small by lia.
      assert ((Z.of_nat i + 16 <? Z.of_nat (length msg)) = false) as ->
          by (apply Z.ltb_ge; lia).
      reflexivity.
    + (* a whole block *)
      assert (Hlong : (16 <= length rem)%nat) by lia.
      assert (Hblk : sub (Z.of_nat i) AES_BLOCK_SIZE msg = firstn 16 rem).
      { unfold sub, AES_BLOCK_SIZE. now rewrite Nat2Z.id. }
      rewrite Hblk.
      fold (AES_Encrypt H (firstn 16 rem)).
      fold (mp16_compress H (firstn 16 rem)).
      assert (HB : length (firstn 16 rem) = 16%nat)
        by (rewrite length_firstn; lia).
      pose proof (length_mp16_compress H _ HH HB) as HH'.
      unfold AES_BLOCK_SIZE. rewrite to_int_small by lia.
      replace (Z.of_nat i + 16) with (Z.of_nat (i + 16)) by lia.
      destruct (IH fuel (i + 16)%nat (mp16_compress H (firstn 16 rem)))
        as [Hloop Hres]; try lia; try assumption.
      rewrite Hloop.
      subst res. rewrite (mp16_blocks_long rem Hlong). cbn [fold_left].
      assert (Hsk : skipn 16 rem = skipn (i + 16) msg).
      { subst rem. rewrite skipn_skipn. f_equal. lia. }
      rewrite Hsk. split; [reflexivity|exact Hres].
Qed.

End Mp16Props.

(** C4.  For valid pointers, a nonzero length that fits the [int]
    index ([0 < n <= 2^31 - 16]) and a provider whose calls succeed,
    [wh_AesMp16] returns 0 and writes the 16 bytes [AES_MP16 msg]: the
    Miyaguchi-Preneel chain over the zero-padded input, started at the
    zero block.  The result depends on the input alone (not on what
    [out] held, nor on the server).  The function returns [BadArgs]
    exactly when a pointer is null or the length is 0. *)
Theorem aes_mp16_correct `{CFG : whConfig} `{CP : CryptoProvider}
    `{KS : Keystore} :
  config_ok = true ->
  aes_direct_ok ->
  (forall server in_ inSz out,
      fst (wh_AesMp16 server in_ inSz out) = WH_ERROR_BADARGS
      <-> (server = None \/ in_ = None \/ out = None \/ inSz = 0))
  /\ (forall server msg out0,
        0 < Z.of_nat (length msg) <= 2147483632 ->
        wh_AesMp16 (Some server) (Some msg) (Z.of_nat (length msg)) (Some out0)
        = (0, Some (AES_MP16 msg))
        /\ length (AES_MP16 msg) = 16%nat).
Proof.
  intros OK AES.
  destruct (codes_nonzero_all OK) as (Hbad & _).
  pose proof AES as (Hinit & Hset & _).
  split.
  - intros server in_ inSz out. unfold wh_AesMp16. split.
    + destruct server; [|now left].
      destruct in_; [|now right; left].
      destruct out; [|now right; right; left].
      destruct (Z.eqb_spec inSz 0) as [E|_]; [now right; right; right|].
      rewrite Hinit, Hset. simpl.
      rewrite wh_AesMp16_loop_ret by exact AES. congruence.
    + intros [-> | [-> | [-> | ->]]]; try reflexivity.
      * now destruct server.
      * now destruct server, in_.
      * now destruct server, in_, out.
  - intros server msg out0 Hlen. unfold wh_AesMp16.
    assert ((Z.of_nat (length msg) =? 0) = false) as -> by (apply Z.eqb_neq; lia).
    rewrite Hinit, Hset. simpl.
    rewrite to_int_small by lia. rewrite Nat2Z.id.
    assert (H16 : length zero_block = 16%nat) by reflexivity.
    destruct (wh_AesMp16_loop_spec AES msg (length msg) ltac:(lia)
                (length msg) 0%nat zero_block) as [Hloop Hres]; try lia;
      try exact H16.
    split; [|exact Hres].
    assert (Hgen : forall out,
               wh_AesMp16_loop (length msg) msg (Z.of_nat (length msg)) 0
                 zero_block out zero_block
               = wh_AesMp16_loop (length msg) msg (Z.of_nat (length msg)) 0
                   zero_block zero_block zero_block).
    { intros out. destruct (length msg) eqn:E; [lia|].
      cbn [wh_AesMp16_loop]. rewrite to_int_small by lia.
      assert ((0 <? Z.of_nat (S n)) = true) as -> by (apply Z.ltb_lt; lia).
      reflexivity. }
    rewrite Hgen. change (Z.of_nat 0) with 0 in Hloop. rewrite Hloop.
    reflexivity.
Qed.

(** The stand-in cipher is a provider in the sense of [aes_direct_ok]. *)
Lemma length_block16 (b : bytes) : length (block16 b) = 16%nat.
Proof.
  unfold block16, zero_block. rewrite length_firstn, length_app, repeat_length. lia.
Qed.

Lemma toy_aes_direct_ok : aes_direct_ok (CP := toy_crypto).
Proof.
  repeat split; intros; simpl.
  unfold toy_encrypt. rewrite length_map, length_xor_bytes, !length_block16.
  reflexivity.
Qed.

(** A length with the top bit set, as [(int)inSz], is negative: the loop
    body never runs and [out] keeps what it held. *)
Lemma wh_AesMp16_int_min `{CFG : whConfig} `{KS : Keystore}
    (server : whServerContext) (in_ out0 : bytes) :
  wh_AesMp16 (CP := toy_crypto) (Some server) (Some in_) 2147483648 (Some out0)
  = (0, Some out0).
Proof. reflexivity. Qed.

(** ** LOAD_KEY *)

Section LoadKeyProps.
Context `{CFG : whConfig} `{CP : CryptoProvider} `{KS : Keystore}.

(** A request that fails a check up to the counter check gets the code
    of that check; nothing is written to the keystore, and the RAM-key
    flag and [*size] stay as they were. *)
Lemma load_key_rejected (g : sheGlobals) (server : whServerContext)
    (packet : whPacket) (size : Z) (stk : sheStack) :
  let L := hsmSheLoadKey_target server (hsmSheLoadKey_auth g server packet stk) in
  let r := hsmSheLoadKey g server packet size stk in
  hsmSheLoadKey_counter server L <> 0 ->
  res_ret r = hsmSheLoadKey_counter server L
  /\ res_server r = server
  /\ hsmSheRamKeyPlain (res_glob r) = hsmSheRamKeyPlain g
  /\ res_size r = size.
Proof.
  intros L r. subst r. unfold hsmSheLoadKey. fold L.
  generalize (hsmSheLoadKey_counter server L). intros e He.
  destruct server as [uid cid st].
  destruct e as [|p|p]; [congruence| |]; repeat split.
Qed.

Lemma byte_at_cons (x : Z) (rest : bytes) (i : Z) :
  1 <= i -> byte_at (x :: rest) i = byte_at rest (i - 1).
Proof.
  intros Hi. unfold byte_at. f_equal.
  replace (Z.to_nat i) with (S (Z.to_nat (i - 1))) by lia. reflexivity.
Qed.

(** The loop of [XMEMEQZERO] stops at [size > 1]: it reads
    [buffer[size-1]] down to [buffer[1]] and never [buffer[0]]. *)
Lemma XMEMEQZERO_ignores_first_byte (x y : Z) (rest : bytes) (size : Z) :
  XMEMEQZERO (x :: rest) size = XMEMEQZERO (y :: rest) size.
Proof.
  unfold XMEMEQZERO. generalize (Z.to_nat size) as fuel. intros fuel.
  revert size. induction fuel as [|fuel IH]; intros size; simpl; [reflexivity|].
  destruct (Z.gtb_spec size 1) as [Hs|_]; [|reflexivity].
  rewrite !byte_at_cons by lia. now rewrite IH.
Qed.

(** On a big-endian host the counter compared by the code is the top 28
    bits of the big-endian word at the start of the decrypted M2. *)
Lemma counter_big_endian (b : bytes) :
  big_endian_host = true ->
  ntohl (Z.shiftr (load32 b) 4) = be32 b / 16.
Proof.
  intros BE. unfold ntohl, load32. rewrite BE.
  rewrite Z.shiftr_div_pow2 by lia. change (2 ^ 4) with 16.
  pose proof (be32_range b) as Hr.
  apply u32_small. split; [apply Z.div_pos; lia|].
  apply Z.div_lt_upper_bound; lia.
Qed.

(** The counter check where the byte order of the host is big-endian: a
    LOAD_KEY request that has passed the checks preceding the counter
    check (authorising key present, M3 verified, M2 decrypted, slot not
    write-protected, UID check) and targets an existing slot is
    answered with [KEY_UPDATE_ERROR] when the 28-bit big-endian counter
    of the decrypted M2 does not exceed the counter stored with the
    slot, and the keystore is left as it was.  A request that fails one
    of the preceding checks is answered with the code of that check,
    the keystore again left as it was. *)
Lemma load_key_counter_check (g : sheGlobals) (server : whServerContext)
    (packet : whPacket) (size : Z) (stk : sheStack) :
  config_ok = true ->
  big_endian_host = true ->
  let A := hsmSheLoadKey_auth g server packet stk in
  let L := hsmSheLoadKey_target server A in
  let r := hsmSheLoadKey g server packet size stk in
  let slot := hsmShePopId (sub 0 WOLFHSM_SHE_M1_SZ (lk_body A)) in
  let stored := read_key server slot (lk_keySz A) in
  let new_counter := be32 (sub 0 4 (sub 16 WOLFHSM_SHE_M2_SZ (lk_body A))) / 16 in
  (hsmSheLoadKey_uid server L = 0 ->
   rk_ret stored = 0 ->
   0 <= she_count (rk_meta stored) < 4294967296 ->
   new_counter <= she_count (rk_meta stored) ->
   res_ret r = WH_SHE_ERC_KEY_UPDATE_ERROR /\ res_server r = server)
  /\ (hsmSheLoadKey_uid server L <> 0 ->
      res_ret r = hsmSheLoadKey_uid server L /\ res_server r = server).
Proof.
  intros OK BE A L r slot stored new_counter.
  destruct (codes_nonzero_all OK) as (_ & _ & Hnf & _ & _ & _ & Hwp & Hkue & _).
  pose proof (load_key_rejected g server packet size stk) as Hrej.
  cbv zeta in Hrej. fold A in Hrej. fold L in Hrej. fold r in Hrej.
  clearbody r A.
  assert (Huid0 : hsmSheLoadKey_uid server L = 0 -> lk_ret L = 0).
  { clearbody L. unfold hsmSheLoadKey_uid.
    destruct (Z.eqb_spec (lk_ret L) 0) as [E|E]; [easy|].
    cbn [andb]. congruence. }
  assert (Htarget : lk_ret L = 0 -> rk_ret stored = 0 ->
                    lk_meta L = rk_meta stored /\ lk_keyRet L = 0
                    /\ lk_body L = lk_body A).
  { subst L. unfold hsmSheLoadKey_target.
    cbn [lk_ret lk_meta lk_keyRet lk_body].
    fold slot. fold stored. clearbody stored slot.
    intros HL Hex. rewrite Hex in HL |- *.
    destruct (Z.eqb_spec (lk_ret A) 0) as [E|E]; [|congruence].
    cbn [andb Z.eqb] in HL |- *.
    destruct (_ || _); [auto|congruence]. }
  clearbody L.
  split.
  - intros Huid Hex Hrange Hle.
    destruct (Htarget (Huid0 Huid) Hex) as (Hm & Hk & Hb).
    assert (Hc : hsmSheLoadKey_counter server L = WH_SHE_ERC_KEY_UPDATE_ERROR).
    { unfold hsmSheLoadKey_counter. cbv zeta. rewrite Huid, Hk, Hm, Hb.
      rewrite (counter_big_endian _ BE). fold new_counter.
      unfold ntohl. rewrite BE, (u32_small _ Hrange).
      apply not_eq_sym, Z.eqb_neq in Hnf. rewrite Hnf.
      apply Z.leb_le in Hle. now rewrite Hle. }
    destruct Hrej as (H1 & H2 & _); [congruence|].
    rewrite H1, Hc. auto.
  - intros Huid.
    assert (Hc : hsmSheLoadKey_counter server L = hsmSheLoadKey_uid server L).
    { unfold hsmSheLoadKey_counter. cbv zeta.
      apply Z.eqb_neq in Huid. now rewrite Huid. }
    destruct Hrej as (H1 & H2 & _); [congruence|].
    rewrite H1, Hc. auto.
Qed.

End LoadKeyProps.

(** * The model on concrete requests

    The statements below run the model with the sample configuration
    (big-endian host unless said otherwise), the stand-in cipher and
    the map keystore. *)

Section Samples.
Local Existing Instance sample_be.
Local Existing Instance sample_layout.
Local Existing Instance toy_crypto.
Local Existing Instance map_store.

(** *** Transport *)

(** C9 on the cleared buffers: [RecvRequest] and [RecvResponse] before
    any [SendRequest]. *)
Lemma notready_exact_and_idempotent_witness :
  fst (fst (wh_TransportMem_RecvRequest (Some sample_context) sample_shm
              (Some 0) (Some (repeat 0 16%nat)))) = WH_ERROR_NOTREADY
  /\ wh_TransportMem_RecvRequest (Some sample_context) sample_shm
       (Some 0) (Some (repeat 0 16%nat))
     = (WH_ERROR_NOTREADY, Some 0, Some (repeat 0 16%nat)).
Proof.
  pose proof (notready_exact_and_idempotent (CFG := sample_be) sample_context sample_shm 0
                (Some (repeat 0 16%nat)) (Some 0)
                ltac:(reflexivity) ltac:(vm_compute; lia))
    as (_ & Hrecv & _ & _ & _ & Hidem & _).
  assert (H : fst (fst (wh_TransportMem_RecvRequest (Some sample_context)
                          sample_shm (Some 0) (Some (repeat 0 16%nat))))
              = WH_ERROR_NOTREADY)
    by (apply Hrecv; reflexivity).
  split; [exact H|exact (Hidem H)].
Defined.

(** C8 on the sample buffers.  From the cleared buffers the client
    sends [de ad be ef] and the server receives these four bytes; with
    that request outstanding the server sends [ca fe] and the client
    receives these two bytes. *)
Lemma send_recv_roundtrip_witness :
  (exists m',
    wh_TransportMem_SendRequest (Some sample_context) sample_shm 4
      (Some [0xde; 0xad; 0xbe; 0xef]) = (0, m')
    /\ notify (req m') <> notify (resp m')
    /\ length (req_data m') = length (req_data sample_shm)
    /\ exists buf',
        wh_TransportMem_RecvRequest (Some sample_context) m' (Some 0)
          (Some (repeat 0 16%nat)) = (0, Some 4, Some buf')
        /\ sub 0 4 buf' = [0xde; 0xad; 0xbe; 0xef])
  /\ notify (req sample_shm_pending) <> notify (resp sample_shm_pending)
  /\ (exists m',
        wh_TransportMem_SendResponse (Some sample_context) sample_shm_pending 2
          (Some [0xca; 0xfe]) = (0, m')
        /\ notify (resp m') = notify (req m')
        /\ length (resp_data m') = length (resp_data sample_shm_pending)
        /\ exists buf',
            wh_TransportMem_RecvResponse (Some sample_context) m' (Some 0)
              (Some (repeat 0 16%nat)) = (0, Some 2, Some buf')
            /\ sub 0 2 buf' = [0xca; 0xfe]).
Proof.
  split; [|split; [discriminate|]].
  - exact (proj1 (send_recv_roundtrip (CFG := sample_be) sample_context
                    sample_context sample_shm 4
                    [0xde; 0xad; 0xbe; 0xef] (repeat 0 16%nat) 0
                    ltac:(simpl; lia) ltac:(simpl; lia)
                    ltac:(lia) ltac:(reflexivity) ltac:(simpl; lia))
                 ltac:(reflexivity) ltac:(simpl; lia)).
  - exact (proj2 (send_recv_roundtrip (CFG := sample_be) sample_context
                    sample_context sample_shm_pending 2
                    [0xca; 0xfe] (repeat 0 16%nat) 0
                    ltac:(simpl; lia) ltac:(simpl; lia)
                    ltac:(lia) ltac:(reflexivity) ltac:(simpl; lia))
                 ltac:(simpl; lia)).
Defined.

(** *** Dispatcher *)

(** C2 at process start: LOAD_KEY before SET_UID. *)
Lemma gate_sequence_error_witness :
  wh_Server_HandleSheRequest sheGlobals_init
    (Some (sample_server true (sample_store None) sample_uid))
    WH_SHE_LOAD_KEY (Some (mkPacket 0 request_counter_1)) (Some 72) sample_stack
  = mkOutcome 0 sheGlobals_init
      (Some (sample_server true (sample_store None) sample_uid))
      (Some (mkPacket WH_SHE_ERC_SEQUENCE_ERROR request_counter_1))
      (Some 12).
Proof.
  exact (proj2 (gate_sequence_error (CFG := sample_be) sheGlobals_init
                  (sample_server true (sample_store None) sample_uid)
                  WH_SHE_LOAD_KEY (mkPacket 0 request_counter_1) 72 sample_stack
                  ltac:(reflexivity))
               ltac:(vm_compute; lia) ltac:(reflexivity)).
Defined.

(** C10 once booted: the action code 99. *)
Lemma unknown_action_general_error_witness :
  wh_Server_HandleSheRequest sheGlobals_booted
    (Some (sample_server true (sample_store None) sample_uid))
    99 (Some (mkPacket 0 (repeat 0 8%nat))) (Some 8) sample_stack
  = mkOutcome 0 sheGlobals_booted
      (Some (sample_server true (sample_store None) sample_uid))
      (Some (mkPacket WH_SHE_ERC_GENERAL_ERROR (repeat 0 8%nat)))
      (Some 12).
Proof.
  exact (unknown_action_general_error (CFG := sample_be) sheGlobals_booted
           (sample_server true (sample_store None) sample_uid)
           99 (mkPacket 0 (repeat 0 8%nat)) 8 sample_stack
           ltac:(reflexivity) ltac:(vm_compute; lia)
           ltac:(vm_compute; lia) ltac:(reflexivity)).
Defined.

(** *** Pseudo-random numbers *)


(** *** Secure boot *)

(** C5 in state FINISH with the matching digest stored. *)
Lemma secure_boot_finish_outcome_witness :
  let server := sample_server true (sample_boot_store (Some sample_boot_mac)) sample_uid in
  let o := wh_Server_HandleSheRequest sheGlobals_finish (Some server)
             WH_SHE_SECURE_BOOT_FINISH (Some packet_boot_finish) (Some 8)
             sample_stack in
  response_rc o = Some WOLFHSM_SHE_ERC_NO_ERROR
  /\ hsmSheSbState (out_glob o) = WOLFHSM_SHE_SB_SUCCESS.
Proof.
  intros server o.
  destruct (secure_boot_finish_outcome (CFG := sample_be) sheGlobals_finish
              server packet_boot_finish 8 sample_stack
              ltac:(reflexivity) ltac:(simpl; lia) ltac:(reflexivity)
              ltac:(reflexivity))
    as (_ & Hok & _).
  exact (Hok ltac:(reflexivity) ltac:(reflexivity)).
Defined.

(** C5 as worded does not hold: a secure boot run from process
    start (SET_UID, INIT with [sz = 4], UPDATE with the four bytes)
    reaches FINISH; with a stored digest that differs from the computed
    CMAC, the FINISH request is answered with [GENERAL_ERROR] and the
    state on return is INIT, not FAILURE. *)
Lemma secure_boot_failure_not_observable :
  let server := sample_server true (sample_boot_store (Some zero_block)) [] in
  let o1 := wh_Server_HandleSheRequest sheGlobals_init (Some server)
              WH_SHE_SET_UID (Some packet_set_uid) (Some 24) sample_stack in
  let o2 := wh_Server_HandleSheRequest (out_glob o1) (out_server o1)
              WH_SHE_SECURE_BOOT_INIT (Some packet_boot_init) (Some 16)
              sample_stack in
  let o3 := wh_Server_HandleSheRequest (out_glob o2) (out_server o2)
              WH_SHE_SECURE_BOOT_UPDATE (Some packet_boot_update) (Some 20)
              sample_stack in
  let o4 := wh_Server_HandleSheRequest (out_glob o3) (out_server o3)
              WH_SHE_SECURE_BOOT_FINISH (Some packet_boot_finish) (Some 8)
              sample_stack in
  out_glob o3 = sheGlobals_finish
  /\ cf_out (wc_CmacFinal (sheCmac (out_glob o3))) = sample_boot_mac
  /\ sample_boot_mac <> zero_block
  /\ response_rc o4 = Some WH_SHE_ERC_GENERAL_ERROR
  /\ hsmSheSbState (out_glob o4) = WOLFHSM_SHE_SB_INIT
  /\ hsmSheSbState (out_glob o4) <> WOLFHSM_SHE_SB_FAILURE.
Proof.
  vm_compute. repeat split; discriminate.
Qed.

(** During a secure boot, after SET_UID and INIT with [sz = 4], an
    UPDATE announcing 8 bytes is refused and the boot state reset. *)
Lemma secure_boot_update_counter_sample :
  let server := sample_server true (sample_boot_store None) [] in
  let o1 := wh_Server_HandleSheRequest sheGlobals_init (Some server)
              WH_SHE_SET_UID (Some packet_set_uid) (Some 24) sample_stack in
  let o2 := wh_Server_HandleSheRequest (out_glob o1) (out_server o1)
              WH_SHE_SECURE_BOOT_INIT (Some packet_boot_init) (Some 16)
              sample_stack in
  let packet := mkPacket 0 ([0; 0; 0; 8; 0; 0; 0; 0] ++ repeat 0xEE 8%nat) in
  let o := wh_Server_HandleSheRequest (out_glob o2) (Some server)
             WH_SHE_SECURE_BOOT_UPDATE (Some packet) (Some 24) sample_stack in
  hsmSheSbState (out_glob o2) = WOLFHSM_SHE_SB_UPDATE
  /\ response_rc o = Some WH_SHE_ERC_SEQUENCE_ERROR
  /\ hsmSheSbState (out_glob o) = WOLFHSM_SHE_SB_INIT
  /\ hsmSheBlSize (out_glob o) = 0
  /\ hsmSheBlSizeReceived (out_glob o) = 0
  /\ hsmSheCmacKeyFound (out_glob o) = 0.
Proof.
  intros server o1 o2 packet o.
  destruct (proj1 (secure_boot_update_counter (CFG := sample_be) (out_glob o2)
                     server packet 24 sample_stack
                     ltac:(reflexivity)
                     ltac:(apply she_reachable_step, she_reachable_step,
                                 she_reachable_init))
                  ltac:(reflexivity))
    as (_ & H2 & H3 & H4 & H5 & H6).
  split; [reflexivity|]. exact (conj H2 (conj H3 (conj H4 (conj H5 H6)))).
Defined.

(** C6, at the failing input.  A secure boot from process start:
    SET_UID, SECURE_BOOT_INIT announcing 4 bytes, SECURE_BOOT_UPDATE
    with one byte, then SECURE_BOOT_UPDATE whose [sz] field is
    [ff ff ff ff].  The cumulative size, [1 + 4294967295], exceeds 4,
    but the [uint32_t] sum wraps to 0: the last request is not answered
    with [SEQUENCE_ERROR], [rc] is 0, and on return the state is still
    UPDATE with [hsmSheBlSize = 4] and [hsmSheBlSizeReceived = 0]. *)
Theorem secure_boot_update_counter_wraps :
  let server := sample_server true (sample_boot_store None) [] in
  let o1 := wh_Server_HandleSheRequest sheGlobals_init (Some server)
              WH_SHE_SET_UID (Some packet_set_uid) (Some 24) sample_stack in
  let o2 := wh_Server_HandleSheRequest (out_glob o1) (out_server o1)
              WH_SHE_SECURE_BOOT_INIT (Some packet_boot_init) (Some 16)
              sample_stack in
  let o3 := wh_Server_HandleSheRequest (out_glob o2) (out_server o2)
              WH_SHE_SECURE_BOOT_UPDATE (Some packet_boot_update_1) (Some 17)
              sample_stack in
  let o4 := wh_Server_HandleSheRequest (out_glob o3) (out_server o3)
              WH_SHE_SECURE_BOOT_UPDATE (Some packet_boot_update_wrap) (Some 19)
              sample_stack in
  let sz := load32 (sub 0 4 (body packet_boot_update_wrap)) in
  (hsmSheSbState (out_glob o3) = WOLFHSM_SHE_SB_UPDATE
   /\ hsmSheBlSize (out_glob o3) = 4
   /\ hsmSheBlSizeReceived (out_glob o3) = 1)
  /\ sz = 4294967295
  /\ hsmSheBlSizeReceived (out_glob o3) + sz > hsmSheBlSize (out_glob o3)
  /\ out_ret o4 = 0
  /\ response_rc o4 = Some 0
  /\ response_rc o4 <> Some WH_SHE_ERC_SEQUENCE_ERROR
  /\ hsmSheSbState (out_glob o4) = WOLFHSM_SHE_SB_UPDATE
  /\ hsmSheSbState (out_glob o4) <> WOLFHSM_SHE_SB_INIT
  /\ hsmSheBlSize (out_glob o4) = 4
  /\ hsmSheBlSizeReceived (out_glob o4) = 0.
Proof.
  intros server o1 o2 o3 o4 sz.
  set (server3 := sample_server true (sample_boot_store None) sample_uid).
  assert (Hs3 : out_server o3 = Some server3) by (vm_compute; reflexivity).
  assert (Hg3 : hsmSheSbState (out_glob o3) = WOLFHSM_SHE_SB_UPDATE
                /\ hsmSheBlSize (out_glob o3) = 4
                /\ hsmSheBlSizeReceived (out_glob o3) = 1
                /\ hsmSheUidSet (out_glob o3) = 1)
    by (vm_compute; repeat split; reflexivity).
  destruct Hg3 as (Hst & Hbl & Hrcv & Huid).
  assert (Hsz : sz = 4294967295) by (vm_compute; reflexivity).
  assert (Hreach : she_reachable (out_glob o3))
    by (subst o3 o2 o1; repeat apply she_reachable_step; apply she_reachable_init).
  pose proof (secure_boot_update_counter (CFG := sample_be) (out_glob o3) server3
                packet_boot_update_wrap 19 sample_stack eq_refl Hreach) as Hc.
  cbv zeta in Hc. fold sz in Hc. destruct Hc as (_ & Hacc & _).
  rewrite Hrcv, Hbl, Hsz, Hst in Hacc.
  destruct Hacc as (H1 & H2 & H3 & H4 & H5 & _);
    [rewrite Huid; discriminate | reflexivity | vm_compute; discriminate
    | reflexivity |].
  subst o4. rewrite Hs3, Hrcv, Hbl, Hsz, Hst, H1, H2, H3, H4, H5.
  repeat split; try reflexivity; try discriminate; vm_compute; discriminate.
Qed.

(** *** AES-MP16 *)

(** C4 on the 32 bytes [sample_auth_key | KEY_UPDATE_MAC_C]. *)
Lemma aes_mp16_correct_witness :
  let server := sample_server true (sample_store None) sample_uid in
  let msg := sample_auth_key ++ WOLFHSM_SHE_KEY_UPDATE_MAC_C in
  wh_AesMp16 (Some server) (Some msg) 32 (Some (repeat 0xFF 16%nat))
  = (0, Some (AES_MP16 msg))
  /\ length (AES_MP16 msg) = 16%nat.
Proof.
  intros server msg.
  exact (proj2 (aes_mp16_correct (CFG := sample_be) (CP := toy_crypto)
                  ltac:(reflexivity) toy_aes_direct_ok)
               server msg (repeat 0xFF 16%nat) ltac:(simpl; lia)).
Defined.

(** C4 as worded does not hold: for the nonzero length [2^31]
    (valid pointers, [2^31] zero bytes of input) the function returns 0
    and leaves in [out] what it held, which is no function of the
    input. *)
Lemma aes_mp16_length_beyond_int :
  let server := sample_server true (sample_store None) sample_uid in
  let in_ := repeat 0 (Z.to_nat 2147483648) in
  wh_AesMp16 (Some server) (Some in_) 2147483648 (Some (repeat 0x00 16%nat))
    = (0, Some (repeat 0x00 16%nat))
  /\ wh_AesMp16 (Some server) (Some in_) 2147483648 (Some (repeat 0xFF 16%nat))
    = (0, Some (repeat 0xFF 16%nat))
  /\ ~ (exists H : bytes, forall out0 : bytes,
          wh_AesMp16 (Some server) (Some in_) 2147483648 (Some out0)
          = (0, Some H)).
Proof.
  intros server in_. clearbody in_.
  split; [apply wh_AesMp16_int_min|]. split; [apply wh_AesMp16_int_min|].
  intros [H HH].
  pose proof (HH []) as H1. pose proof (HH [0]) as H2.
  rewrite wh_AesMp16_int_min in H1, H2. congruence.
Qed.

(** *** LOAD_KEY *)

(** Big-endian host, slot 4 holding counter 5, flags clear: a request
    with counter 1 is refused. *)
Lemma load_key_counter_check_witness :
  let server := sample_server true (sample_store (Some (0, 5))) sample_uid in
  let r := hsmSheLoadKey sheGlobals_booted server
             (mkPacket 0 request_counter_1) 72 sample_stack in
  res_ret r = WH_SHE_ERC_KEY_UPDATE_ERROR /\ res_server r = server.
Proof.
  intros server r.
  exact (proj1 (load_key_counter_check (CFG := sample_be) sheGlobals_booted
                  server (mkPacket 0 request_counter_1) 72 sample_stack
                  ltac:(reflexivity) ltac:(reflexivity))
               ltac:(reflexivity) ltac:(reflexivity)
               ltac:(vm_compute; split; [discriminate|reflexivity])
               ltac:(vm_compute; discriminate)).
Defined.

(** The write-protection check comes before the counter check: slot 4
    exists with counter 5 and [WRITE_PROTECT] set; the request carries
    counter 1, which does not exceed 5, and is answered with
    [WRITE_PROTECTED], not [KEY_UPDATE_ERROR]. *)
Lemma load_key_write_protected_first :
  let server := sample_server true (sample_store (Some (0x01, 5))) sample_uid in
  let packet := mkPacket 0 request_counter_1 in
  let A := hsmSheLoadKey_auth sheGlobals_booted server packet sample_stack in
  let r := hsmSheLoadKey sheGlobals_booted server packet 72 sample_stack in
  read_key server 4 16
    = (0, mkMeta (sample_keyid 4) 16 0x01 5, repeat 0x22 16%nat)
  /\ hsmShePopId (sub 0 16 request_counter_1) = 4
  /\ be32 (sub 0 4 (sub 16 32 (lk_body A))) / 16 = 1
  /\ res_ret r = WH_SHE_ERC_WRITE_PROTECTED
  /\ res_ret r <> WH_SHE_ERC_KEY_UPDATE_ERROR.
Proof.
  vm_compute. repeat split; discriminate.
Qed.

(** Big-endian host: after a LOAD_KEY with counter 2 on the empty slot
    4, a second LOAD_KEY whose decrypted M2 starts [00 00 00 1F]
    (counter 1) is answered with [KEY_UPDATE_ERROR] and the key of the
    first request stays. *)
Lemma load_key_counter_big_endian :
  let server := sample_server true (sample_store None) sample_uid in
  let r1 := hsmSheLoadKey sheGlobals_booted server
              (mkPacket 0 request_counter_2) 72 sample_stack in
  let r2 := hsmSheLoadKey sheGlobals_booted (res_server r1)
              (mkPacket 0 request_counter_1_flags) 72 sample_stack in
  res_ret r1 = 0
  /\ res_ret r2 = WH_SHE_ERC_KEY_UPDATE_ERROR
  /\ snd <$> (nvm (res_server r2) !! sample_keyid 4) = Some (repeat 0x33 16%nat).
Proof.
  vm_compute. repeat split; reflexivity.
Qed.

(** C3, at the failing input: M1 carries the UID bytes
    [01 00 .. 00], neither all zero nor the UID of the server; slot 4
    has [WILDCARD] set.  [XMEMEQZERO] does not look at the first byte,
    the handler takes the wildcard branch, and the request is accepted:
    it returns 0 and the key of slot 4 is replaced. *)
Theorem load_key_uid_check_failing_input :
  let server := sample_server true (sample_store (Some (0x10, 0))) sample_uid in
  let packet := mkPacket 0 request_uid_first_byte in
  let L := hsmSheLoadKey_target server
             (hsmSheLoadKey_auth sheGlobals_booted server packet sample_stack) in
  let r := hsmSheLoadKey sheGlobals_booted server packet 72 sample_stack in
  let uid_bytes := sub 0 WOLFHSM_SHE_UID_SZ request_uid_first_byte in
  lk_ret L = 0
  /\ uid_bytes <> repeat 0 15%nat
  /\ uid_bytes <> sheUid server
  /\ XMEMEQZERO uid_bytes WOLFHSM_SHE_UID_SZ = 1
  /\ hsmSheLoadKey_uid server L = 0
  /\ res_ret r = 0
  /\ snd <$> (nvm (res_server r) !! sample_keyid 4) = Some (repeat 0x33 16%nat).
Proof.
  vm_compute. repeat split; discriminate.
Qed.

End Samples.

(** * The counter check on a little-endian host *)

Section SamplesLittleEndian.
Local Existing Instance sample_le.
Local Existing Instance sample_layout.
Local Existing Instance toy_crypto.
Local Existing Instance map_store.

(** C1, at the failing input, on a host whose byte order is
    little-endian.  Slot 4 is empty.  A first LOAD_KEY whose decrypted
    M2 starts [00 00 00 20] (counter 2) is accepted and stores its key
    with that counter.  A second LOAD_KEY for the same slot whose
    decrypted M2 starts [00 00 00 1F] carries counter 1, which does not
    exceed 2.  The code compares [ntohl(word >> 4)], where
    [ntohl(word) >> 4] is the counter: for this word that value is
    0xF001, above the stored 2.  The second request is accepted: the
    handler returns 0, not [KEY_UPDATE_ERROR], and the key of slot 4 is
    replaced. *)
Theorem load_key_counter_little_endian :
  let server := sample_server false (sample_store None) sample_uid in
  let first := mkPacket 0 request_counter_2 in
  let second := mkPacket 0 request_counter_1_flags in
  let word (s : whServerContext) (p : whPacket) :=
    sub 0 4 (sub 16 WOLFHSM_SHE_M2_SZ
               (lk_body (hsmSheLoadKey_auth sheGlobals_booted s p sample_stack))) in
  let r1 := hsmSheLoadKey sheGlobals_booted server first 72 sample_stack in
  let stored := read_key (res_server r1) 4 WOLFHSM_SHE_KEY_SZ in
  let r2 := hsmSheLoadKey sheGlobals_booted (res_server r1) second 72
              sample_stack in
  (word server first = [0; 0; 0; 0x20]
   /\ be32 (word server first) / 16 = 2
   /\ res_ret r1 = 0
   /\ rk_ret stored = 0
   /\ rk_key stored = repeat 0x33 16%nat
   /\ ntohl (she_count (rk_meta stored)) = 2)
  /\ (word (res_server r1) second = [0; 0; 0; 0x1F]
      /\ be32 (word (res_server r1) second) / 16 = 1
      /\ ntohl (Z.shiftr (load32 (word (res_server r1) second)) 4) = 0xF001)
  /\ res_ret r2 = 0
  /\ res_ret r2 <> WH_SHE_ERC_KEY_UPDATE_ERROR
  /\ rk_key (read_key (res_server r2) 4 WOLFHSM_SHE_KEY_SZ) = repeat 0x44 16%nat.
Proof.
  vm_compute. repeat split; try reflexivity; discriminate.
Qed.

End SamplesLittleEndian.

Ltac proj_simpl_all :=
  cbn [res_ret res_glob res_server res_packet res_size
       out_ret out_glob out_server out_data out_size
       hsmShePrngState WOLFHSM_SHE_PRNG_KEY hsmSheSbState hsmSheCmacKeyFound
       hsmSheRamKeyPlain hsmSheUidSet hsmSheBlSize hsmSheBlSizeReceived
       hsmSheRndInited sheCmac rc body set_rc set_body response_rc
       sheUid client_id nvm set_server_nvm set_server_uid
       cmac_key cmac_msg] in *.

(** * Further properties of the transport *)

Lemma copy_in (region data : bytes) (l : Z) :
  Z.of_nat (length data) = l ->
  sub 0 l (if negb (l =? 0) then memcpy region data l else region) = data.
Proof.
  intros Hd. destruct (Z.eqb_spec l 0) as [->|Hnz]; simpl.
  - destruct data; [reflexivity|simpl in Hd; lia].
  - rewrite sub_0_memcpy by lia. now apply sub_0_all.
Qed.

Lemma copy_out (buf region : bytes) (l : Z) :
  0 <= l <= Z.of_nat (length region) ->
  sub 0 l (if negb (l =? 0) then memcpy buf region l else buf) = sub 0 l region.
Proof.
  intros Hl. destruct (Z.eqb_spec l 0) as [->|Hnz]; simpl.
  - reflexivity.
  - now apply sub_0_memcpy.
Qed.

Lemma length_copy_in (region data : bytes) (l : Z) :
  Z.of_nat (length data) = l ->
  l <= Z.of_nat (length region) ->
  length (if negb (l =? 0) then memcpy region data l else region) = length region.
Proof.
  intros Hd Hr. destruct (l =? 0); simpl; [reflexivity|].
  apply length_memcpy; lia.
Qed.

Lemma if_Some {A : Type} (b : bool) (x y : A) :
  (if b then Some x else Some y) = Some (if b then x else y).
Proof. now destruct b. Qed.

Section TransportLifecycle.
Context `{CFG : whConfig}.
Hypothesis OK : config_ok = true.

(** X1.  [wh_TransportMem_Init] succeeds exactly when the context and
    the configuration are given, both buffer pointers of the
    configuration are non-null and both sizes are nonzero.  On success
    the context holds the two sizes and is marked initialised; otherwise
    the result is [WH_ERROR_BADARGS] and the context is left as it
    was. *)
Theorem transport_init_validates (c : option whTransportMemContext)
    (cf : option whTransportMemConfig) :
  let r := wh_TransportMem_Init c cf in
  (fst r = 0 <->
     is_Some c
     /\ exists config, cf = Some config
          /\ is_Some (cfg_req config) /\ cfg_req_size config <> 0
          /\ is_Some (cfg_resp config) /\ cfg_resp_size config <> 0)
  /\ (forall config, fst r = 0 -> cf = Some config ->
        snd r = Some (mkTCtx (cfg_req_size config) (cfg_resp_size config) 1))
  /\ (fst r <> 0 -> r = (WH_ERROR_BADARGS, c)).
Proof using OK.
  destruct (codes_nonzero_all OK) as (Hbad & _).
  unfold wh_TransportMem_Init.
  destruct c as [ctx|], cf as [config|]; cbn zeta.
  2-4: (split; [split; [cbn; congruence|]|split; [cbn; congruence|reflexivity]];
        intros (Hc & config' & Hcf & _);
        first [discriminate | destruct Hc; discriminate]).
  destruct config as [rq rqs rs rss]; cbn [cfg_req cfg_req_size cfg_resp cfg_resp_size].
  destruct rq as [[]|], rs as [[]|];
    destruct (Z.eqb_spec rqs 0) as [E1|E1], (Z.eqb_spec rss 0) as [E2|E2];
    cbn; (split; [split|split]); try congruence; try reflexivity;
    try (intros _; split; [eexists; reflexivity|];
         eexists; split; [reflexivity|repeat split; eauto; congruence]);
    try (intros (_ & config' & Hcf & H1 & H2 & H3 & H4);
         injection Hcf as <-; cbn in *;
         first [congruence | destruct H1; discriminate | destruct H3; discriminate]);
    try (intros config' _ Hcf; injection Hcf as <-; reflexivity).
Qed.

(** Clearing at least the eight bytes of the CSR clears the CSR and the
    bytes of the payload that are left of the size. *)
Lemma shm_memset0_whole (r : whShmbufferCsr) (d : bytes) (n : Z) :
  8 <= n -> shm_memset0 r d n = (csr_zero, memset d 0 (n - 8)).
Proof.
  intros Hn. unfold shm_memset0, memset, sizeof_csr. rewrite !upd_0, !repeat_length.
  replace (Z.to_nat n) with (8 + Z.to_nat (n - 8))%nat by lia.
  generalize (Z.to_nat (n - 8)) as k. intros k.
  rewrite repeat_app, <- app_assoc.
  assert (Hs : skipn (8 + k) (csr_bytes r ++ d) = skipn k d).
  { unfold csr_bytes, store16. destruct big_endian_host; reflexivity. }
  rewrite Hs. change (Z.to_nat 8) with 8%nat.
  cbn [repeat app skipn]. f_equal.
  unfold csr_of_bytes, load16, csr_zero.
  destruct big_endian_host; reflexivity.
Qed.

Local Arguments shm_memset0 : simpl never.


(** X3.  A context that is null, was never initialised, or has been
    cleaned up is refused by all four operations with
    [WH_ERROR_BADARGS]; the shared memory and the caller's buffers stay
    as they were.  [wh_TransportMem_Cleanup] itself only fails on a null
    context. *)
Theorem transport_uninitialised_refused (c : option whTransportMemContext)
    (ctx : whTransportMemContext) (m : whShm) (l : Z) (data : option bytes)
    (out_len : option Z) :
  (c = None \/ (exists c0, c = Some c0 /\ initialized c0 = 0)
   \/ c = snd (wh_TransportMem_Cleanup (Some ctx))) ->
  wh_TransportMem_SendRequest c m l data = (WH_ERROR_BADARGS, m)
  /\ wh_TransportMem_RecvRequest c m out_len data = (WH_ERROR_BADARGS, out_len, data)
  /\ wh_TransportMem_SendResponse c m l data = (WH_ERROR_BADARGS, m)
  /\ wh_TransportMem_RecvResponse c m out_len data = (WH_ERROR_BADARGS, out_len, data)
  /\ fst (wh_TransportMem_Cleanup (Some ctx)) = 0
  /\ fst (wh_TransportMem_Cleanup None) = WH_ERROR_BADARGS.
Proof.
  intros [-> | [(c0 & -> & H0) | ->]].
  - repeat split.
  - unfold wh_TransportMem_SendRequest, wh_TransportMem_RecvRequest,
      wh_TransportMem_SendResponse, wh_TransportMem_RecvResponse.
    rewrite H0. repeat split.
  - repeat split.
Qed.




End TransportLifecycle.

(** * Further properties of the SHE engine *)

(** ** The helpers of LOAD_KEY *)

Lemma forall_byte (f : Z -> bool) :
  forallb f (map Z.of_nat (List.seq 0 256)) = true ->
  forall b, 0 <= b < 256 -> f b = true.
Proof.
  intros H b Hb. rewrite List.forallb_forall in H. apply H.
  apply List.in_map_iff. exists (Z.to_nat b). split; [lia|].
  apply List.in_seq. lia.
Qed.

Section Helpers.
Context `{CFG : whConfig} `{LAY : whPacketLayout} `{CP : CryptoProvider}
        `{KS : Keystore}.

Lemma XMEMEQZERO_loop_spec (buffer : bytes) (fuel : nat) :
  forall size, size - 1 <= Z.of_nat fuel ->
    (XMEMEQZERO_loop fuel buffer size = 1
     <-> forall i, 1 <= i < size -> byte_at buffer i = 0)
    /\ (XMEMEQZERO_loop fuel buffer size = 0
        \/ XMEMEQZERO_loop fuel buffer size = 1).
Proof.
  induction fuel as [|fuel IH]; intros size Hf; cbn [XMEMEQZERO_loop].
  - split; [|now right]. split; [intros _ i Hi; lia|reflexivity].
  - destruct (Z.gtb_spec size 1) as [Hs|Hs].
    + destruct (Z.eqb_spec (byte_at buffer (size - 1)) 0) as [E|E]; cbn [negb].
      * destruct (IH (size - 1) ltac:(lia)) as [[H1 H2] H3].
        split; [|exact H3]. split.
        -- intros Hl i Hi. destruct (Z.eq_dec i (size - 1)) as [->|Hne];
             [exact E|apply (H1 Hl); lia].
        -- intros Hall. apply H2. intros i Hi. apply Hall. lia.
      * split; [|now left]. split; [discriminate|].
        intros Hall. exfalso. apply E, Hall. lia.
    + split; [|now right]. split; [intros _ i Hi; lia|reflexivity].
Qed.

(** X7.  [XMEMEQZERO(buffer, size)] returns 1 exactly when the bytes at
    the indices 1 .. size-1 are all zero, and 0 otherwise; the byte at
    index 0 takes no part, and for [size <= 1] the result is 1. *)
Theorem XMEMEQZERO_exact (buffer : bytes) (size : Z) :
  (XMEMEQZERO buffer size = 1
   <-> forall i, 1 <= i < size -> byte_at buffer i = 0)
  /\ (XMEMEQZERO buffer size = 0 \/ XMEMEQZERO buffer size = 1).
Proof.
  unfold XMEMEQZERO. apply XMEMEQZERO_loop_spec. lia.
Qed.

(** X8.  The last byte of M1 carries the two key identifiers:
    [hsmShePopId] is its high nibble and [hsmShePopAuthId] its low
    nibble, so the byte [(id << 4) | authId] that EXPORT_RAM_KEY writes
    for identifiers below 16 is read back as [id] and [authId]. *)
Theorem pop_ids_decode (messageOne : bytes) (id authId : Z) :
  let b := byte_at messageOne (WOLFHSM_SHE_M1_SZ - 1) in
  (0 <= hsmShePopId messageOne < 16
   /\ 0 <= hsmShePopAuthId messageOne < 16
   /\ b = 16 * hsmShePopId messageOne + hsmShePopAuthId messageOne)
  /\ (0 <= id < 16 -> 0 <= authId < 16 ->
      b = u8 (Z.lor (Z.shiftl id 4) authId) ->
      hsmShePopId messageOne = id /\ hsmShePopAuthId messageOne = authId).
Proof.
  intros b. unfold hsmShePopId, hsmShePopAuthId. fold b.
  pose proof (byte_at_range messageOne (WOLFHSM_SHE_M1_SZ - 1)) as Hb.
  fold b in Hb. clearbody b.
  assert (Hdec : ((0 <=? Z.shiftr (Z.land b 0xf0) 4)
                  && (Z.shiftr (Z.land b 0xf0) 4 <? 16)
                  && (0 <=? Z.land b 0x0f) && (Z.land b 0x0f <? 16)
                  && (b =? 16 * Z.shiftr (Z.land b 0xf0) 4 + Z.land b 0x0f))
                 = true).
  { revert b Hb. apply forall_byte. vm_compute. reflexivity. }
  rewrite !andb_true_iff in Hdec.
  destruct Hdec as ((((H1 & H2) & H3) & H4) & H5).
  apply Z.leb_le in H1, H3. apply Z.ltb_lt in H2, H4. apply Z.eqb_eq in H5.
  split; [repeat split; assumption|].
  intros Hid Hauth Henc.
  assert (Hsum : Z.lor (Z.shiftl id 4) authId = 16 * id + authId).
  { assert (H : forallb (fun i => forallb (fun a =>
                   Z.lor (Z.shiftl i 4) a =? 16 * i + a)
                   (map Z.of_nat (List.seq 0 16)))
                   (map Z.of_nat (List.seq 0 16)) = true) by (vm_compute; reflexivity).
    rewrite List.forallb_forall in H.
    specialize (H id). rewrite List.forallb_forall in H.
    apply Z.eqb_eq, H.
    - apply List.in_map_iff. exists (Z.to_nat id). split; [lia|apply List.in_seq; lia].
    - apply List.in_map_iff. exists (Z.to_nat authId). split; [lia|apply List.in_seq; lia]. }
  rewrite Hsum in Henc. unfold u8 in Henc. rewrite Z.mod_small in Henc by lia.
  lia.
Qed.

(** X9.  [hsmShePopFlags] takes five bits of M2: the low nibble of byte
    3 becomes the bits 4..7 of the result and the top bit of byte 4
    becomes bit 0.  The bits 1..3 of the result are always clear. *)
Theorem pop_flags_layout (messageTwo : bytes) :
  hsmShePopFlags messageTwo
  = 16 * (byte_at messageTwo 3 mod 16) + byte_at messageTwo 4 / 128
  /\ 0 <= hsmShePopFlags messageTwo < 256
  /\ Z.land (hsmShePopFlags messageTwo) 0x0e = 0.
Proof.
  unfold hsmShePopFlags.
  pose proof (byte_at_range messageTwo 3) as H3.
  pose proof (byte_at_range messageTwo 4) as H4.
  generalize dependent (byte_at messageTwo 4). intros b4 H4.
  generalize dependent (byte_at messageTwo 3). intros b3 H3.
  assert (Ha : ((Z.shiftl (Z.land b3 0x0f) 4 =? 16 * (b3 mod 16))
                && (b3 mod 16 <? 16) && (0 <=? b3 mod 16)) = true).
  { revert b3 H3. apply forall_byte. vm_compute. reflexivity. }
  assert (Hb : ((Z.shiftr (Z.land b4 0x80) 7 =? b4 / 128)
                && ((b4 / 128 =? 0) || (b4 / 128 =? 1))) = true).
  { revert b4 H4. apply forall_byte. vm_compute. reflexivity. }
  apply andb_true_iff in Ha. destruct Ha as [Ha Ha3].
  apply andb_true_iff in Ha. destruct Ha as [Ha1 Ha2].
  apply andb_true_iff in Hb. destruct Hb as [Hb1 Hb2].
  apply orb_true_iff in Hb2.
  apply Z.eqb_eq in Ha1, Hb1. apply Z.ltb_lt in Ha2. apply Z.leb_le in Ha3.
  rewrite Ha1, Hb1.
  generalize dependent (b3 mod 16). intros k _ Hk1 Hk2.
  generalize dependent (b4 / 128). intros e _ He.
  assert (H : forallb (fun k => forallb (fun e =>
                 (Z.lor (16 * k) e =? 16 * k + e)
                 && (Z.land (Z.lor (16 * k) e) 0x0e =? 0))
                 [0; 1]) (map Z.of_nat (List.seq 0 16)) = true)
    by (vm_compute; reflexivity).
  assert (Hk : List.In k (map Z.of_nat (List.seq 0 16))).
  { apply List.in_map_iff. exists (Z.to_nat k). split; [lia|apply List.in_seq; lia]. }
  assert (He' : List.In e [0; 1]).
  { destruct He as [He|He]; apply Z.eqb_eq in He; subst e; simpl; auto. }
  rewrite List.forallb_forall in H. specialize (H k Hk).
  rewrite List.forallb_forall in H. specialize (H e He').
  apply andb_true_iff in H. destruct H as [Hs Hl].
  apply Z.eqb_eq in Hs, Hl.
  rewrite Hs in *. repeat split; try assumption;
    destruct He as [He|He]; apply Z.eqb_eq in He; lia.
Qed.

End Helpers.

(** ** States of the engine *)

Lemma kept_or_set_if (c : bool) (d : Z) : kept_or_set d (if c then 1 else d).
Proof. destruct c; [now right|now left]. Qed.

Lemma kept_or_set_refl (d : Z) : kept_or_set d d.
Proof. now left. Qed.

Ltac sb_consts :=
  unfold WOLFHSM_SHE_SB_INIT, WOLFHSM_SHE_SB_UPDATE, WOLFHSM_SHE_SB_FINISH,
    WOLFHSM_SHE_SB_SUCCESS, WOLFHSM_SHE_SB_FAILURE in *.

Ltac wf_state :=
  first [ solve [left; repeat split; lia]
        | solve [right; left; repeat split; lia]
        | solve [right; right; left; repeat split; lia]
        | solve [right; right; right; split; [lia|first [left; lia | right; lia]]] ].

Ltac wf_solve :=
  intros;
  match goal with
  | H : _ /\ _ /\ _ /\ _ /\ _ /\ _ /\ _ |- _ =>
      let Hu := fresh "Hu" in let Hf := fresh "Hf" in let Hr := fresh "Hr" in
      let Hn := fresh "Hn" in let Hb := fresh "Hb" in let Hc := fresh "Hc" in
      let Hs := fresh "Hs" in
      destruct H as (Hu & Hf & Hr & Hn & Hb & Hc & Hs);
      split; [first [exact Hu | now left | now right]|];
      split; [first [exact Hf | now left | now right]|];
      split; [first [exact Hr | now left | now right]|];
      split; [first [exact Hn | now left | now right]|];
      clear Hu Hr Hn Hf;
      split; [lia|]; split; [lia|];
      first [ exact Hs
            | destruct Hs as [(?S1 & ?S2) | [(?S1 & ?S2 & ?S3)
                              | [(?S1 & ?S2 & ?S3) | (?S1 & ?S2)]]];
              try lia; wf_state ]
  end.

Section EngineStates.
Context `{CFG : whConfig} `{LAY : whPacketLayout} `{CP : CryptoProvider}
        `{KS : Keystore}.
Hypothesis OK : config_ok = true.

(** The flags a handler may touch are set to 1 or left alone. *)
Lemma she_switch_flags (g : sheGlobals) (server : whServerContext)
    (action : Z) (packet : whPacket) (size : Z) (stk : sheStack) :
  let r := she_switch g server action packet size stk in
  kept_or_set (hsmSheUidSet g) (hsmSheUidSet (res_glob r))
  /\ kept_or_set (hsmSheRamKeyPlain g) (hsmSheRamKeyPlain (res_glob r))
  /\ kept_or_set (hsmSheRndInited g) (hsmSheRndInited (res_glob r)).
Proof.
  unfold she_switch.
  destruct (action =? WH_SHE_SET_UID).
  { repeat split; [exact (kept_or_set_if _ _)|exact (kept_or_set_refl _)..]. }
  destruct (action =? WH_SHE_SECURE_BOOT_INIT);
    [repeat split; exact (kept_or_set_refl _)|].
  destruct (action =? WH_SHE_SECURE_BOOT_UPDATE);
    [repeat split; exact (kept_or_set_refl _)|].
  destruct (action =? WH_SHE_SECURE_BOOT_FINISH);
    [repeat split; exact (kept_or_set_refl _)|].
  destruct (action =? WH_SHE_GET_STATUS);
    [repeat split; exact (kept_or_set_refl _)|].
  destruct (action =? WH_SHE_LOAD_KEY).
  { split; [exact (kept_or_set_refl _)|].
    split; [exact (kept_or_set_if _ _)|exact (kept_or_set_refl _)]. }
  destruct (action =? WH_SHE_LOAD_PLAIN_KEY).
  { split; [exact (kept_or_set_refl _)|].
    split; [exact (kept_or_set_if _ _)|exact (kept_or_set_refl _)]. }
  destruct (action =? WH_SHE_EXPORT_RAM_KEY);
    [repeat split; exact (kept_or_set_refl _)|].
  destruct (action =? WH_SHE_INIT_RND).
  { split; [exact (kept_or_set_refl _)|].
    split; [exact (kept_or_set_refl _)|exact (kept_or_set_if _ _)]. }
  repeat match goal with
         | |- context [action =? ?c] =>
             destruct (action =? c); [repeat split; exact (kept_or_set_refl _)|]
         end.
  repeat split; exact (kept_or_set_refl _).
Qed.

(** A secure-boot request that is not followed by the reset returned
    0 or [NO_SECURE_BOOT]. *)
Lemma boot_not_reset (action ret : Z) :
  she_is_secure_boot action = true ->
  (she_is_secure_boot action && negb (she_final_ret ret =? 0)
   && negb (she_final_ret ret =? WH_SHE_ERC_NO_SECURE_BOOT)) = false ->
  ret = 0 \/ ret = WH_SHE_ERC_NO_SECURE_BOOT.
Proof using OK.
  intros Hb Hc. rewrite Hb in Hc. cbn [andb] in Hc.
  destruct (Z.eqb_spec (she_final_ret ret) 0) as [E|E].
  - left. now apply (she_final_ret_zero ret OK).
  - cbn [negb andb] in Hc. apply negb_false_iff, Z.eqb_eq in Hc.
    right. unfold she_final_ret in Hc.
    destruct (negb (ret =? 0) && negb (she_specific_error ret)); [|exact Hc].
    destruct (boot_codes OK) as (_ & _ & Hg). congruence.
Qed.

Lemma nsb0 : (WH_SHE_ERC_NO_SECURE_BOOT =? 0) = false.
Proof using OK.
  destruct (codes_nonzero_all OK) as (_&_&_&_&_&H&_). now apply Z.eqb_neq.
Qed.

Lemma boot_init_wf (g : sheGlobals) (server : whServerContext)
    (packet : whPacket) (size : Z) (stk : sheStack) :
  let r := hsmSheSecureBootInit g server packet size stk in
  she_wf g ->
  res_ret r = 0 \/ res_ret r = WH_SHE_ERC_NO_SECURE_BOOT ->
  she_wf (res_glob r).
Proof using OK.
  intros r. subst r.
  destruct (codes_nonzero_all OK) as (_&_&_& Hseq &_).
  destruct (boot_codes OK) as (Hseq' & _).
  pose proof (load32_range (sub 0 4 (body packet))) as Hsz.
  unfold hsmSheSecureBootInit, she_wf, she_flag. proj_simpl.
  destruct (Z.eqb_spec (hsmSheSbState g) WOLFHSM_SHE_SB_INIT) as [E|E];
    cbn [negb andb].
  - rewrite Z.eqb_refl. cbn [andb].
    destruct (rk_ret _ =? 0); cbn [negb andb].
    + rewrite Z.eqb_refl.
      destruct (wc_InitCmac_ex _ _ =? 0);
        repeat match goal with
               | |- context [if ?c =? 0 then _ else _] => destruct (c =? 0)
               end;
        sb_consts; wf_solve.
    + repeat (rewrite nsb0; cbn [negb andb]). sb_consts. wf_solve.
  - repeat (rewrite (seq0 OK); cbn [negb andb]). intros _ [H|H]; congruence.
Qed.

Lemma boot_update_wf (g : sheGlobals) (server : whServerContext)
    (packet : whPacket) (size : Z) :
  let r := hsmSheSecureBootUpdate g server packet size in
  she_wf g ->
  res_ret r = 0 \/ res_ret r = WH_SHE_ERC_NO_SECURE_BOOT ->
  she_wf (res_glob r).
Proof using OK.
  intros r. subst r.
  destruct (codes_nonzero_all OK) as (_&_&_& Hseq &_).
  destruct (boot_codes OK) as (Hseq' & _).
  unfold hsmSheSecureBootUpdate, she_wf, she_flag. proj_simpl.
  set (rcv := u32 (hsmSheBlSizeReceived g + load32 (sub 0 4 (body packet)))).
  assert (Hr : 0 <= rcv < 4294967296) by (apply Z.mod_pos_bound; lia).
  clearbody rcv.
  destruct (Z.eqb_spec (hsmSheSbState g) WOLFHSM_SHE_SB_UPDATE) as [E|E];
    cbn [negb andb].
  - rewrite Z.eqb_refl. cbn [andb].
    destruct (Z.gtb_spec rcv (hsmSheBlSize g)) as [Hgt|Hle].
    + repeat (rewrite (seq0 OK); cbn [negb andb]). intros _ [H|H]; congruence.
    + rewrite Z.eqb_refl.
      destruct (wc_CmacUpdate _ _ =? 0); cbn [andb];
        [destruct (Z.eqb_spec rcv (hsmSheBlSize g))|]; sb_consts; wf_solve.
  - repeat (rewrite (seq0 OK); cbn [negb andb]). intros _ [H|H]; congruence.
Qed.

Lemma boot_finish_wf (g : sheGlobals) (server : whServerContext)
    (packet : whPacket) (size : Z) (stk : sheStack) :
  let r := hsmSheSecureBootFinish g server packet size stk in
  she_wf g ->
  res_ret r = 0 \/ res_ret r = WH_SHE_ERC_NO_SECURE_BOOT ->
  she_wf (res_glob r).
Proof using OK.
  intros r. subst r.
  destruct (codes_nonzero_all OK) as (_&_&_& Hseq & Hkna &_&_&_&_& Hgen).
  destruct (boot_codes OK) as (Hseq' & Hkna' & Hgen').
  unfold hsmSheSecureBootFinish, she_wf, she_flag. proj_simpl.
  destruct (Z.eqb_spec (hsmSheSbState g) WOLFHSM_SHE_SB_FINISH) as [E|E];
    cbn [negb andb].
  - rewrite Z.eqb_refl.
    destruct (Z.eqb_spec (cf_ret (wc_CmacFinal (sheCmac g))) 0) as [F|F].
    + destruct (rk_ret _ =? 0); cbn [negb].
      * rewrite Z.eqb_refl. destruct (memeq _ _ _).
        -- sb_consts. wf_solve.
        -- intros _ [H|H]; congruence.
      * apply Z.eqb_neq in Hkna. rewrite Hkna.
        intros _ [H|H]; apply Z.eqb_neq in Hkna; congruence.
    + apply Z.eqb_neq in F. rewrite F. sb_consts. wf_solve.
  - repeat (rewrite (seq0 OK); cbn [negb andb]). intros _ [H|H]; congruence.
Qed.

Lemma she_reset_wf (g : sheGlobals) :
  she_flag (hsmSheUidSet g) -> she_flag (hsmSheRamKeyPlain g) ->
  she_flag (hsmSheRndInited g) -> she_wf (she_reset g).
Proof.
  unfold she_wf, she_reset, she_flag. proj_simpl. sb_consts. intros.
  repeat split; try assumption; try lia; auto.
Qed.

Lemma she_step_wf (g : sheGlobals) (server : option whServerContext)
    (action : Z) (data : option whPacket) (size : option Z) (stk : sheStack) :
  she_wf g ->
  she_wf (out_glob (wh_Server_HandleSheRequest g server action data size stk)).
Proof using OK.
  intros Hwf.
  destruct server as [srv|], data as [packet|], size as [sz|]; try exact Hwf.
  destruct (she_gate_blocks g action) eqn:G.
  { unfold wh_Server_HandleSheRequest. rewrite G. exact Hwf. }
  rewrite dispatch_open by exact G. proj_simpl.
  destruct (she_switch_flags g srv action packet sz stk) as (Fu & Fr & Fn).
  assert (Hkeep : forall d x, she_flag d -> kept_or_set d x -> she_flag x).
  { unfold she_flag, kept_or_set. intros d x Hd [->| ->]; auto. }
  pose proof Hwf as (Wu & Wf & Wr & Wn & _).
  pose proof (Hkeep _ _ Wu Fu) as Hu.
  pose proof (Hkeep _ _ Wr Fr) as Hr.
  pose proof (Hkeep _ _ Wn Fn) as Hn.
  destruct (_ && _ && _) eqn:Hc; [now apply she_reset_wf|].
  destruct (she_switch_cases g srv action packet sz stk) as [[Hb Hh]|Hf].
  - pose proof (boot_not_reset _ _ Hb Hc) as Hret.
    destruct Hh as [Hh|[Hh|Hh]]; rewrite Hh in Hret |- *.
    + now apply boot_init_wf.
    + now apply boot_update_wf.
    + now apply boot_finish_wf.
  - destruct Hf as (E1 & E2 & E3 & E4).
    destruct Hwf as (_ & _ & _ & _ & Hb & Hc' & Hs).
    unfold she_wf. rewrite E1, E2, E3, E4.
    repeat split; try assumption; lia.
Qed.

Lemma she_wf_reachable (g : sheGlobals) :
  she_reachable g -> she_wf g.
Proof using OK.
  induction 1 as [|g server action data size stk _ IH].
  - unfold she_wf, she_flag, sheGlobals_init. proj_simpl. sb_consts.
    repeat split; auto; try lia.
  - now apply she_step_wf.
Qed.


End EngineStates.

(** ** Labels of the dispatcher *)

Section Labels.
Context `{CFG : whConfig} `{LAY : whPacketLayout} `{CP : CryptoProvider}
        `{KS : Keystore}.
Hypothesis OK : config_ok = true.

Lemma she_switch_more (g : sheGlobals) (server : whServerContext)
    (packet : whPacket) (size : Z) (stk : sheStack) :
  she_switch g server WH_SHE_SET_UID packet size stk
    = hsmSheSetUid g server packet size
  /\ she_switch g server WH_SHE_SECURE_BOOT_INIT packet size stk
    = hsmSheSecureBootInit g server packet size stk
  /\ she_switch g server WH_SHE_GET_STATUS packet size stk
    = hsmSheGetStatus g server packet size
  /\ she_switch g server WH_SHE_LOAD_PLAIN_KEY packet size stk
    = hsmSheLoadPlainKey g server packet size
  /\ she_switch g server WH_SHE_EXPORT_RAM_KEY packet size stk
    = hsmSheExportRamKey g server packet size stk
  /\ she_switch g server WH_SHE_INIT_RND packet size stk
    = hsmSheInitRnd g server packet size stk
  /\ she_switch g server WH_SHE_EXTEND_SEED packet size stk
    = hsmSheExtendSeed g server packet size stk
  /\ she_switch g server WH_SHE_ENC_ECB packet size stk
    = hsmSheEncEcb g server packet size stk
  /\ she_switch g server WH_SHE_ENC_CBC packet size stk
    = hsmSheEncCbc g server packet size stk
  /\ she_switch g server WH_SHE_DEC_ECB packet size stk
    = hsmSheDecEcb g server packet size stk
  /\ she_switch g server WH_SHE_DEC_CBC packet size stk
    = hsmSheDecCbc g server packet size stk.
Proof using OK.
  destruct (config_ok_split OK) as [_ [_ [Hd _]]].
  unfold she_actions in Hd. unpack_distinct Hd.
  unfold she_switch. repeat split; decide_labels; reflexivity.
Qed.

Lemma she_is_secure_boot_more :
  she_is_secure_boot WH_SHE_SECURE_BOOT_INIT = true
  /\ she_is_secure_boot WH_SHE_SET_UID = false
  /\ she_is_secure_boot WH_SHE_GET_STATUS = false
  /\ she_is_secure_boot WH_SHE_LOAD_PLAIN_KEY = false
  /\ she_is_secure_boot WH_SHE_EXPORT_RAM_KEY = false
  /\ she_is_secure_boot WH_SHE_INIT_RND = false
  /\ she_is_secure_boot WH_SHE_EXTEND_SEED = false
  /\ she_is_secure_boot WH_SHE_ENC_ECB = false
  /\ she_is_secure_boot WH_SHE_ENC_CBC = false
  /\ she_is_secure_boot WH_SHE_DEC_ECB = false
  /\ she_is_secure_boot WH_SHE_DEC_CBC = false.
Proof using OK.
  destruct (config_ok_split OK) as [_ [_ [Hd _]]].
  unfold she_actions in Hd. unpack_distinct Hd.
  unfold she_is_secure_boot. repeat split; decide_labels; reflexivity.
Qed.

Lemma she_gate_set_uid (g : sheGlobals) :
  she_gate_blocks g WH_SHE_SET_UID = false.
Proof.
  unfold she_gate_blocks. rewrite Z.eqb_refl. cbn [negb andb].
  now rewrite !andb_false_r.
Qed.

Lemma she_gate_open_status (g : sheGlobals) :
  hsmSheUidSet g <> 0 -> she_gate_blocks g WH_SHE_GET_STATUS = false.
Proof using OK.
  intros Hu. destruct (config_ok_split OK) as (_ & _ & _ & _ & _ & _ & Es).
  unfold she_gate_blocks. rewrite Es, Z.eqb_refl.
  apply Z.eqb_neq in Hu. rewrite Hu. cbn [negb andb].
  now rewrite !andb_false_r.
Qed.

(** With no error from the handler the dispatcher passes its result
    on. *)
Lemma dispatch_ok (g : sheGlobals) (server : whServerContext) (action : Z)
    (packet : whPacket) (size : Z) (stk : sheStack) :
  she_gate_blocks g action = false ->
  let r := she_switch g server action packet size stk in
  res_ret r = 0 ->
  wh_Server_HandleSheRequest g (Some server) action (Some packet) (Some size) stk
  = mkOutcome 0 (res_glob r) (Some (res_server r))
      (Some (set_rc (res_packet r) 0)) (Some (res_size r)).
Proof.
  intros G r Hr. rewrite dispatch_open by exact G. fold r. rewrite Hr.
  unfold she_final_ret. cbn [Z.eqb negb andb]. now rewrite andb_false_r.
Qed.

(** With a specific error from a handler that is not a secure-boot
    handler, the dispatcher stores the code; the globals are those the
    handler left. *)
Lemma dispatch_error (g : sheGlobals) (server : whServerContext) (action : Z)
    (packet : whPacket) (size : Z) (stk : sheStack) (e : Z) :
  she_gate_blocks g action = false ->
  she_is_secure_boot action = false ->
  let r := she_switch g server action packet size stk in
  res_ret r = e -> e <> 0 -> she_specific_error e = true ->
  wh_Server_HandleSheRequest g (Some server) action (Some packet) (Some size) stk
  = mkOutcome 0 (res_glob r) (Some (res_server r))
      (Some (set_rc (res_packet r) e))
      (Some (u16 (WOLFHSM_PACKET_STUB_SIZE + sizeof_rc))).
Proof.
  intros G Hb r Hr He Hs. rewrite dispatch_open by exact G. fold r.
  rewrite Hr, Hb, (she_final_ret_specific _ Hs).
  apply Z.eqb_neq in He. now rewrite He.
Qed.

End Labels.

(** ** GET_STATUS *)

Lemma single_bit_spec (c : Z) :
  single_bit c = true -> exists k, 0 <= k < 8 /\ c = 2 ^ k.
Proof.
  unfold single_bit. rewrite !andb_true_iff.
  intros [[H0 H1] H2]. apply Z.ltb_lt in H0, H1. apply Z.eqb_eq in H2.
  exists (Z.log2 c). split; [|exact H2].
  split; [apply Z.log2_nonneg|].
  apply Z.log2_lt_pow2; [lia|]. exact H1.
Qed.

Lemma land_bit_testbit (x k : Z) :
  0 <= k -> (Z.land x (2 ^ k) <> 0 <-> Z.testbit x k = true).
Proof.
  intros Hk. split.
  - intros Hne. destruct (Z.testbit x k) eqn:E; [reflexivity|].
    exfalso. apply Hne. apply Z.bits_inj'. intros n Hn.
    rewrite Z.land_spec, Z.bits_0, Z.pow2_bits_eqb by exact Hk.
    destruct (Z.eqb_spec k n) as [<-|_]; [now rewrite E|apply andb_false_r].
  - intros Ht E.
    assert (Hb : Z.testbit (Z.land x (2 ^ k)) k = true).
    { rewrite Z.land_spec, Ht, Z.pow2_bits_eqb, Z.eqb_refl by exact Hk.
      reflexivity. }
    rewrite E, Z.bits_0 in Hb. discriminate.
Qed.

Lemma testbit_flag (c : bool) (j k : Z) :
  0 <= j -> Z.testbit (if c then 2 ^ j else 0) k = c && (j =? k).
Proof.
  intros Hj. destruct c; [now apply Z.pow2_bits_eqb|apply Z.bits_0].
Qed.

Lemma lor_flag (c : bool) (s x : Z) :
  (if c then Z.lor s x else s) = Z.lor s (if c then x else 0).
Proof. destruct c; [reflexivity|now rewrite Z.lor_0_r]. Qed.

Section GetStatus.
Context `{CFG : whConfig} `{LAY : whPacketLayout} `{CP : CryptoProvider}
        `{KS : Keystore}.
Hypothesis OK : config_ok = true.
Hypothesis BITS : sreg_bits_ok = true.

(** X11.  GET_STATUS, once the UID is set, always answers with [rc = 0]
    and changes neither the engine nor the server.  In every state the
    engine can be in, the status byte it returns tells: SECURE_BOOT is
    set exactly when the boot MAC key was found, BOOT_OK exactly when
    secure boot has succeeded, BOOT_FINISHED exactly when BOOT_OK is
    (a finished boot that failed is never reported), and RND_INIT
    exactly when the generator has been initialised. *)
Theorem get_status_decodes (g : sheGlobals) (server : whServerContext)
    (packet : whPacket) (size : Z) (stk : sheStack) :
  she_reachable g ->
  hsmSheUidSet g <> 0 ->
  let o := wh_Server_HandleSheRequest g (Some server) WH_SHE_GET_STATUS
             (Some packet) (Some size) stk in
  out_ret o = 0 /\ out_glob o = g /\ out_server o = Some server
  /\ out_size o = Some (u16 (WOLFHSM_PACKET_STUB_SIZE + sizeof_sheGetStatusRes))
  /\ exists p, out_data o = Some p /\ rc p = 0
       /\ let sreg := byte_at (body p) 0 in
          (Z.land sreg WOLFHSM_SHE_SREG_SECURE_BOOT <> 0
             <-> hsmSheCmacKeyFound g = 1)
          /\ (Z.land sreg WOLFHSM_SHE_SREG_BOOT_OK <> 0
             <-> hsmSheSbState g = WOLFHSM_SHE_SB_SUCCESS)
          /\ (Z.land sreg WOLFHSM_SHE_SREG_BOOT_FINISHED <> 0
             <-> hsmSheSbState g = WOLFHSM_SHE_SB_SUCCESS)
          /\ (Z.land sreg WOLFHSM_SHE_SREG_RND_INIT <> 0
             <-> hsmSheRndInited g = 1).
Proof using OK BITS.
  intros Hreach Hu o.
  pose proof (she_wf_reachable OK g Hreach) as (_ & Wf & _ & Wn & _ & _ & Ws).
  destruct (she_switch_more OK g server packet size stk) as (_ & _ & Hsw & _).
  destruct (she_is_secure_boot_more OK) as (_ & _ & Hb & _).
  assert (Hret : res_ret (she_switch g server WH_SHE_GET_STATUS packet size stk) = 0)
    by now rewrite Hsw.
  subst o. rewrite (dispatch_ok g server _ packet size stk
                      (she_gate_open_status OK g Hu) Hret).
  rewrite Hsw. unfold hsmSheGetStatus. proj_simpl.
  repeat (split; [reflexivity|]).
  eexists. split; [reflexivity|]. proj_simpl. split; [reflexivity|].
  cbv zeta.
  (* the status byte *)
  unfold sreg_bits_ok in BITS. rewrite !andb_true_iff in BITS.
  destruct BITS as ((((Ba & Bf) & Bo) & Br) & Bd).
  apply single_bit_spec in Ba, Bf, Bo, Br.
  destruct Ba as (ka & Hka & Ea), Bf as (kf & Hkf & Ef),
           Bo as (ko & Hko & Eo), Br as (kr & Hkr & Er).
  unpack_distinct Bd.
  rewrite Ea, Ef, Eo, Er in *.
  assert (Hinj : forall a b, 0 <= a -> 0 <= b -> 2 ^ a <> 2 ^ b -> (a =? b) = false).
  { intros a b _ _ Hne. apply Z.eqb_neq. congruence. }
  rewrite !lor_flag.
  assert (Hbyte : forall x k, 0 <= k < 8 ->
             Z.testbit (byte_at (upd 0 [u8 x] (body packet)) 0) k = Z.testbit x k).
  { intros x k Hk. rewrite upd_0. unfold byte_at.
    change (Z.to_nat 0) with 0%nat. cbn [app nth].
    unfold u8. change 256 with (2 ^ 8).
    rewrite Z.mod_mod by lia. apply Z.mod_pow2_bits_low. lia. }
  rewrite !land_bit_testbit by lia.
  rewrite !Hbyte by lia.
  rewrite !Z.lor_spec, !testbit_flag, !Z.bits_0 by lia.
  rewrite !Z.eqb_refl.
  repeat match goal with
         | |- context [?a =? ?b] =>
             lazymatch a with
             | ka => idtac | kf => idtac | ko => idtac | kr => idtac
             end;
             rewrite (Hinj a b) by (lia || congruence)
         end.
  rewrite ?andb_false_r, ?andb_true_r, ?orb_false_r, ?orb_false_l.
  unfold she_flag in Wf, Wn. sb_consts.
  repeat split; intros Hyp;
    repeat match goal with
           | H : context [?x =? ?y] |- _ => destruct (Z.eqb_spec x y)
           | |- context [?x =? ?y] => destruct (Z.eqb_spec x y)
           end; cbn in *; try reflexivity; try discriminate; try lia.
Qed.

End GetStatus.

(** ** SET_UID *)

Section SetUid.
Context `{CFG : whConfig} `{LAY : whPacketLayout} `{CP : CryptoProvider}
        `{KS : Keystore}.
Hypothesis OK : config_ok = true.

(** No handler but [hsmSheSetUid] writes [server->sheUid], and that one
    only while the UID flag is not 1. *)
Lemma she_switch_keeps_uid (g : sheGlobals) (server : whServerContext)
    (action : Z) (packet : whPacket) (size : Z) (stk : sheStack) :
  hsmSheUidSet g = 1 ->
  sheUid (res_server (she_switch g server action packet size stk)) = sheUid server.
Proof using OK.
  intros Hu. unfold she_switch.
  destruct (action =? WH_SHE_SET_UID).
  { unfold hsmSheSetUid. proj_simpl. rewrite Hu. cbn [Z.eqb Pos.eqb].
    now rewrite (seq0 OK). }
  repeat match goal with
         | |- context [action =? ?c] => destruct (action =? c); [reflexivity|]
         end.
  reflexivity.
Qed.

(** X12.  The UID is written once.  The first SET_UID is accepted in
    any state of the engine and stores the 15 bytes of the request as
    the server UID.  From then on no request of any kind changes the
    server UID or clears the UID flag, and a further SET_UID is answered
    with [SEQUENCE_ERROR], the engine left as it was. *)
Theorem uid_written_once (g : sheGlobals) (server : whServerContext)
    (action : Z) (packet : whPacket) (size : Z) (stk : sheStack) :
  let o := wh_Server_HandleSheRequest g (Some server) action (Some packet)
             (Some size) stk in
  (hsmSheUidSet g = 0 -> action = WH_SHE_SET_UID ->
     out_ret o = 0 /\ response_rc o = Some 0
     /\ hsmSheUidSet (out_glob o) = 1
     /\ exists s, out_server o = Some s
          /\ sheUid s = memcpy (sheUid server) (body packet) WOLFHSM_SHE_UID_SZ)
  /\ (hsmSheUidSet g = 1 ->
      hsmSheUidSet (out_glob o) = 1
      /\ (exists s, out_server o = Some s /\ sheUid s = sheUid server)
      /\ (action = WH_SHE_SET_UID ->
          response_rc o = Some WH_SHE_ERC_SEQUENCE_ERROR /\ out_glob o = g)).
Proof using OK.
  intros o.
  destruct (she_switch_more OK g server packet size stk) as (Hsw & _).
  destruct (she_is_secure_boot_more OK) as (_ & Hb & _).
  destruct specific_codes as (Hspec & _).
  destruct (codes_nonzero_all OK) as (_&_&_& Hseq &_).
  split.
  - intros Hu ->. subst o.
    assert (Hret : res_ret (she_switch g server WH_SHE_SET_UID packet size stk) = 0).
    { rewrite Hsw. unfold hsmSheSetUid. proj_simpl. now rewrite Hu. }
    rewrite (dispatch_ok g server _ packet size stk (she_gate_set_uid g) Hret).
    rewrite Hsw. unfold hsmSheSetUid. proj_simpl. rewrite Hu. cbn [Z.eqb].
    repeat split. eexists. split; reflexivity.
  - intros Hu. subst o.
    destruct (she_gate_blocks g action) eqn:G.
    { rewrite (she_gate_blocked g server action packet size stk G). proj_simpl.
      split; [exact Hu|]. split; [eexists; split; reflexivity|].
      intros ->. rewrite she_gate_set_uid in G. discriminate. }
    rewrite dispatch_open by exact G. proj_simpl.
    destruct (she_switch_flags g server action packet size stk) as (Fu & _).
    assert (Hu' : hsmSheUidSet (res_glob (she_switch g server action packet size stk)) = 1).
    { destruct Fu as [E|E]; congruence. }
    split; [destruct (_ && _ && _); [unfold she_reset; proj_simpl|]; exact Hu'|].
    split; [eexists; split; [reflexivity|now apply she_switch_keeps_uid]|].
    intros ->. rewrite Hb. cbn [andb]. rewrite Hsw.
    unfold hsmSheSetUid. proj_simpl. rewrite Hu. cbn [Z.eqb Pos.eqb].
    rewrite (seq0 OK), (she_final_ret_specific _ Hspec).
    split; [reflexivity|]. destruct g; cbn in *. now subst.
Qed.

End SetUid.

(** ** Secure boot *)

Lemma be32_be32_bytes (x : Z) (rest : bytes) :
  0 <= x < 4294967296 -> be32 (sub 0 4 (be32_bytes x ++ rest)) = x.
Proof.
  intros Hx. unfold be32_bytes. rewrite sub_0_firstn.
  change (Z.to_nat 4) with 4%nat. cbn [app firstn].
  unfold be32, byte_at, u8.
  change (Z.to_nat 0) with 0%nat. change (Z.to_nat 1) with 1%nat.
  change (Z.to_nat 2) with 2%nat. change (Z.to_nat 3) with 3%nat.
  cbn [nth]. rewrite !Z.mod_mod by lia.
  Z.div_mod_to_equations. lia.
Qed.

Lemma le32_le32_bytes (x : Z) (rest : bytes) :
  0 <= x < 4294967296 -> le32 (sub 0 4 (le32_bytes x ++ rest)) = x.
Proof.
  intros Hx. unfold le32_bytes. rewrite sub_0_firstn.
  change (Z.to_nat 4) with 4%nat. cbn [app firstn].
  unfold le32, byte_at, u8.
  change (Z.to_nat 0) with 0%nat. change (Z.to_nat 1) with 1%nat.
  change (Z.to_nat 2) with 2%nat. change (Z.to_nat 3) with 3%nat.
  cbn [nth]. rewrite !Z.mod_mod by lia.
  Z.div_mod_to_equations. lia.
Qed.

Lemma load32_store32 `{CFG : whConfig} (x : Z) (rest : bytes) :
  0 <= x < 4294967296 -> load32 (sub 0 4 (store32 x ++ rest)) = x.
Proof.
  intros Hx. unfold load32, store32.
  destruct big_endian_host; [now apply be32_be32_bytes|now apply le32_le32_bytes].
Qed.

Lemma length_store32 `{CFG : whConfig} (x : Z) : length (store32 x) = 4%nat.
Proof. unfold store32. now destruct big_endian_host. Qed.

Section SecureBoot.
Context `{CFG : whConfig} `{LAY : whPacketLayout} `{CP : CryptoProvider}
        `{KS : Keystore}.
Hypothesis OK : config_ok = true.

(** X13.  Secure boot without a key.  When the keystore holds no boot
    MAC key, SECURE_BOOT_INIT in the INIT state is answered with
    [NO_SECURE_BOOT], and the engine is left in the SUCCESS state with
    the key-found flag clear: the dispatcher does not reset it, and from
    then on the sequencing gate lets every action through. *)
Theorem secure_boot_without_key (g : sheGlobals) (server : whServerContext)
    (packet : whPacket) (size : Z) (stk : sheStack) :
  hsmSheUidSet g <> 0 ->
  hsmSheSbState g = WOLFHSM_SHE_SB_INIT ->
  rk_ret (read_key server WOLFHSM_SHE_BOOT_MAC_KEY_ID WOLFHSM_SHE_KEY_SZ) <> 0 ->
  let o := wh_Server_HandleSheRequest g (Some server) WH_SHE_SECURE_BOOT_INIT
             (Some packet) (Some size) stk in
  out_ret o = 0
  /\ response_rc o = Some WH_SHE_ERC_NO_SECURE_BOOT
  /\ out_server o = Some server
  /\ hsmSheSbState (out_glob o) = WOLFHSM_SHE_SB_SUCCESS
  /\ hsmSheCmacKeyFound (out_glob o) = 0
  /\ hsmSheUidSet (out_glob o) = hsmSheUidSet g
  /\ forall action, she_gate_blocks (out_glob o) action = false.
Proof using OK.
  intros Hu Hs Hk o.
  destruct (she_switch_more OK g server packet size stk) as (_ & Hsw & _).
  destruct (she_is_secure_boot_more OK) as (Hb & _).
  destruct specific_codes as (_ & _ & Hspec & _).
  assert (G : she_gate_blocks g WH_SHE_SECURE_BOOT_INIT = false)
    by now apply she_gate_open_boot.
  assert (Hh : res_ret (hsmSheSecureBootInit g server packet size stk)
               = WH_SHE_ERC_NO_SECURE_BOOT
               /\ hsmSheSbState (res_glob (hsmSheSecureBootInit g server packet size stk))
                  = WOLFHSM_SHE_SB_SUCCESS
               /\ hsmSheCmacKeyFound (res_glob (hsmSheSecureBootInit g server packet size stk))
                  = 0
               /\ res_packet (hsmSheSecureBootInit g server packet size stk) = packet).
  { unfold hsmSheSecureBootInit. proj_simpl.
    apply Z.eqb_neq in Hk.
    repeat progress (rewrite ?Hs, ?Hk, ?Z.eqb_refl, ?(nsb0 OK); cbn [negb andb]).
    repeat split. }
  destruct Hh as (Hret & Hsb & Hf & Hp).
  subst o. rewrite dispatch_open by exact G. rewrite Hsw, Hret, Hb.
  rewrite (she_final_ret_specific _ Hspec), Z.eqb_refl.
  cbn [negb andb]. rewrite andb_false_r. proj_simpl.
  repeat (split; [first [reflexivity | assumption]|]).
  intros action. apply she_gate_open; [exact Hu|exact Hsb].
Qed.

(** X14.  A secure-boot request after a completed boot.  In the SUCCESS
    state each of SECURE_BOOT_INIT, SECURE_BOOT_UPDATE and
    SECURE_BOOT_FINISH is answered with [SEQUENCE_ERROR], and the reset
    that follows takes the engine back to INIT: the gate then refuses
    every action outside SET_UID, GET_STATUS and the secure-boot
    actions until a secure boot has been run again. *)
Theorem secure_boot_request_after_success (g : sheGlobals)
    (server : whServerContext) (action : Z) (packet : whPacket) (size : Z)
    (stk : sheStack) :
  hsmSheUidSet g <> 0 ->
  hsmSheSbState g = WOLFHSM_SHE_SB_SUCCESS ->
  she_is_secure_boot action = true ->
  let o := wh_Server_HandleSheRequest g (Some server) action (Some packet)
             (Some size) stk in
  out_ret o = 0
  /\ response_rc o = Some WH_SHE_ERC_SEQUENCE_ERROR
  /\ out_glob o = she_reset g
  /\ hsmSheSbState (out_glob o) = WOLFHSM_SHE_SB_INIT
  /\ forall a, a <> WH_SHE_SET_UID -> a <> WH_SHE_GET_STATUS ->
       she_is_secure_boot a = false ->
       she_gate_blocks (out_glob o) a = true.
Proof using OK.
  intros Hu Hs Hb o.
  destruct (codes_nonzero_all OK) as (_&_&_& Hseq &_).
  destruct (boot_codes OK) as (Hseq' & _).
  destruct specific_codes as (Hspec & _).
  destruct (config_ok_split OK) as (_ & _ & _ & Ei & Eu & Ef & Es).
  assert (G : she_gate_blocks g action = false) by now apply she_gate_open_boot.
  assert (Hh : res_ret (she_switch g server action packet size stk)
               = WH_SHE_ERC_SEQUENCE_ERROR
               /\ res_glob (she_switch g server action packet size stk) = g).
  { destruct (she_switch_more OK g server packet size stk) as (_ & Hi & _).
    destruct (she_switch_labels g server packet size stk OK) as (Hup & Hfi & _).
    assert (Hact : action = WH_SHE_SECURE_BOOT_INIT
                   \/ action = WH_SHE_SECURE_BOOT_UPDATE
                   \/ action = WH_SHE_SECURE_BOOT_FINISH).
    { unfold she_is_secure_boot in Hb. rewrite !orb_true_iff, !Z.eqb_eq in Hb. tauto. }
    destruct Hact as [->|[->| ->]];
      [rewrite Hi; unfold hsmSheSecureBootInit
      |rewrite Hup; unfold hsmSheSecureBootUpdate
      |rewrite Hfi; unfold hsmSheSecureBootFinish];
      proj_simpl; rewrite Hs; sb_consts; cbn [Z.eqb Pos.eqb negb andb];
      repeat (rewrite (seq0 OK); cbn [negb andb]);
      (split; [reflexivity|]); destruct g; cbn in *; now subst. }
  destruct Hh as (Hret & Hg).
  destruct (dispatch_boot_error g server action packet size stk _ G Hb Hret
              Hseq Hseq' (she_final_ret_specific _ Hspec)) as (Hr & Hrc & Hgl).
  fold o in Hr, Hrc, Hgl. rewrite Hg in Hgl.
  split; [exact Hr|]. split; [exact Hrc|]. split; [exact Hgl|].
  rewrite Hgl. split; [reflexivity|].
  intros a Ha Hst Hnb. unfold she_gate_blocks, she_reset. proj_simpl.
  rewrite Ei, Eu, Ef, Es.
  unfold she_is_secure_boot in Hnb. rewrite !orb_false_iff in Hnb.
  destruct Hnb as ((H1 & H2) & H3). rewrite H1, H2, H3.
  apply Z.eqb_neq in Ha, Hst. rewrite Ha, Hst. reflexivity.
Qed.

Lemma boot_update_packet_fields (c : bytes) :
  4 <= sizeof_sheSecureBootUpdateReq ->
  Z.of_nat (length c) < 4294967296 ->
  load32 (sub 0 4 (body (boot_update_packet c))) = Z.of_nat (length c)
  /\ sub sizeof_sheSecureBootUpdateReq (Z.of_nat (length c))
         (body (boot_update_packet c)) = c.
Proof.
  intros Hsz Hc. unfold boot_update_packet. cbn [body]. split.
  - apply load32_store32. lia.
  - unfold sub. rewrite Nat2Z.id, app_assoc, skipn_app.
    rewrite skipn_all2
      by (rewrite length_app, length_store32, repeat_length; lia).
    rewrite length_app, length_store32, repeat_length.
    replace (Z.to_nat sizeof_sheSecureBootUpdateReq
             - (4 + Z.to_nat (sizeof_sheSecureBootUpdateReq - 4)))%nat
      with 0%nat by lia.
    cbn [app]. apply firstn_all.
Qed.

Section BootRun.
Hypothesis LAYOUT : 4 <= sizeof_sheSecureBootUpdateReq.
Hypothesis CMAC : forall cm d, wc_CmacUpdate cm d = 0.

Lemma boot_update_step (g : sheGlobals) (server : whServerContext)
    (stk : sheStack) (c : bytes) (sz : Z) :
  hsmSheUidSet g <> 0 ->
  hsmSheSbState g = WOLFHSM_SHE_SB_UPDATE ->
  0 <= hsmSheBlSizeReceived g ->
  hsmSheBlSizeReceived g + Z.of_nat (length c) <= hsmSheBlSize g ->
  hsmSheBlSize g < 4294967296 ->
  out_glob (wh_Server_HandleSheRequest g (Some server) WH_SHE_SECURE_BOOT_UPDATE
              (Some (boot_update_packet c)) (Some sz) stk)
  = mkGlobals (hsmShePrngState g) (WOLFHSM_SHE_PRNG_KEY g)
      (if hsmSheBlSizeReceived g + Z.of_nat (length c) =? hsmSheBlSize g
       then WOLFHSM_SHE_SB_FINISH else WOLFHSM_SHE_SB_UPDATE)
      (hsmSheCmacKeyFound g) (hsmSheRamKeyPlain g) (hsmSheUidSet g)
      (hsmSheBlSize g) (hsmSheBlSizeReceived g + Z.of_nat (length c))
      (hsmSheRndInited g)
      (mkCmac (cmac_key (sheCmac g)) (cmac_msg (sheCmac g) ++ c)).
Proof using OK LAYOUT CMAC.
  intros Hu Hs Hr0 Hle Hbl.
  destruct (she_switch_labels g server (boot_update_packet c) sz stk OK) as (Hsw & _).
  destruct (she_is_secure_boot_labels OK) as (Hb & _).
  assert (G : she_gate_blocks g WH_SHE_SECURE_BOOT_UPDATE = false)
    by now apply she_gate_open_boot.
  destruct (boot_update_packet_fields c LAYOUT ltac:(lia)) as (Hf1 & Hf2).
  assert (Hh : hsmSheSecureBootUpdate g server (boot_update_packet c) sz
               = mkResult 0
                   (mkGlobals (hsmShePrngState g) (WOLFHSM_SHE_PRNG_KEY g)
                      (if hsmSheBlSizeReceived g + Z.of_nat (length c)
                          =? hsmSheBlSize g
                       then WOLFHSM_SHE_SB_FINISH else WOLFHSM_SHE_SB_UPDATE)
                      (hsmSheCmacKeyFound g) (hsmSheRamKeyPlain g) (hsmSheUidSet g)
                      (hsmSheBlSize g)
                      (hsmSheBlSizeReceived g + Z.of_nat (length c))
                      (hsmSheRndInited g)
                      (mkCmac (cmac_key (sheCmac g)) (cmac_msg (sheCmac g) ++ c)))
                   server
                   (set_body (boot_update_packet c)
                      (upd 0 (store32 WOLFHSM_SHE_ERC_NO_ERROR)
                           (body (boot_update_packet c))))
                   (u16 (WOLFHSM_PACKET_STUB_SIZE + sizeof_sheSecureBootUpdateRes))).
  { unfold hsmSheSecureBootUpdate. rewrite Hf1, Hf2, Hs, Z.eqb_refl.
    cbn [negb andb Z.eqb].
    rewrite (u32_small (hsmSheBlSizeReceived g + Z.of_nat (length c))) by lia.
    assert ((hsmSheBlSizeReceived g + Z.of_nat (length c) >? hsmSheBlSize g) = false)
      as -> by (rewrite Z.gtb_ltb; apply Z.ltb_ge; lia).
    unfold cmac_update. rewrite !CMAC.
    repeat progress (rewrite ?Z.eqb_refl; cbn [negb andb Z.eqb]).
    reflexivity. }
  rewrite (dispatch_ok g server _ _ sz stk G) by (rewrite Hsw, Hh; reflexivity).
  rewrite Hsw, Hh. reflexivity.
Qed.

Lemma boot_updates_run (server : whServerContext) (stk : sheStack)
    (chunks : list bytes) :
  forall g,
    hsmSheUidSet g <> 0 ->
    hsmSheSbState g = WOLFHSM_SHE_SB_UPDATE ->
    0 <= hsmSheBlSizeReceived g ->
    hsmSheBlSizeReceived g + Z.of_nat (length (concat chunks)) = hsmSheBlSize g ->
    hsmSheBlSize g < 4294967296 ->
    chunks <> [] ->
    (forall k, (0 < k < length chunks)%nat ->
       hsmSheBlSizeReceived g + Z.of_nat (length (concat (firstn k chunks)))
       < hsmSheBlSize g) ->
    let g2 := boot_updates g server stk chunks in
    hsmSheSbState g2 = WOLFHSM_SHE_SB_FINISH
    /\ hsmSheBlSizeReceived g2 = hsmSheBlSize g
    /\ hsmSheBlSize g2 = hsmSheBlSize g
    /\ hsmSheCmacKeyFound g2 = hsmSheCmacKeyFound g
    /\ sheCmac g2 = mkCmac (cmac_key (sheCmac g))
                           (cmac_msg (sheCmac g) ++ concat chunks).
Proof using OK LAYOUT CMAC.
  induction chunks as [|c rest IH]; intros g Hu Hs Hr0 Htot Hbl Hne Hpre g2;
    [congruence|].
  subst g2. cbn [boot_updates]. cbn [concat] in Htot.
  rewrite length_app in Htot.
  rewrite boot_update_step by (try assumption; lia).
  destruct rest as [|c' rest'].
  - cbn [boot_updates concat] in *. rewrite app_nil_r. cbn [length] in Htot.
    proj_simpl.
    assert ((hsmSheBlSizeReceived g + Z.of_nat (length c) =? hsmSheBlSize g) = true)
      as -> by (apply Z.eqb_eq; lia).
    repeat split. lia.
  - set (g1 := mkGlobals _ _ _ _ _ _ _ _ _ _).
    assert (Hlt : hsmSheBlSizeReceived g + Z.of_nat (length c) < hsmSheBlSize g).
    { specialize (Hpre 1%nat ltac:(cbn [length]; lia)).
      cbn [firstn concat] in Hpre. rewrite app_nil_r in Hpre. exact Hpre. }
    destruct (IH g1) as (I1 & I2 & I3 & I4 & I5); subst g1; proj_simpl;
      try assumption; try lia; try discriminate.
    + assert ((hsmSheBlSizeReceived g + Z.of_nat (length c) =? hsmSheBlSize g) = false)
        as -> by (apply Z.eqb_neq; lia).
      reflexivity.
    + intros k Hk. specialize (Hpre (S k) ltac:(cbn [length] in *; lia)).
      cbn [firstn concat] in Hpre. rewrite length_app in Hpre. lia.
    + proj_simpl_all.
      rewrite I1, I2, I3, I4, I5. cbn [concat]. rewrite <- app_assoc.
      repeat split.
Qed.

(** X15.  What the boot MAC is computed over.  With the boot MAC key in
    the keystore and a CMAC provider whose calls succeed,
    SECURE_BOOT_INIT announcing [n] bytes followed by
    SECURE_BOOT_UPDATE requests whose chunks add up to [n], the last
    one completing the image, leads to the FINISH state, and the CMAC
    object then holds the 16-byte key and, as the message, twelve zero
    bytes, the four bytes of [n] in the byte order of the host, and the
    chunks one after the other.  How the image is cut into chunks does
    not matter. *)
Theorem secure_boot_mac_input (g : sheGlobals) (server : whServerContext)
    (packet : whPacket) (size : Z) (stk : sheStack) (chunks : list bytes) :
  she_reachable g ->
  hsmSheUidSet g <> 0 ->
  hsmSheSbState g = WOLFHSM_SHE_SB_INIT ->
  let rd := read_key server WOLFHSM_SHE_BOOT_MAC_KEY_ID WOLFHSM_SHE_KEY_SZ in
  rk_ret rd = 0 ->
  length (rk_key rd) = 16%nat ->
  (forall key sz, wc_InitCmac_ex key sz = 0) ->
  let n := load32 (sub 0 4 (body packet)) in
  Z.of_nat (length (concat chunks)) = n ->
  chunks <> [] ->
  (forall k, (0 < k < length chunks)%nat ->
     Z.of_nat (length (concat (firstn k chunks))) < n) ->
  let o := wh_Server_HandleSheRequest g (Some server) WH_SHE_SECURE_BOOT_INIT
             (Some packet) (Some size) stk in
  let g2 := boot_updates (out_glob o) server stk chunks in
  response_rc o = Some 0
  /\ hsmSheSbState (out_glob o) = WOLFHSM_SHE_SB_UPDATE
  /\ hsmSheSbState g2 = WOLFHSM_SHE_SB_FINISH
  /\ hsmSheCmacKeyFound g2 = 1
  /\ hsmSheBlSize g2 = n /\ hsmSheBlSizeReceived g2 = n
  /\ sheCmac g2
     = mkCmac (rk_key rd)
         (repeat 0 12%nat ++ store32 n ++ concat chunks).
Proof using OK LAYOUT CMAC.
  intros Hreach Hu Hs rd Hk Hlen HINIT n Htot Hne Hpre o g2.
  pose proof (she_wf_reachable OK g Hreach) as (_ & _ & _ & _ & _ & _ & Ws).
  assert (Hr0 : hsmSheBlSizeReceived g = 0) by (sb_consts; lia).
  pose proof (load32_range (sub 0 4 (body packet))) as Hn. fold n in Hn.
  destruct (she_switch_more OK g server packet size stk) as (_ & Hsw & _).
  assert (G : she_gate_blocks g WH_SHE_SECURE_BOOT_INIT = false).
  { apply she_gate_open_boot; try assumption.
    now destruct (she_is_secure_boot_more OK). }
  assert (Hkey : sub 0 WOLFHSM_SHE_KEY_SZ
                   (memcpy (stk_key stk) (rk_key rd) (Z.of_nat (length (rk_key rd))))
                 = rk_key rd).
  { rewrite Hlen. change (Z.of_nat 16) with WOLFHSM_SHE_KEY_SZ.
    rewrite sub_0_memcpy by (rewrite Hlen; unfold WOLFHSM_SHE_KEY_SZ; lia).
    apply sub_0_all. now rewrite Hlen. }
  assert (Hpfx : forall b, sub 0 WOLFHSM_SHE_BOOT_MAC_PREFIX_LEN
                   (memset b 0 WOLFHSM_SHE_BOOT_MAC_PREFIX_LEN) = repeat 0 12%nat).
  { intros b. unfold memset. rewrite upd_0, sub_0_firstn, firstn_app, repeat_length.
    change (Z.to_nat WOLFHSM_SHE_BOOT_MAC_PREFIX_LEN) with 12%nat.
    rewrite Nat.sub_diag, firstn_O, app_nil_r. apply firstn_all2.
    now rewrite repeat_length. }
  assert (Hh : res_ret (hsmSheSecureBootInit g server packet size stk) = 0
               /\ res_glob (hsmSheSecureBootInit g server packet size stk)
                  = mkGlobals (hsmShePrngState g) (WOLFHSM_SHE_PRNG_KEY g)
                      WOLFHSM_SHE_SB_UPDATE 1 (hsmSheRamKeyPlain g)
                      (hsmSheUidSet g) n 0 (hsmSheRndInited g)
                      (mkCmac (rk_key rd) (repeat 0 12%nat ++ store32 n))).
  { unfold hsmSheSecureBootInit. fold rd. fold n. proj_simpl.
    rewrite Hs, Hk, Hr0. cbn [Z.eqb negb andb WOLFHSM_SHE_SB_INIT].
    unfold cmac_init, cmac_update.
    rewrite !HINIT, !CMAC. cbn [Z.eqb negb andb cmac_key cmac_msg app].
    rewrite Hkey, Hpfx. split; reflexivity. }
  destruct Hh as (Hret & Hg).
  subst o g2.
  rewrite (dispatch_ok g server _ packet size stk G) by (rewrite Hsw; exact Hret).
  rewrite Hsw, Hg. proj_simpl.
  split; [reflexivity|]. split; [reflexivity|].
  destruct (boot_updates_run server stk chunks
              (mkGlobals (hsmShePrngState g) (WOLFHSM_SHE_PRNG_KEY g)
                 WOLFHSM_SHE_SB_UPDATE 1 (hsmSheRamKeyPlain g)
                 (hsmSheUidSet g) n 0 (hsmSheRndInited g)
                 (mkCmac (rk_key rd) (repeat 0 12%nat ++ store32 n))))
    as (I1 & I2 & I3 & I4 & I5); proj_simpl; try assumption; try lia.
  proj_simpl_all.
  rewrite I1, I2, I3, I4, I5. rewrite <- app_assoc. repeat split.
Qed.

End BootRun.

End SecureBoot.

(** ** The dispatcher *)

Section DispatcherCodes.
Context `{CFG : whConfig} `{LAY : whPacketLayout} `{CP : CryptoProvider}
        `{KS : Keystore}.

Lemma she_final_ret_codes (ret : Z) : In (she_final_ret ret) she_response_codes.
Proof.
  unfold she_final_ret, she_response_codes.
  destruct (Z.eqb_spec ret 0) as [->|Hne]; cbn [negb andb]; [now left|].
  destruct (she_specific_error ret) eqn:Hs; cbn [negb].
  - unfold she_specific_error in Hs. rewrite !orb_true_iff, !Z.eqb_eq in Hs.
    cbn [In]. intuition auto.
  - cbn [In]. intuition auto.
Qed.

(** X16.  The dispatcher reports in two ways.  With a null [server],
    [data] or [size] it returns [WH_ERROR_BADARGS] and touches nothing.
    Otherwise it returns 0 and [packet->rc] is 0 or one of the twelve
    SHE error codes, never another code of a handler, of the keystore
    or of the crypto provider; when [rc] is not 0 the response size is
    that of the header with [rc]. *)
Theorem dispatcher_response_codes (g : sheGlobals)
    (server : option whServerContext) (action : Z) (data : option whPacket)
    (size : option Z) (stk : sheStack) :
  let o := wh_Server_HandleSheRequest g server action data size stk in
  (server = None \/ data = None \/ size = None ->
     o = mkOutcome WH_ERROR_BADARGS g server data size)
  /\ (is_Some server -> is_Some data -> is_Some size ->
      out_ret o = 0
      /\ exists p, out_data o = Some p
           /\ In (rc p) she_response_codes
           /\ (rc p <> 0 ->
               out_size o = Some (u16 (WOLFHSM_PACKET_STUB_SIZE + sizeof_rc)))).
Proof.
  intros o. subst o. split.
  - intros [->|[->| ->]]; [reflexivity| |].
    + now destruct server.
    + now destruct server, data.
  - intros [srv ->] [packet ->] [sz ->].
    destruct (she_gate_blocks g action) eqn:G.
    + rewrite (she_gate_blocked g srv action packet sz stk G). proj_simpl.
      split; [reflexivity|]. eexists. split; [reflexivity|]. proj_simpl.
      split; [|reflexivity]. unfold she_response_codes. cbn [In]. auto.
    + rewrite dispatch_open by exact G. proj_simpl.
      split; [reflexivity|]. eexists. split; [reflexivity|]. proj_simpl.
      split; [apply she_final_ret_codes|].
      intros Hne.
      destruct (Z.eqb_spec (res_ret (she_switch g srv action packet sz stk)) 0)
        as [E|E]; [|reflexivity].
      exfalso. apply Hne. rewrite E. reflexivity.
Qed.

End DispatcherCodes.

(** ** LOAD_KEY: requests that are turned down *)

Lemma sub_0_upd_behind (n off : Z) (x b : bytes) :
  0 <= n <= off -> off <= Z.of_nat (length b) ->
  sub 0 n (upd off x b) = sub 0 n b.
Proof.
  intros Hn Hoff. unfold upd. rewrite !sub_0_firstn.
  rewrite firstn_app, length_firstn.
  replace (Z.to_nat n - Nat.min (Z.to_nat off) (length b))%nat with 0%nat by lia.
  rewrite firstn_O, app_nil_r, firstn_firstn. f_equal. lia.
Qed.

Section LoadKeyRefusals.
Context `{CFG : whConfig} `{LAY : whPacketLayout} `{CP : CryptoProvider}
        `{KS : Keystore}.
Hypothesis OK : config_ok = true.

(** The decryption of M2 leaves M1 alone. *)
Lemma load_key_auth_m1 (g : sheGlobals) (server : whServerContext)
    (packet : whPacket) (stk : sheStack) :
  16 <= Z.of_nat (length (body packet)) ->
  sub 0 WOLFHSM_SHE_M1_SZ (lk_body (hsmSheLoadKey_auth g server packet stk))
  = sub 0 WOLFHSM_SHE_M1_SZ (body packet).
Proof.
  intros Hlen. unfold hsmSheLoadKey_auth. cbn [lk_body].
  match goal with |- context [if ?c then _ else _] => destruct c end;
    [|reflexivity].
  apply sub_0_upd_behind; unfold WOLFHSM_SHE_M1_SZ; lia.
Qed.

(** A nonzero [ret] passes through the UID check and the counter
    check. *)
Lemma load_key_counter_passes (server : whServerContext) (L : loadKeyLocals) :
  lk_ret L <> 0 -> hsmSheLoadKey_counter server L = lk_ret L.
Proof.
  intros Hne. apply Z.eqb_neq in Hne.
  unfold hsmSheLoadKey_counter, hsmSheLoadKey_uid. cbv zeta.
  rewrite Hne. cbn [andb]. rewrite Hne. reflexivity.
Qed.

(** X17.  LOAD_KEY never replaces a write-protected key.  Whatever the
    request holds, if the slot named in M1 exists with the
    WRITE_PROTECT flag set, the handler returns an error and the
    keystore, the RAM-key flag and [*size] are as before; when the
    request has passed authentication and decryption the error is
    [WRITE_PROTECTED]. *)
Theorem load_key_write_protected (g : sheGlobals) (server : whServerContext)
    (packet : whPacket) (size : Z) (stk : sheStack) :
  16 <= Z.of_nat (length (body packet)) ->
  (forall cap,
     let rd := read_key server
                 (hsmShePopId (sub 0 WOLFHSM_SHE_M1_SZ (body packet))) cap in
     rk_ret rd = 0
     /\ Z.land (she_flags (rk_meta rd)) WOLFHSM_SHE_FLAG_WRITE_PROTECT <> 0) ->
  let A := hsmSheLoadKey_auth g server packet stk in
  let r := hsmSheLoadKey g server packet size stk in
  res_ret r <> 0
  /\ res_server r = server
  /\ hsmSheRamKeyPlain (res_glob r) = hsmSheRamKeyPlain g
  /\ res_size r = size
  /\ (lk_ret A = 0 -> res_ret r = WH_SHE_ERC_WRITE_PROTECTED).
Proof using OK.
  intros Hlen Hslot A r.
  destruct (codes_nonzero_all OK) as (_ & _ & Hnf & _ & _ & _ & Hwp & _).
  pose proof (load_key_rejected g server packet size stk) as Hrej.
  cbv zeta in Hrej. fold A in Hrej. fold r in Hrej.
  pose proof (load_key_auth_m1 g server packet stk Hlen) as Hm1. fold A in Hm1.
  clearbody r.
  assert (HL : lk_ret (hsmSheLoadKey_target server A)
               = if lk_ret A =? 0 then WH_SHE_ERC_WRITE_PROTECTED else lk_ret A).
  { clearbody A. unfold hsmSheLoadKey_target. cbn [lk_ret]. rewrite Hm1.
    destruct (Hslot (lk_keySz A)) as [Hex Hfl]. cbv zeta in Hex, Hfl.
    rewrite Hex.
    destruct (Z.eqb_spec (lk_ret A) 0) as [E|E]; [|reflexivity].
    change (0 =? 0) with true. cbn [andb].
    apply not_eq_sym, Z.eqb_neq in Hnf. rewrite Hnf.
    apply Z.eqb_neq in Hfl. rewrite Hfl. reflexivity. }
  assert (HLne : lk_ret (hsmSheLoadKey_target server A) <> 0).
  { rewrite HL. destruct (Z.eqb_spec (lk_ret A) 0); congruence. }
  rewrite (load_key_counter_passes _ _ HLne) in Hrej.
  destruct (Hrej HLne) as (H1 & H2 & H3 & H4).
  rewrite H1. repeat split; try assumption.
  intros HA. rewrite HL, HA. reflexivity.
Qed.

(** X18.  LOAD_KEY without the authorising key.  If the keystore has no
    key in the slot named by the AuthID of M1, the handler returns
    [KEY_NOT_AVAILABLE] before anything is derived or decrypted: the
    keystore, the request bytes, the RAM-key flag and [*size] are as
    before. *)
Theorem load_key_without_auth_key (g : sheGlobals) (server : whServerContext)
    (packet : whPacket) (size : Z) (stk : sheStack) :
  rk_ret (read_key server
            (hsmShePopAuthId (sub 0 WOLFHSM_SHE_M1_SZ (body packet)))
            (WOLFHSM_SHE_KEY_SZ * 2)) <> 0 ->
  let r := hsmSheLoadKey g server packet size stk in
  res_ret r = WH_SHE_ERC_KEY_NOT_AVAILABLE
  /\ res_server r = server
  /\ res_packet r = packet
  /\ hsmSheRamKeyPlain (res_glob r) = hsmSheRamKeyPlain g
  /\ res_size r = size.
Proof using OK.
  intros Hk r.
  destruct (codes_nonzero_all OK) as (_ & _ & _ & _ & Hkna & _).
  assert (HA : lk_ret (hsmSheLoadKey_auth g server packet stk)
               = WH_SHE_ERC_KEY_NOT_AVAILABLE
               /\ lk_body (hsmSheLoadKey_auth g server packet stk) = body packet).
  { unfold hsmSheLoadKey_auth. cbn [lk_ret lk_body].
    apply Z.eqb_neq in Hk, Hkna. rewrite Hk. unfold aes_setup.
    repeat progress (rewrite ?Hkna; cbn [negb andb]).
    split; reflexivity. }
  destruct HA as (HA & HB).
  pose proof (load_key_rejected g server packet size stk) as Hrej.
  cbv zeta in Hrej. fold r in Hrej.
  assert (HL : lk_ret (hsmSheLoadKey_target server
                         (hsmSheLoadKey_auth g server packet stk))
               = WH_SHE_ERC_KEY_NOT_AVAILABLE
               /\ lk_body (hsmSheLoadKey_target server
                             (hsmSheLoadKey_auth g server packet stk))
                  = body packet).
  { unfold hsmSheLoadKey_target. cbn [lk_ret lk_body]. rewrite HA, HB.
    apply Z.eqb_neq in Hkna. rewrite Hkna. cbn [andb]. split; reflexivity. }
  destruct HL as (HL & HLb).
  assert (HLne : lk_ret (hsmSheLoadKey_target server
                           (hsmSheLoadKey_auth g server packet stk)) <> 0)
    by congruence.
  rewrite (load_key_counter_passes _ _ HLne), HL in Hrej.
  destruct (Hrej Hkna) as (H1 & H2 & H3 & H4).
  repeat split; try assumption.
  (* the packet *)
  subst r. unfold hsmSheLoadKey.
  rewrite (load_key_counter_passes _ _ HLne), HL.
  generalize dependent (hsmSheLoadKey_target server
                          (hsmSheLoadKey_auth g server packet stk)).
  intros L _ HLb _. clear Hrej H1 H2 H3 H4.
  destruct packet as [prc pbody]. cbn [body] in HLb.
  destruct L as [lr lkr lm lkd lt lb lc ls]. cbn [lk_body] in HLb. subst lb.
  destruct WH_SHE_ERC_KEY_NOT_AVAILABLE as [|p|p]; [congruence|reflexivity..].
Qed.

End LoadKeyRefusals.

(** ** The key derivation in the handlers *)

Section Kdf.
Context `{CFG : whConfig} `{LAY : whPacketLayout} `{CP : CryptoProvider}
        `{KS : Keystore}.
Hypothesis AES : aes_direct_ok.

Lemma wh_AesMp16_value (server : whServerContext) (msg out0 : bytes) :
  0 < Z.of_nat (length msg) <= 2147483632 ->
  wh_AesMp16 (Some server) (Some msg) (Z.of_nat (length msg)) (Some out0)
  = (0, Some (AES_MP16 msg))
  /\ length (AES_MP16 msg) = 16%nat.
Proof using AES.
  intros Hlen. pose proof AES as (Hinit & Hset & _).
  unfold wh_AesMp16.
  assert ((Z.of_nat (length msg) =? 0) = false) as -> by (apply Z.eqb_neq; lia).
  rewrite Hinit, Hset. cbn [Z.eqb fst snd].
  rewrite to_int_small by lia. rewrite Nat2Z.id.
  assert (H16 : length zero_block = 16%nat) by reflexivity.
  destruct (wh_AesMp16_loop_spec AES msg (length msg) ltac:(lia)
              (length msg) 0%nat zero_block) as [Hloop Hres]; try lia;
    try exact H16.
  split; [|exact Hres].
  assert (Hgen : wh_AesMp16_loop (length msg) msg (Z.of_nat (length msg)) 0
                   zero_block out0 zero_block
                 = wh_AesMp16_loop (length msg) msg (Z.of_nat (length msg)) 0
                     zero_block zero_block zero_block).
  { destruct (length msg) eqn:E; [lia|].
    cbn [wh_AesMp16_loop]. rewrite to_int_small by lia.
    assert ((0 <? Z.of_nat (S n)) = true) as -> by (apply Z.ltb_lt; lia).
    reflexivity. }
  rewrite Hgen. change (Z.of_nat 0) with 0 in Hloop. rewrite Hloop.
  reflexivity.
Qed.

(** The call the handlers make, on a whole buffer. *)
Lemma AesMp16_value (server : whServerContext) (msg out0 : bytes) :
  0 < Z.of_nat (length msg) <= 2147483632 ->
  AesMp16 server msg (Z.of_nat (length msg)) out0 = (0, AES_MP16 msg)
  /\ length (AES_MP16 msg) = 16%nat.
Proof using AES.
  intros Hlen. destruct (wh_AesMp16_value server msg out0 Hlen) as [H1 H2].
  split; [|exact H2]. unfold AesMp16. now rewrite H1.
Qed.

(** X19.  The padding of AES-MP16 does not record the length: a message
    whose length is not a multiple of 16 and the same message followed
    by zero bytes, up to the end of its last block, are compressed to
    the same 16 bytes. *)
Theorem aes_mp16_trailing_zeros (server : whServerContext) (msg out1 out2 : bytes)
    (k : nat) :
  0 < Z.of_nat (length msg) ->
  Z.of_nat (length msg) + Z.of_nat k <= 2147483632 ->
  (length msg mod 16 + k <= 16)%nat ->
  (0 < length msg mod 16)%nat ->
  wh_AesMp16 (Some server) (Some (msg ++ repeat 0 k))
    (Z.of_nat (length (msg ++ repeat 0 k))) (Some out1)
  = wh_AesMp16 (Some server) (Some msg) (Z.of_nat (length msg)) (Some out2).
Proof using AES.
  intros Hpos Hmax Hk Hrem.
  assert (Hl : length (msg ++ repeat 0 k) = (length msg + k)%nat)
    by now rewrite length_app, repeat_length.
  destruct (wh_AesMp16_value server msg out2 ltac:(lia)) as [H1 _].
  destruct (wh_AesMp16_value server (msg ++ repeat 0 k) out1 ltac:(lia)) as [H2 _].
  assert (Hpad : mp16_pad (msg ++ repeat 0 k) = mp16_pad msg).
  { unfold mp16_pad. rewrite Hl, <- app_assoc, <- repeat_app. do 2 f_equal.
    pose proof (Nat.div_mod_eq (length msg) 16) as Hd.
    assert (Hm : ((length msg + k) mod 16
                  = if (length msg mod 16 + k =? 16)%nat then 0
                    else length msg mod 16 + k)%nat).
    { destruct (Nat.eqb_spec (length msg mod 16 + k) 16) as [E|E].
      - replace (length msg + k)%nat
          with ((length msg / 16 + 1) * 16)%nat by lia.
        apply Nat.Div0.mod_mul.
      - replace (length msg + k)%nat
          with ((length msg mod 16 + k) + (length msg / 16) * 16)%nat by lia.
        rewrite Nat.Div0.mod_add. apply Nat.mod_small. lia. }
    rewrite Hm.
    destruct (Nat.eqb_spec (length msg mod 16 + k) 16) as [E|E].
    - rewrite Nat.sub_0_r, Nat.Div0.mod_same.
      rewrite (Nat.mod_small (16 - length msg mod 16)) by lia. lia.
    - rewrite (Nat.mod_small (16 - (length msg mod 16 + k))),
        (Nat.mod_small (16 - length msg mod 16)) by lia.
      lia. }
  assert (Heq : AES_MP16 (msg ++ repeat 0 k) = AES_MP16 msg).
  { unfold AES_MP16. now rewrite Hpad. }
  rewrite Heq in H2. exact (eq_trans H2 (eq_sym H1)).
Qed.

End Kdf.

(** ** The random number generator *)

Lemma kdf_input (buf key c : bytes) :
  length buf = 32%nat -> length key = 16%nat -> length c = 16%nat ->
  upd WOLFHSM_SHE_KEY_SZ c (memcpy buf key (Z.of_nat (length key))) = key ++ c.
Proof.
  intros Hb Hk Hc. unfold memcpy. rewrite sub_0_all by reflexivity.
  rewrite upd_0. unfold upd. rewrite Hk, Hc.
  change (Z.to_nat WOLFHSM_SHE_KEY_SZ) with 16%nat.
  rewrite firstn_app, Hk, Nat.sub_diag, firstn_O, app_nil_r.
  rewrite firstn_all2 by lia.
  rewrite skipn_all2 by (rewrite length_app, length_skipn; lia).
  now rewrite app_nil_r.
Qed.

Section Rng.
Context `{CFG : whConfig} `{LAY : whPacketLayout} `{CP : CryptoProvider}
        `{KS : Keystore}.
Hypothesis OK : config_ok = true.

(** X20.  INIT_RND is refused without side effects in two cases: when
    the generator has been initialised before ([SEQUENCE_ERROR]), and
    when the secret key is missing from the keystore
    ([KEY_NOT_AVAILABLE]); the engine, the keystore, the packet and
    [*size] are then as before. *)
Theorem init_rnd_refused (g : sheGlobals) (server : whServerContext)
    (packet : whPacket) (size : Z) (stk : sheStack) :
  let r := hsmSheInitRnd g server packet size stk in
  (hsmSheRndInited g = 1 ->
     r = mkResult WH_SHE_ERC_SEQUENCE_ERROR g server packet size)
  /\ (hsmSheRndInited g <> 1 ->
      rk_ret (read_key server WOLFHSM_SHE_SECRET_KEY_ID WOLFHSM_SHE_KEY_SZ) <> 0 ->
      r = mkResult WH_SHE_ERC_KEY_NOT_AVAILABLE g server packet size).
Proof using OK.
  intros r. subst r.
  destruct (codes_nonzero_all OK) as (_ & _ & _ & Hseq & Hkna & _).
  split.
  - intros Hi. destruct g as [ps pk sb cf rp us bl br ri cm]. cbn in Hi. subst ri.
    destruct server as [uid cid st]. destruct packet as [prc pb].
    unfold hsmSheInitRnd.
    destruct WH_SHE_ERC_SEQUENCE_ERROR as [|p|p]; [congruence|reflexivity..].
  - intros Hi Hk. unfold hsmSheInitRnd.
    generalize dependent (read_key server WOLFHSM_SHE_SECRET_KEY_ID WOLFHSM_SHE_KEY_SZ).
    intros [[kr km] kk]. cbn [rk_ret fst snd]. intros Hk.
    apply Z.eqb_neq in Hi. rewrite Hi.
    destruct g as [ps pk sb cf rp us bl br ri cm].
    destruct server as [uid cid st]. destruct packet as [prc pb].
    destruct kr as [|q|q]; [congruence| |];
      (destruct WH_SHE_ERC_KEY_NOT_AVAILABLE as [|p|p]; [congruence|reflexivity..]).
Qed.

Lemma kdf_input_again (key c c' : bytes) :
  length key = 16%nat -> length c = 16%nat -> length c' = 16%nat ->
  upd WOLFHSM_SHE_KEY_SZ c' (key ++ c) = key ++ c'.
Proof.
  intros Hk Hc Hc'. unfold upd. change (Z.to_nat WOLFHSM_SHE_KEY_SZ) with 16%nat.
  rewrite firstn_app, Hk, Nat.sub_diag, firstn_O, app_nil_r.
  rewrite firstn_all2 by lia.
  rewrite skipn_all2 by (rewrite length_app; lia).
  now rewrite app_nil_r.
Qed.

Lemma key_read_back (buf key : bytes) :
  length key = 16%nat ->
  sub 0 WOLFHSM_SHE_KEY_SZ (memcpy buf key (Z.of_nat (length key))) = key.
Proof.
  intros Hk. rewrite Hk. change (Z.of_nat 16) with WOLFHSM_SHE_KEY_SZ.
  rewrite sub_0_memcpy by (rewrite Hk; unfold WOLFHSM_SHE_KEY_SZ; lia).
  apply sub_0_all. now rewrite Hk.
Qed.

Lemma block_written (buf blk : bytes) :
  length blk = 16%nat -> sub 0 WOLFHSM_SHE_KEY_SZ (upd 0 blk buf) = blk.
Proof.
  intros Hb. rewrite upd_0, sub_0_firstn.
  change (Z.to_nat WOLFHSM_SHE_KEY_SZ) with 16%nat.
  rewrite firstn_app, Hb, Nat.sub_diag, firstn_O, app_nil_r.
  apply firstn_all2. lia.
Qed.

Lemma block_replaced (buf blk : bytes) :
  length blk = 16%nat -> length buf = 16%nat ->
  memcpy buf blk WOLFHSM_SHE_KEY_SZ = blk /\ upd 0 blk buf = blk.
Proof.
  intros Hb Hbuf. unfold memcpy.
  rewrite (sub_0_all WOLFHSM_SHE_KEY_SZ blk) by now rewrite Hb.
  rewrite upd_0, Hb, skipn_all2 by lia. now rewrite app_nil_r.
Qed.

(** X21.  What INIT_RND derives.  With the secret key and the stored
    seed in the keystore (16 bytes each) and a provider whose calls
    succeed, INIT_RND computes the key [AES-MP16(secret | PRNG_SEED_KEY_C)],
    encrypts the stored seed under it (CBC, zero IV), writes the result
    back to the keystore as the new seed and takes it as the generator
    state; the generator key becomes [AES-MP16(secret | PRNG_KEY_C)]
    and the generator is marked initialised. *)
Theorem init_rnd_derives (g : sheGlobals) (server : whServerContext)
    (packet : whPacket) (size : Z) (stk : sheStack) :
  aes_direct_ok ->
  hsmSheRndInited g <> 1 ->
  length (hsmShePrngState g) = 16%nat ->
  length (stk_kdfInput stk) = 32%nat ->
  let rs := read_key server WOLFHSM_SHE_SECRET_KEY_ID WOLFHSM_SHE_KEY_SZ in
  let rp := read_key server WOLFHSM_SHE_PRNG_SEED_ID WOLFHSM_SHE_KEY_SZ in
  rk_ret rs = 0 -> length (rk_key rs) = 16%nat ->
  rk_ret rp = 0 -> length (rk_key rp) = 16%nat ->
  let K := AES_MP16 (rk_key rs ++ WOLFHSM_SHE_PRNG_SEED_KEY_C) in
  wc_AesSetKey K WOLFHSM_SHE_KEY_SZ = 0 ->
  let enc := wc_AesCbcEncrypt K zero_block (rk_key rp) in
  fst enc = 0 -> length (snd enc) = 16%nat ->
  let meta := mkMeta (she_keyid server WOLFHSM_SHE_PRNG_SEED_ID) WOLFHSM_SHE_KEY_SZ
                     (she_flags (rk_meta rp)) (she_count (rk_meta rp)) in
  let wa := wh_Nvm_AddObject (nvm server) meta WOLFHSM_SHE_KEY_SZ (snd enc) in
  fst wa = 0 ->
  let r := hsmSheInitRnd g server packet size stk in
  res_ret r = 0
  /\ hsmSheRndInited (res_glob r) = 1
  /\ hsmShePrngState (res_glob r) = snd enc
  /\ WOLFHSM_SHE_PRNG_KEY (res_glob r)
     = AES_MP16 (rk_key rs ++ WOLFHSM_SHE_PRNG_KEY_C)
  /\ nvm (res_server r) = snd wa.
Proof using OK.
  intros AES Hi Hps Hkdf rs rp Hrs Hls Hrp Hlp K HK enc He Hle meta wa Hwa r.
  pose proof AES as (Hinit & _).
  assert (HC1 : length WOLFHSM_SHE_PRNG_SEED_KEY_C = 16%nat) by reflexivity.
  assert (HC2 : length WOLFHSM_SHE_PRNG_KEY_C = 16%nat) by reflexivity.
  assert (Hk1 : forall out, AesMp16 server (rk_key rs ++ WOLFHSM_SHE_PRNG_SEED_KEY_C)
                  (WOLFHSM_SHE_KEY_SZ + 16) out = (0, K)).
  { intros out.
    replace (WOLFHSM_SHE_KEY_SZ + 16)
      with (Z.of_nat (length (rk_key rs ++ WOLFHSM_SHE_PRNG_SEED_KEY_C)))
      by (rewrite length_app, Hls, HC1; reflexivity).
    apply AesMp16_value; [exact AES|]. rewrite length_app, Hls, HC1. lia. }
  assert (Hk2 : forall out, AesMp16 server (rk_key rs ++ WOLFHSM_SHE_PRNG_KEY_C)
                  (WOLFHSM_SHE_KEY_SZ + 16) out
                = (0, AES_MP16 (rk_key rs ++ WOLFHSM_SHE_PRNG_KEY_C))).
  { intros out.
    replace (WOLFHSM_SHE_KEY_SZ + 16)
      with (Z.of_nat (length (rk_key rs ++ WOLFHSM_SHE_PRNG_KEY_C)))
      by (rewrite length_app, Hls, HC2; reflexivity).
    apply AesMp16_value; [exact AES|]. rewrite length_app, Hls, HC2. lia. }
  subst r. unfold hsmSheInitRnd. fold rs. fold rp.
  apply Z.eqb_neq in Hi. rewrite Hi, Hrs.
  cbn [Z.eqb negb andb]. cbv zeta.
  rewrite (kdf_input _ _ _ Hkdf Hls HC1), Hk1. cbn [fst snd Z.eqb negb andb].
  rewrite Hrp. cbn [Z.eqb negb andb].
  unfold aes_setup. rewrite Hinit. cbn [Z.eqb]. rewrite HK. cbn [Z.eqb].
  rewrite (key_read_back _ _ Hlp). fold enc. rewrite He. cbn [Z.eqb].
  rewrite (block_written _ _ Hle). cbn [meta_len]. fold meta. fold wa.
  rewrite Hwa. cbn [Z.eqb negb].
  rewrite (kdf_input_again _ _ _ Hls HC1 HC2), Hk2. cbn [fst snd Z.eqb].
  proj_simpl.
  repeat split.
  unfold memcpy. rewrite sub_0_firstn, upd_0.
  change (Z.to_nat WOLFHSM_SHE_KEY_SZ) with 16%nat.
  rewrite firstn_length_le
    by (rewrite upd_0, length_app, Hle; lia).
  rewrite upd_0, firstn_app, Hle, Nat.sub_diag, firstn_O, app_nil_r.
  rewrite firstn_all2 by lia.
  rewrite skipn_all2 by lia. now rewrite app_nil_r.
Qed.

Lemma kdf_input_fixed (buf key c : bytes) :
  length buf = 32%nat -> length key = 16%nat -> length c = 16%nat ->
  upd WOLFHSM_SHE_KEY_SZ c (memcpy buf key WOLFHSM_SHE_KEY_SZ) = key ++ c.
Proof.
  intros Hb Hk Hc. rewrite <- (kdf_input buf key c Hb Hk Hc). now rewrite Hk.
Qed.

Lemma kdf_input_reload (a b key : bytes) :
  length a = 16%nat -> length key = 16%nat ->
  memcpy (a ++ b) key (Z.of_nat (length key)) = key ++ b.
Proof.
  intros Ha Hk. unfold memcpy. rewrite sub_0_all by reflexivity.
  rewrite upd_0, Hk, skipn_app, Ha, skipn_all2 by lia. reflexivity.
Qed.

(** X22.  What EXTEND_SEED does, and in which order.  Before INIT_RND
    it answers [RNG_SEED] and touches nothing.  Afterwards it first
    replaces the generator state by [AES-MP16(state | entropy)]; then
    it reads the stored seed, and if that is missing it returns
    [KEY_NOT_AVAILABLE] with the state already replaced and the
    keystore unchanged; otherwise it writes
    [AES-MP16(seed | entropy)] to the keystore as the new seed. *)
Theorem extend_seed_derives (g : sheGlobals) (server : whServerContext)
    (packet : whPacket) (size : Z) (stk : sheStack) :
  aes_direct_ok ->
  length (hsmShePrngState g) = 16%nat ->
  length (stk_kdfInput stk) = 32%nat ->
  16 <= Z.of_nat (length (body packet)) ->
  let entropy := sub 0 WOLFHSM_SHE_KEY_SZ (body packet) in
  let rp := read_key server WOLFHSM_SHE_PRNG_SEED_ID WOLFHSM_SHE_KEY_SZ in
  let r := hsmSheExtendSeed g server packet size stk in
  (hsmSheRndInited g = 0 ->
     r = mkResult WH_SHE_ERC_RNG_SEED g server packet size)
  /\ (hsmSheRndInited g <> 0 ->
      hsmShePrngState (res_glob r) = AES_MP16 (hsmShePrngState g ++ entropy)
      /\ (rk_ret rp <> 0 ->
          res_ret r = WH_SHE_ERC_KEY_NOT_AVAILABLE /\ res_server r = server)
      /\ (rk_ret rp = 0 -> length (rk_key rp) = 16%nat ->
          let meta := mkMeta (she_keyid server WOLFHSM_SHE_PRNG_SEED_ID)
                             WOLFHSM_SHE_KEY_SZ
                             (she_flags (rk_meta rp)) (she_count (rk_meta rp)) in
          let wa := wh_Nvm_AddObject (nvm server) meta WOLFHSM_SHE_KEY_SZ
                      (AES_MP16 (rk_key rp ++ entropy)) in
          nvm (res_server r) = snd wa
          /\ (fst wa = 0 -> res_ret r = 0)
          /\ (fst wa <> 0 -> res_ret r = WH_SHE_ERC_KEY_UPDATE_ERROR))).
Proof using OK.
  intros AES Hps Hkdf Hbody entropy rp r.
  destruct (codes_nonzero_all OK) as (_&_&_&_& Hkna &_&_& Hkue & Hrng & _).
  assert (Hent : length entropy = 16%nat).
  { subst entropy. rewrite length_sub_0; unfold WOLFHSM_SHE_KEY_SZ; lia. }
  split.
  - intros Hi. subst r. unfold hsmSheExtendSeed.
    destruct g as [ps pk sb cf rpl us bl br ri cm]. cbn in Hi. subst ri.
    destruct server as [uid cid st]. destruct packet as [prc pb].
    destruct WH_SHE_ERC_RNG_SEED as [|p|p]; [congruence|reflexivity..].
  - intros Hi. apply Z.eqb_neq in Hi.
    assert (Hk1 : forall out, AesMp16 server (hsmShePrngState g ++ entropy)
                    (WOLFHSM_SHE_KEY_SZ + 16) out
                  = (0, AES_MP16 (hsmShePrngState g ++ entropy))
                  /\ length (AES_MP16 (hsmShePrngState g ++ entropy)) = 16%nat).
    { intros out.
      replace (WOLFHSM_SHE_KEY_SZ + 16)
        with (Z.of_nat (length (hsmShePrngState g ++ entropy)))
        by (rewrite length_app, Hps, Hent; reflexivity).
      apply AesMp16_value; [exact AES|]. rewrite length_app, Hps, Hent. lia. }
    assert (Hstate : hsmShePrngState (res_glob r)
                     = AES_MP16 (hsmShePrngState g ++ entropy)).
    { subst r. unfold hsmSheExtendSeed. proj_simpl. rewrite Hi.
      cbn [Z.eqb negb andb]. fold entropy.
      rewrite (kdf_input_fixed _ _ _ Hkdf Hps Hent).
      destruct (Hk1 (sub 0 WOLFHSM_SHE_KEY_SZ (hsmShePrngState g))) as [-> Hl].
      cbn [fst snd]. now destruct (block_replaced (hsmShePrngState g) _ Hl Hps). }
    split; [exact Hstate|]. clear Hstate. split.
    + intros Hk. subst r. unfold hsmSheExtendSeed. fold entropy. fold rp.
      rewrite Hi. cbn [Z.eqb negb andb]. cbv zeta.
      rewrite (kdf_input_fixed _ _ _ Hkdf Hps Hent).
      destruct (Hk1 (sub 0 WOLFHSM_SHE_KEY_SZ (hsmShePrngState g))) as [-> Hl].
      cbn [fst snd Z.eqb negb andb].
      apply Z.eqb_neq in Hk, Hkna. rewrite Hk. cbn [negb andb].
      rewrite Hkna. proj_simpl. rewrite Hkna. split; [reflexivity|].
      now destruct server.
    + intros Hk Hlp meta wa.
      assert (Hk2 : forall out, AesMp16 server (rk_key rp ++ entropy)
                      (WOLFHSM_SHE_KEY_SZ + 16) out
                    = (0, AES_MP16 (rk_key rp ++ entropy))
                    /\ length (AES_MP16 (rk_key rp ++ entropy)) = 16%nat).
      { intros out.
        replace (WOLFHSM_SHE_KEY_SZ + 16)
          with (Z.of_nat (length (rk_key rp ++ entropy)))
          by (rewrite length_app, Hlp, Hent; reflexivity).
        apply AesMp16_value; [exact AES|]. rewrite length_app, Hlp, Hent. lia. }
      subst r. unfold hsmSheExtendSeed. fold entropy. fold rp.
      rewrite Hi. cbn [Z.eqb negb andb]. cbv zeta.
      rewrite (kdf_input_fixed _ _ _ Hkdf Hps Hent).
      destruct (Hk1 (sub 0 WOLFHSM_SHE_KEY_SZ (hsmShePrngState g))) as [-> Hl].
      cbn [fst snd Z.eqb negb andb]. rewrite Hk. cbn [Z.eqb negb andb].
      rewrite (kdf_input_reload _ _ _ Hps Hlp).
      destruct (Hk2 (sub 0 WOLFHSM_SHE_KEY_SZ (rk_key rp ++ entropy))) as [-> Hl2].
      cbn [fst snd Z.eqb negb andb meta_len].
      rewrite (block_written _ _ Hl2). fold meta. fold wa. proj_simpl.
      split; [reflexivity|]. split.
      * intros ->. reflexivity.
      * intros Hne. apply Z.eqb_neq in Hne. rewrite Hne. reflexivity.
Qed.

End Rng.



(** ** The bulk ciphers *)

Section Bulk.
Context `{CFG : whConfig} `{LAY : whPacketLayout} `{CP : CryptoProvider}
        `{KS : Keystore}.
Hypothesis OK : config_ok = true.

Lemma whole_blocks (sz : Z) :
  0 <= sz < 4294967296 ->
  let field := u32 (sz - sz mod AES_BLOCK_SIZE) in
  field mod 16 = 0 /\ field <= sz < field + 16 /\ 0 <= field < 4294967296.
Proof.
  intros Hsz field. subst field. unfold AES_BLOCK_SIZE.
  pose proof (Z.mod_pos_bound sz 16 ltac:(lia)) as Hm.
  pose proof (Z.mod_le sz 16 ltac:(lia) ltac:(lia)) as Hm'.
  rewrite u32_small by lia.
  repeat split; try lia.
  rewrite Zminus_mod, Z.mod_mod, Z.sub_diag by lia. reflexivity.
Qed.

Lemma she_bulk_spec (g : sheGlobals) (server : whServerContext)
    (packet : whPacket) (size : Z) (stk : sheStack) (sizeof_req sizeof_res : Z)
    (run : bytes -> bytes -> Z -> Z * bytes) :
  let sz := load32 (sub 0 4 (body packet)) in
  let field := u32 (sz - sz mod AES_BLOCK_SIZE) in
  let r := she_bulk g server packet size stk sizeof_req sizeof_res run in
  res_glob r = g /\ res_server r = server
  /\ (rk_ret (read_key server (byte_at (body packet) offsetof_keyId)
                WOLFHSM_SHE_KEY_SZ) <> 0 ->
      r = mkResult WH_SHE_ERC_KEY_NOT_AVAILABLE g server packet size)
  /\ (res_ret r = 0 ->
      load32 (sub 0 4 (body (res_packet r))) = field
      /\ res_size r = u16 (WOLFHSM_PACKET_STUB_SIZE + sizeof_res + field)
      /\ field mod 16 = 0 /\ field <= sz < field + 16).
Proof using OK.
  intros sz field r.
  destruct (codes_nonzero_all OK) as (_&_&_&_& Hkna &_).
  pose proof (load32_range (sub 0 4 (body packet))) as Hsz. fold sz in Hsz.
  destruct (whole_blocks sz Hsz) as (Hm & Hle & Hf). fold field in Hm, Hle, Hf.
  subst r. unfold she_bulk. fold sz. fold field. proj_simpl.
  split; [reflexivity|]. split; [reflexivity|]. split.
  - intros Hk. apply Z.eqb_neq in Hk, Hkna. rewrite Hk, Hkna.
    cbn [negb andb]. repeat (rewrite Hkna; cbn [negb andb]). now destruct packet.
  - intros Hret. apply Z.eqb_eq in Hret. rewrite Hret.
    proj_simpl. rewrite upd_0.
    rewrite (load32_store32 field _ Hf). repeat split; lia.
Qed.


End Bulk.

(** ** The RAM key *)

(** The first check of [hsmSheExportRamKey]: with the RAM-key flag
    clear every later step is skipped. *)
Lemma export_ram_key_flag_clear `{CFG : whConfig} `{LAY : whPacketLayout}
    `{CP : CryptoProvider} `{KS : Keystore}
    (g : sheGlobals) (server : whServerContext)
    (packet : whPacket) (size : Z) (stk : sheStack) :
  WH_SHE_ERC_KEY_INVALID <> 0 ->
  hsmSheRamKeyPlain g = 0 ->
  hsmSheExportRamKey g server packet size stk
  = mkResult WH_SHE_ERC_KEY_INVALID g server packet size.
Proof.
  intros Hki Hi.
  destruct g as [ps pk sb cf rp us bl br ri cm]. cbn in Hi. subst rp.
  destruct server as [uid cid st]. destruct packet as [prc pb].
  destruct CFG. cbn in Hki.
  match type of Hki with
  | ?c <> 0 => destruct c as [|p|p]; [destruct (Hki eq_refl)| |]
  end; reflexivity.
Qed.

Section RamKey.
Context `{CFG : whConfig} `{LAY : whPacketLayout} `{CP : CryptoProvider}
        `{KS : Keystore}.
Hypothesis OK : config_ok = true.

Lemma key_invalid_code :
  WH_SHE_ERC_KEY_INVALID <> 0
  /\ she_specific_error WH_SHE_ERC_KEY_INVALID = true.
Proof using OK.
  split.
  - destruct (config_ok_split OK) as (Hd & _).
    unfold return_codes in Hd. unpack_distinct Hd. congruence.
  - unfold she_specific_error. rewrite Z.eqb_refl, orb_true_r. reflexivity.
Qed.

Lemma export_ram_key_dispatch (g : sheGlobals) (server : whServerContext)
    (packet : whPacket) (size : Z) (stk : sheStack) :
  hsmSheUidSet g <> 0 ->
  hsmSheSbState g = WOLFHSM_SHE_SB_SUCCESS ->
  hsmSheRamKeyPlain g = 0 ->
  wh_Server_HandleSheRequest g (Some server) WH_SHE_EXPORT_RAM_KEY
    (Some packet) (Some size) stk
  = mkOutcome 0 g (Some server)
      (Some (set_rc packet WH_SHE_ERC_KEY_INVALID))
      (Some (u16 (WOLFHSM_PACKET_STUB_SIZE + sizeof_rc))).
Proof using OK.
  intros Hu Hs Hi. destruct key_invalid_code as (Hki & Hsp).
  destruct (she_switch_more OK g server packet size stk)
    as (_ & _ & _ & _ & Hsw & _).
  destruct (she_is_secure_boot_more OK) as (_ & _ & _ & _ & Hb & _).
  rewrite (dispatch_error g server _ packet size stk WH_SHE_ERC_KEY_INVALID
             (she_gate_open g _ Hu Hs) Hb);
    rewrite ?Hsw, ?(export_ram_key_flag_clear g server packet size stk Hki Hi);
    try assumption; reflexivity.
Qed.

(** X24.  EXPORT_RAM_KEY is only served for a RAM key that was loaded
    in plain.  While the RAM-key flag is clear the handler returns
    [KEY_INVALID] before it reads a key or writes to the packet; sent
    to a booted engine the request is answered with [KEY_INVALID] in
    [rc] and the size of the header with [rc], and the engine, the
    keystore and the body of the packet are as before. *)
Theorem export_ram_key_refused (g : sheGlobals) (server : whServerContext)
    (packet : whPacket) (size : Z) (stk : sheStack) :
  hsmSheRamKeyPlain g = 0 ->
  hsmSheExportRamKey g server packet size stk
  = mkResult WH_SHE_ERC_KEY_INVALID g server packet size
  /\ (hsmSheUidSet g <> 0 ->
      hsmSheSbState g = WOLFHSM_SHE_SB_SUCCESS ->
      wh_Server_HandleSheRequest g (Some server) WH_SHE_EXPORT_RAM_KEY
        (Some packet) (Some size) stk
      = mkOutcome 0 g (Some server)
          (Some (set_rc packet WH_SHE_ERC_KEY_INVALID))
          (Some (u16 (WOLFHSM_PACKET_STUB_SIZE + sizeof_rc)))).
Proof using OK.
  intros Hi. split.
  - exact (export_ram_key_flag_clear g server packet size stk
             (proj1 key_invalid_code) Hi).
  - intros Hu Hs. now apply export_ram_key_dispatch.
Qed.

(** X25.  LOAD_PLAIN_KEY sent to a booted engine hands the first 16
    bytes of the request to the key cache under the RAM key identifier
    of the client, with length 16, no flags and counter 0, and leaves
    the keystore as the cache leaves it.  When the cache accepts the
    key, [rc] is 0, the response is a bare header and the RAM-key flag
    is set.  When the cache refuses, [rc] is the code the dispatcher
    makes of the code of the cache and the flag is as before, so an
    EXPORT_RAM_KEY that follows on a flag that was clear is still
    answered with [KEY_INVALID]. *)
Theorem load_plain_key_marks (g : sheGlobals) (server : whServerContext)
    (packet packet' : whPacket) (size size' : Z) (stk : sheStack) :
  hsmSheUidSet g <> 0 ->
  hsmSheSbState g = WOLFHSM_SHE_SB_SUCCESS ->
  let meta := mkMeta (she_keyid server WOLFHSM_SHE_RAM_KEY_ID)
                     WOLFHSM_SHE_KEY_SZ 0 0 in
  let wc := hsmCacheKey (nvm server) meta
              (sub 0 WOLFHSM_SHE_KEY_SZ (body packet)) in
  let o := wh_Server_HandleSheRequest g (Some server) WH_SHE_LOAD_PLAIN_KEY
             (Some packet) (Some size) stk in
  out_ret o = 0
  /\ out_server o = Some (set_server_nvm server (snd wc))
  /\ (fst wc = 0 ->
      out_data o = Some (set_rc packet 0)
      /\ out_size o = Some (u16 WOLFHSM_PACKET_STUB_SIZE)
      /\ hsmSheRamKeyPlain (out_glob o) = 1)
  /\ (fst wc <> 0 ->
      out_data o = Some (set_rc packet (she_final_ret (fst wc)))
      /\ out_size o = Some (u16 (WOLFHSM_PACKET_STUB_SIZE + sizeof_rc))
      /\ out_glob o = g
      /\ (hsmSheRamKeyPlain g = 0 ->
          response_rc (wh_Server_HandleSheRequest (out_glob o) (out_server o)
                         WH_SHE_EXPORT_RAM_KEY (Some packet') (Some size') stk)
          = Some WH_SHE_ERC_KEY_INVALID)).
Proof using OK.
  intros Hu Hs meta wc o.
  destruct (she_switch_more OK g server packet size stk)
    as (_ & _ & _ & Hsw & _).
  destruct (she_is_secure_boot_more OK) as (_ & _ & _ & Hb & _).
  assert (Ho : o = mkOutcome 0
                 (if fst wc =? 0
                  then mkGlobals (hsmShePrngState g) (WOLFHSM_SHE_PRNG_KEY g)
                         (hsmSheSbState g) (hsmSheCmacKeyFound g) 1
                         (hsmSheUidSet g) (hsmSheBlSize g)
                         (hsmSheBlSizeReceived g) (hsmSheRndInited g) (sheCmac g)
                  else g)
                 (Some (set_server_nvm server (snd wc)))
                 (Some (set_rc packet (she_final_ret (fst wc))))
                 (Some (if fst wc =? 0 then u16 WOLFHSM_PACKET_STUB_SIZE
                        else u16 (WOLFHSM_PACKET_STUB_SIZE + sizeof_rc)))).
  { subst o. rewrite dispatch_open by (now apply she_gate_open).
    rewrite Hsw, Hb. unfold hsmSheLoadPlainKey. fold meta. fold wc.
    proj_simpl. cbn [andb].
    destruct (fst wc =? 0); cbn [negb]; [reflexivity|].
    now destruct g. }
  rewrite Ho. cbn [out_ret out_server out_data out_size out_glob].
  split; [reflexivity|]. split; [reflexivity|]. split.
  - intros Hw. rewrite Hw. change (0 =? 0) with true. cbn iota.
    unfold she_final_ret. cbn [Z.eqb negb andb]. proj_simpl.
    repeat split; reflexivity.
  - intros Hw. apply Z.eqb_neq in Hw. rewrite Hw.
    repeat split; try reflexivity.
    intros Hi. rewrite export_ram_key_dispatch by assumption. reflexivity.
Qed.

End RamKey.
(** * The further properties on the sample configuration *)

Section MoreSamples.
Local Existing Instance sample_be.
Local Existing Instance sample_layout.
Local Existing Instance toy_crypto.
Local Existing Instance map_store.

(** *** Transport *)

(** X1 on two 24-byte buffers, and with the response buffer missing. *)
Lemma transport_init_validates_witness :
  snd (wh_TransportMem_Init (Some (mkTCtx 0 0 0))
         (Some (mkTConfig (Some tt) 24 (Some tt) 24)))
  = Some sample_context
  /\ wh_TransportMem_Init (Some (mkTCtx 0 0 0))
       (Some (mkTConfig (Some tt) 24 None 24))
     = (WH_ERROR_BADARGS, Some (mkTCtx 0 0 0)).
Proof.
  split.
  - exact (proj1 (proj2 (transport_init_validates (CFG := sample_be)
                           ltac:(reflexivity) (Some (mkTCtx 0 0 0))
                           (Some (mkTConfig (Some tt) 24 (Some tt) 24))))
                 _ ltac:(reflexivity) ltac:(reflexivity)).
  - exact (proj2 (proj2 (transport_init_validates (CFG := sample_be)
                           ltac:(reflexivity) (Some (mkTCtx 0 0 0))
                           (Some (mkTConfig (Some tt) 24 None 24))))
                 ltac:(vm_compute; discriminate)).
Defined.


(** X3 after [Cleanup] of the sample context. *)
Lemma transport_uninitialised_refused_witness :
  let c := snd (wh_TransportMem_Cleanup (Some sample_context)) in
  wh_TransportMem_SendRequest c sample_shm 4 (Some [1; 2; 3; 4])
  = (WH_ERROR_BADARGS, sample_shm)
  /\ wh_TransportMem_RecvResponse c sample_shm (Some 0) (Some [1; 2; 3; 4])
     = (WH_ERROR_BADARGS, Some 0, Some [1; 2; 3; 4]).
Proof.
  intros c.
  destruct (transport_uninitialised_refused (CFG := sample_be) c sample_context
              sample_shm 4 (Some [1; 2; 3; 4]) (Some 0)
              ltac:(right; right; reflexivity))
    as (H1 & _ & _ & H4 & _).
  exact (conj H1 H4).
Defined.




(** *** The engine *)


(** X11 after SET_UID: no boot key found, boot not done, PRNG not
    initialised. *)
Lemma get_status_decodes_witness :
  let server := sample_server true (sample_boot_store None) [] in
  let o1 := wh_Server_HandleSheRequest sheGlobals_init (Some server)
              WH_SHE_SET_UID (Some packet_set_uid) (Some 24) sample_stack in
  let o := wh_Server_HandleSheRequest (out_glob o1) (Some server)
             WH_SHE_GET_STATUS (Some (mkPacket 0 (repeat 0 8%nat))) (Some 8)
             sample_stack in
  out_ret o = 0 /\ out_glob o = out_glob o1
  /\ exists p, out_data o = Some p /\ rc p = 0
       /\ (Z.land (byte_at (body p) 0) WOLFHSM_SHE_SREG_BOOT_OK <> 0
           <-> hsmSheSbState (out_glob o1) = WOLFHSM_SHE_SB_SUCCESS).
Proof.
  intros server o1 o.
  destruct (get_status_decodes (CFG := sample_be) ltac:(reflexivity)
              ltac:(reflexivity) (out_glob o1) server
              (mkPacket 0 (repeat 0 8%nat)) 8 sample_stack
              ltac:(apply she_reachable_step, she_reachable_init)
              ltac:(vm_compute; discriminate))
    as (H1 & H2 & _ & _ & p & Hp & Hrc & Hs).
  cbv zeta in Hs. destruct Hs as (_ & Hok & _).
  exact (conj H1 (conj H2 (ex_intro _ p (conj Hp (conj Hrc Hok))))).
Defined.

(** X12 at process start, and on a second SET_UID. *)
Lemma uid_written_once_witness :
  let server := sample_server true (sample_boot_store None) [] in
  let o1 := wh_Server_HandleSheRequest sheGlobals_init (Some server)
              WH_SHE_SET_UID (Some packet_set_uid) (Some 24) sample_stack in
  let o2 := wh_Server_HandleSheRequest sheGlobals_booted (Some server)
              WH_SHE_SET_UID (Some packet_set_uid) (Some 24) sample_stack in
  (response_rc o1 = Some 0 /\ hsmSheUidSet (out_glob o1) = 1)
  /\ (response_rc o2 = Some WH_SHE_ERC_SEQUENCE_ERROR
      /\ out_glob o2 = sheGlobals_booted).
Proof.
  intros server o1 o2. split.
  - destruct (proj1 (uid_written_once (CFG := sample_be) ltac:(reflexivity)
                       sheGlobals_init server WH_SHE_SET_UID packet_set_uid 24
                       sample_stack)
                    ltac:(reflexivity) ltac:(reflexivity))
      as (_ & H2 & H3 & _).
    exact (conj H2 H3).
  - destruct (proj2 (uid_written_once (CFG := sample_be) ltac:(reflexivity)
                       sheGlobals_booted server WH_SHE_SET_UID packet_set_uid 24
                       sample_stack)
                    ltac:(reflexivity))
      as (_ & _ & H3).
    exact (H3 ltac:(reflexivity)).
Defined.

(** *** Secure boot *)

(** X13 on a keystore without the boot MAC key. *)
Lemma secure_boot_without_key_witness :
  let g := mkGlobals zero_block zero_block WOLFHSM_SHE_SB_INIT 0 0 1 0 0 0
             (mkCmac [] []) in
  let server := sample_server true (sample_store None) sample_uid in
  let o := wh_Server_HandleSheRequest g (Some server) WH_SHE_SECURE_BOOT_INIT
             (Some packet_boot_init) (Some 16) sample_stack in
  response_rc o = Some WH_SHE_ERC_NO_SECURE_BOOT
  /\ hsmSheSbState (out_glob o) = WOLFHSM_SHE_SB_SUCCESS
  /\ she_gate_blocks (out_glob o) WH_SHE_LOAD_KEY = false.
Proof.
  intros g server o.
  destruct (secure_boot_without_key (CFG := sample_be) ltac:(reflexivity)
              g server packet_boot_init 16 sample_stack
              ltac:(vm_compute; discriminate) ltac:(reflexivity)
              ltac:(vm_compute; discriminate))
    as (_ & H2 & _ & H4 & _ & _ & H7).
  exact (conj H2 (conj H4 (H7 WH_SHE_LOAD_KEY))).
Defined.

(** X14 on the booted engine: a second SECURE_BOOT_INIT. *)
Lemma secure_boot_request_after_success_witness :
  let server := sample_server true (sample_store None) sample_uid in
  let o := wh_Server_HandleSheRequest sheGlobals_booted (Some server)
             WH_SHE_SECURE_BOOT_INIT (Some packet_boot_init) (Some 16)
             sample_stack in
  response_rc o = Some WH_SHE_ERC_SEQUENCE_ERROR
  /\ hsmSheSbState (out_glob o) = WOLFHSM_SHE_SB_INIT
  /\ she_gate_blocks (out_glob o) WH_SHE_LOAD_KEY = true.
Proof.
  intros server o.
  destruct (secure_boot_request_after_success (CFG := sample_be)
              ltac:(reflexivity) sheGlobals_booted server
              WH_SHE_SECURE_BOOT_INIT packet_boot_init 16 sample_stack
              ltac:(vm_compute; discriminate) ltac:(reflexivity)
              ltac:(reflexivity))
    as (_ & H2 & _ & H4 & H5).
  split; [exact H2|]. split; [exact H4|].
  apply H5; [vm_compute; discriminate | vm_compute; discriminate | reflexivity].
Defined.

(** X15 on the image [de ad be ef] sent in two chunks of two bytes. *)
Lemma secure_boot_mac_input_witness :
  let server := sample_server true (sample_boot_store None) sample_uid in
  let g := out_glob (wh_Server_HandleSheRequest sheGlobals_init (Some server)
                       WH_SHE_SET_UID (Some packet_set_uid) (Some 24)
                       sample_stack) in
  let o := wh_Server_HandleSheRequest g (Some server) WH_SHE_SECURE_BOOT_INIT
             (Some packet_boot_init) (Some 16) sample_stack in
  let g2 := boot_updates (out_glob o) server sample_stack
              [[0xde; 0xad]; [0xbe; 0xef]] in
  hsmSheSbState g2 = WOLFHSM_SHE_SB_FINISH
  /\ hsmSheBlSizeReceived g2 = 4
  /\ sheCmac g2
     = mkCmac sample_boot_key
         (repeat 0 12%nat ++ [0; 0; 0; 4] ++ [0xde; 0xad; 0xbe; 0xef]).
Proof.
  intros server g o g2.
  destruct (secure_boot_mac_input (CFG := sample_be) ltac:(reflexivity)
              ltac:(vm_compute; discriminate)
              ltac:(intros cm d; reflexivity)
              g server packet_boot_init 16 sample_stack
              [[0xde; 0xad]; [0xbe; 0xef]]
              ltac:(apply she_reachable_step, she_reachable_init)
              ltac:(vm_compute; discriminate) ltac:(reflexivity)
              ltac:(reflexivity) ltac:(reflexivity)
              ltac:(intros key sz; reflexivity)
              ltac:(reflexivity) ltac:(discriminate)
              ltac:(intros k Hk; assert (k = 1%nat) as -> by (simpl in Hk; lia);
                    vm_compute; reflexivity))
    as (_ & _ & H3 & _ & _ & H6 & H7).
  exact (conj H3 (conj H6 H7)).
Defined.

(** *** LOAD_KEY *)

(** X17 on slot 4 write-protected with counter 5. *)
Lemma load_key_write_protected_witness :
  let server := sample_server true (sample_store (Some (0x01, 5))) sample_uid in
  let r := hsmSheLoadKey sheGlobals_booted server
             (mkPacket 0 request_counter_1) 72 sample_stack in
  res_ret r = WH_SHE_ERC_WRITE_PROTECTED /\ res_server r = server.
Proof.
  intros server r.
  destruct (load_key_write_protected (CFG := sample_be) ltac:(reflexivity)
              sheGlobals_booted server (mkPacket 0 request_counter_1) 72
              sample_stack
              ltac:(vm_compute; discriminate)
              ltac:(intros cap; vm_compute; split; [reflexivity|discriminate]))
    as (_ & H2 & _ & _ & H5).
  exact (conj (H5 ltac:(reflexivity)) H2).
Defined.

(** X18 on an empty keystore. *)
Lemma load_key_without_auth_key_witness :
  let server := sample_server true ∅ sample_uid in
  let r := hsmSheLoadKey sheGlobals_booted server
             (mkPacket 0 request_counter_1) 72 sample_stack in
  res_ret r = WH_SHE_ERC_KEY_NOT_AVAILABLE
  /\ res_server r = server
  /\ res_packet r = mkPacket 0 request_counter_1.
Proof.
  intros server r.
  destruct (load_key_without_auth_key (CFG := sample_be) ltac:(reflexivity)
              sheGlobals_booted server (mkPacket 0 request_counter_1) 72
              sample_stack ltac:(vm_compute; discriminate))
    as (H1 & H2 & H3 & _).
  exact (conj H1 (conj H2 H3)).
Defined.

(** *** Key derivation and the PRNG *)

(** X19 on a message of 20 bytes and the same message followed by 12
    zero bytes. *)
Lemma aes_mp16_trailing_zeros_witness :
  let server := sample_server true (sample_store None) sample_uid in
  let msg := sample_auth_key ++ [1; 2; 3; 4] in
  wh_AesMp16 (Some server) (Some (msg ++ repeat 0 12%nat)) 32
    (Some (repeat 0xFF 16%nat))
  = wh_AesMp16 (Some server) (Some msg) 20 (Some (repeat 0 16%nat)).
Proof.
  intros server msg.
  exact (aes_mp16_trailing_zeros (CFG := sample_be) toy_aes_direct_ok server msg
           (repeat 0xFF 16%nat) (repeat 0 16%nat) 12
           ltac:(vm_compute; reflexivity) ltac:(vm_compute; discriminate)
           ltac:(vm_compute; lia) ltac:(vm_compute; lia)).
Defined.

(** X20 on an engine whose PRNG is initialised already. *)
Lemma init_rnd_refused_witness :
  let server := sample_server true sample_rng_store sample_uid in
  hsmSheInitRnd sheGlobals_rnd server (mkPacket 0 (repeat 0 8%nat)) 8 sample_stack
  = mkResult WH_SHE_ERC_SEQUENCE_ERROR sheGlobals_rnd server
      (mkPacket 0 (repeat 0 8%nat)) 8.
Proof.
  intros server.
  exact (proj1 (init_rnd_refused (CFG := sample_be) ltac:(reflexivity)
                  sheGlobals_rnd server (mkPacket 0 (repeat 0 8%nat)) 8
                  sample_stack)
               ltac:(reflexivity)).
Defined.

(** X21 on the booted engine with the secret key and a seed stored. *)
Lemma init_rnd_derives_witness :
  let server := sample_server true sample_rng_store sample_uid in
  let r := hsmSheInitRnd sheGlobals_booted server (mkPacket 0 (repeat 0 8%nat))
             8 sample_stack in
  res_ret r = 0
  /\ hsmSheRndInited (res_glob r) = 1
  /\ WOLFHSM_SHE_PRNG_KEY (res_glob r)
     = AES_MP16 (sample_auth_key ++ WOLFHSM_SHE_PRNG_KEY_C).
Proof.
  intros server r.
  destruct (init_rnd_derives (CFG := sample_be) ltac:(reflexivity)
              sheGlobals_booted server (mkPacket 0 (repeat 0 8%nat)) 8
              sample_stack toy_aes_direct_ok
              ltac:(vm_compute; discriminate) ltac:(reflexivity)
              ltac:(reflexivity) ltac:(reflexivity) ltac:(reflexivity)
              ltac:(reflexivity) ltac:(reflexivity) ltac:(reflexivity)
              ltac:(reflexivity) ltac:(reflexivity) ltac:(reflexivity))
    as (H1 & H2 & _ & H4 & _).
  exact (conj H1 (conj H2 H4)).
Defined.

(** X22 on an engine whose PRNG is initialised. *)
Lemma extend_seed_derives_witness :
  let server := sample_server true sample_rng_store sample_uid in
  let packet := mkPacket 0 (repeat 0xE7 16%nat) in
  let r := hsmSheExtendSeed sheGlobals_rnd server packet 24 sample_stack in
  hsmShePrngState (res_glob r)
  = AES_MP16 (hsmShePrngState sheGlobals_rnd ++ repeat 0xE7 16%nat)
  /\ res_ret r = 0.
Proof.
  intros server packet r.
  destruct (proj2 (extend_seed_derives (CFG := sample_be) ltac:(reflexivity)
                     sheGlobals_rnd server packet 24 sample_stack
                     toy_aes_direct_ok
                     ltac:(reflexivity) ltac:(reflexivity)
                     ltac:(vm_compute; discriminate))
                  ltac:(vm_compute; discriminate))
    as (H1 & _ & H3).
  destruct (H3 ltac:(reflexivity) ltac:(reflexivity)) as (_ & H5 & _).
  exact (conj H1 (H5 ltac:(reflexivity))).
Defined.

(** *** Bulk ciphers and the RAM key *)


(** X24 on the booted engine, whose RAM-key flag is clear. *)
Lemma export_ram_key_refused_witness :
  let server := sample_server true (sample_store None) sample_uid in
  wh_Server_HandleSheRequest sheGlobals_booted (Some server)
    WH_SHE_EXPORT_RAM_KEY (Some (mkPacket 0 (repeat 0 112%nat))) (Some 8)
    sample_stack
  = mkOutcome 0 sheGlobals_booted (Some server)
      (Some (mkPacket WH_SHE_ERC_KEY_INVALID (repeat 0 112%nat))) (Some 12).
Proof.
  intros server.
  exact (proj2 (export_ram_key_refused (CFG := sample_be) ltac:(reflexivity)
                  sheGlobals_booted server (mkPacket 0 (repeat 0 112%nat)) 8
                  sample_stack ltac:(reflexivity))
               ltac:(vm_compute; discriminate) ltac:(reflexivity)).
Defined.

(** X25 on the booted engine: the key [77 .. 77] loaded in plain. *)
Lemma load_plain_key_marks_witness :
  let server := sample_server true (sample_store None) sample_uid in
  let packet := mkPacket 0 (repeat 0x77 16%nat) in
  let o := wh_Server_HandleSheRequest sheGlobals_booted (Some server)
             WH_SHE_LOAD_PLAIN_KEY (Some packet) (Some 24) sample_stack in
  out_data o = Some (mkPacket 0 (repeat 0x77 16%nat))
  /\ out_size o = Some 8
  /\ hsmSheRamKeyPlain (out_glob o) = 1.
Proof.
  intros server packet o.
  destruct (load_plain_key_marks (CFG := sample_be) ltac:(reflexivity)
              sheGlobals_booted server packet packet 24 24 sample_stack
              ltac:(vm_compute; discriminate) ltac:(reflexivity))
    as (_ & _ & H3 & _).
  exact (H3 ltac:(reflexivity)).
Defined.

End MoreSamples.
